(** * SM-Bot-Backend: the knowledge aggregation core, embedded in Rocq

    The development follows the JavaScript sources:
    - [utils/cache.js]              -> module [SmartCache]
    - [services/mathService.js]     -> module [MathService]
    - [utils/queryAnalyzer.js]      -> modules [Regex], [QueryAnalyzer]
    - [services/webSearchService.js]-> module [WebSearch]
    - [server.js] (gatherKnowledge) -> module [Server]
    - [server.js] (routes, quick replies) -> modules [Routes], [QuickResponse]
    - [services/timeService.js]     -> module [TimeService]
    - [services/mathService.js] (convertUnits) -> module [UnitConverter]
    - [services/utilityService.js]  -> module [Utility]
    Module [JsObject] is property access on an object literal. The modules
    [CacheAudit], [Calculator], [SearchChain], [Requests] and [Gathering]
    hold the notions in which the further properties of the cache, the
    calculator, the search, the analyzer and the orchestrator are stated.

    Conventions of the embedding.
    - A JavaScript string is a [string]: a sequence of code units below 256
      (Latin-1), which covers every character the analyzer's patterns name
      (the multiplication and division signs are code units 215 and 247).
    - A JavaScript number is a [JsNumber]: NaN, the two infinities, or a
      finite value kept as a rational; the two zeros are one value. A number
      read from text by [parseFloat] is rounded to binary64 ([Js.round64]);
      the numeric literals of the sources stand for the decimals they
      write, and are only compared or subtracted for the sign.
    - [Date.now()] is an integer number of milliseconds, a [Z]; every
      operation that reads the clock takes the reading as an argument.
    - A JavaScript object used as a dictionary is a [gmap] with string keys.
    - [null]/[undefined] results are [None]. *)

From Stdlib Require Import ZArith QArith Ascii String List Lia Lqa Bool.
From Stdlib Require Import Qround Qabs Qpower.
From stdpp Require Import gmap strings list.

Local Open Scope string_scope.
Local Open Scope list_scope.
Local Open Scope Z_scope.

(* ================================================================= *)
(** ** JavaScript numbers *)

Module Js.

Inductive JsNumber : Type :=
| NaN
| PosInf
| NegInf
| Fin (q : Q).

(** [isFinite(x)] *)
Definition isFinite (x : JsNumber) : bool :=
  match x with Fin _ => true | _ => false end.

(** Truthiness of a number: [0] and [NaN] are falsy. *)
Definition truthy (x : JsNumber) : bool :=
  match x with
  | NaN => false
  | Fin q => negb (Qeq_bool q 0)
  | _ => true
  end.

(** [a - b] *)
Definition sub (a b : JsNumber) : JsNumber :=
  match a, b with
  | NaN, _ | _, NaN => NaN
  | PosInf, PosInf | NegInf, NegInf => NaN
  | PosInf, _ => PosInf
  | NegInf, _ => NegInf
  | Fin _, PosInf => NegInf
  | Fin _, NegInf => PosInf
  | Fin x, Fin y => Fin (x - y)
  end.

(** [x > 0] and [x < 0]; both are false on NaN. *)
Definition positive (x : JsNumber) : bool :=
  match x with
  | PosInf => true
  | Fin q => negb (Qle_bool q 0)
  | _ => false
  end.

Definition negative (x : JsNumber) : bool :=
  match x with
  | NegInf => true
  | Fin q => negb (Qle_bool 0 q)
  | _ => false
  end.

(** The order of the non-NaN numbers, as a proposition. *)
Definition lt (a b : JsNumber) : Prop :=
  match a, b with
  | NaN, _ | _, NaN => False
  | NegInf, NegInf => False
  | NegInf, _ => True
  | _, NegInf => False
  | PosInf, _ => False
  | Fin _, PosInf => True
  | Fin x, Fin y => (x < y)%Q
  end.

Definition le (a b : JsNumber) : Prop := ~ lt b a.

(** *** The Number value of a rational

    A number read from text is the binary64 number nearest to the value
    written. *)

Section Binary64.

Local Open Scope Q_scope.

(** [x / 2^e] *)
Definition scaled (x : Q) (e : Z) : Q := x / 2 ^ e.

(** The integer nearest to [t]; of two that are equally near, the even
    one. *)
Definition round_half_even (t : Q) : Z :=
  let f := Qfloor t in
  match Qcompare (t - inject_Z f) (1 # 2) with
  | Lt => f
  | Gt => (f + 1)%Z
  | Eq => if Z.even f then f else (f + 1)%Z
  end.

(** The exponent [e] of the binary64 numbers around [x > 0]: the one with
    [2^52 <= x / 2^e < 2^53], and [-1074] for the numbers below [2^-1022]. *)
Definition exponent (x : Q) : Z :=
  let e0 := (Z.log2 (Qnum x) - Z.log2 (Zpos (Qden x)) - 52)%Z in
  let e1 := if Qle_bool (2 ^ 52) (scaled x e0) then e0 else (e0 - 1)%Z in
  Z.max e1 (-1074).

(** The Number value for [x >= 0]: round to nearest, ties to even;
    [Infinity] from [2^1024] on. *)
Definition round64 (x : Q) : JsNumber :=
  if Qle_bool x 0 then Fin 0
  else
    let e := exponent x in
    let y := inject_Z (round_half_even (scaled x e)) * 2 ^ e in
    if Qle_bool (2 ^ 1024) y then PosInf else Fin (Qred y).

(** *** What the standard asks of the Number value *)

(** The finite binary64 numbers that are not negative. *)
Definition binary64 (y : Q) : Prop :=
  exists m e, (0 <= m < 2 ^ 53)%Z /\ (-1074 <= e <= 971)%Z /\ y == inject_Z m * 2 ^ e.

(** The significand of [y] is even. *)
Definition even64 (y : Q) : Prop :=
  exists m e,
    (-1074 <= e <= 971)%Z
    /\ ((2 ^ 52 <= m < 2 ^ 53)%Z \/ (e = (-1074)%Z /\ (0 <= m < 2 ^ 52)%Z))
    /\ y == inject_Z m * 2 ^ e /\ Z.even m = true.

(** [r] is the Number value for [x >= 0]. *)
Definition nearest64 (x : Q) (r : JsNumber) : Prop :=
  match r with
  | Fin y =>
      x < 2 ^ 1024 - 2 ^ 970
      /\ binary64 y
      /\ (forall z, binary64 z -> Qabs (x - y) <= Qabs (x - z))
      /\ (forall z, binary64 z -> ~ z == y -> Qabs (x - z) == Qabs (x - y) -> even64 y)
  | PosInf => 2 ^ 1024 - 2 ^ 970 <= x
  | _ => False
  end.

(** The Number value for [q], or for [-q]. *)
Definition number_value (negative : bool) (q : Q) : JsNumber :=
  match round64 q with
  | Fin y => Fin (if negative then - y else y)
  | PosInf => if negative then NegInf else PosInf
  | r => r
  end.

End Binary64.

End Js.

(* ================================================================= *)
(** ** JavaScript strings (code units below 256) *)

Module JsString.

Definition code (c : ascii) : nat := nat_of_ascii c.

Definition between (lo hi : nat) (c : ascii) : bool :=
  (lo <=? code c)%nat && (code c <=? hi)%nat.

Definition is_digit (c : ascii) : bool := between 48 57 c.

(** [\w]: letters, digits and the underscore. *)
Definition is_word (c : ascii) : bool :=
  between 97 122 c || between 65 90 c || is_digit c || (code c =? 95)%nat.

(** [\s], which is also what [trim] removes: tab, line feed, vertical tab,
    form feed, carriage return, space and the no-break space. *)
Definition is_space (c : ascii) : bool :=
  between 9 13 c || (code c =? 32)%nat || (code c =? 160)%nat.

(** Line terminators, which [.] does not match. *)
Definition is_newline (c : ascii) : bool :=
  (code c =? 10)%nat || (code c =? 13)%nat.

(** [toLowerCase] on one code unit: A-Z and the accented capitals of
    Latin-1 (all of 192-222 but the multiplication sign). *)
Definition lower_char (c : ascii) : ascii :=
  if between 65 90 c || (between 192 222 c && negb (code c =? 215)%nat)
  then ascii_of_nat (code c + 32) else c.

(** [toUpperCase] on one code unit whose capital is again below 256: a-z
    and 224-254 but the division sign. The sharp s, the y with diaeresis and
    the micro sign, whose capitals leave Latin-1, are kept as they are. *)
Definition upper_char (c : ascii) : ascii :=
  if between 97 122 c || (between 224 254 c && negb (code c =? 247)%nat)
  then ascii_of_nat (code c - 32) else c.

Fixpoint map_chars (f : ascii -> ascii) (s : string) : string :=
  match s with
  | EmptyString => EmptyString
  | String c s' => String (f c) (map_chars f s')
  end.

Definition toLowerCase : string -> string := map_chars lower_char.
Definition toUpperCase : string -> string := map_chars upper_char.

Fixpoint trimStart (s : string) : string :=
  match s with
  | String c s' => if is_space c then trimStart s' else s
  | EmptyString => EmptyString
  end.

(** [trimEnd]: a character is dropped when it is a space and everything
    after it has been dropped. *)
Fixpoint trimEnd (s : string) : string :=
  match s with
  | EmptyString => EmptyString
  | String c s' =>
      match trimEnd s' with
      | EmptyString => if is_space c then EmptyString else String c EmptyString
      | t => String c t
      end
  end.

Definition trim (s : string) : string := trimEnd (trimStart s).

(** [s.length] *)
Definition length (s : string) : nat := String.length s.

Fixpoint starts_with (p s : string) : bool :=
  match p, s with
  | EmptyString, _ => true
  | String a p', String b s' => Ascii.eqb a b && starts_with p' s'
  | String _ _, EmptyString => false
  end.

Fixpoint drop (n : nat) (s : string) : string :=
  match n, s with
  | O, _ => s
  | S n', String _ s' => drop n' s'
  | S _, EmptyString => EmptyString
  end.

Fixpoint take (n : nat) (s : string) : string :=
  match n, s with
  | O, _ => EmptyString
  | S n', String c s' => String c (take n' s')
  | S _, EmptyString => EmptyString
  end.

(** [s.includes(p)] *)
Fixpoint includes (p s : string) : bool :=
  starts_with p s ||
  match s with
  | EmptyString => false
  | String _ s' => includes p s'
  end.

(** [s.replace(p, r)] with a string pattern: the first occurrence only. *)
Fixpoint replace_str (p r s : string) : string :=
  if starts_with p s then r ++ drop (String.length p) s
  else match s with
       | EmptyString => EmptyString
       | String c s' => String c (replace_str p r s')
       end.

(** Decimal digits at the front of [s], and what follows them. *)
Fixpoint span_digits (s : string) : string * string :=
  match s with
  | String c s' =>
      if is_digit c then let '(d, r) := span_digits s' in (String c d, r)
      else (EmptyString, s)
  | EmptyString => (EmptyString, EmptyString)
  end.

Fixpoint digits_value (acc : Z) (s : string) : Z :=
  match s with
  | String c s' => digits_value (10 * acc + Z.of_nat (code c - 48)) s'
  | EmptyString => acc
  end.

(** The number written [ip.fp] in decimal. *)
Definition decimal (ip fp : string) : Q :=
  Qmake (digits_value 0 (ip ++ fp)) (Pos.pow 10 (Pos.of_nat (String.length fp))).

Definition decimal_q (ip fp : string) : Q :=
  match fp with
  | EmptyString => inject_Z (digits_value 0 ip)
  | _ => decimal ip fp
  end.

(** An optional sign. *)
Definition read_sign (s : string) : bool * string :=
  match s with
  | String "-" s' => (true, s')
  | String "+" s' => (false, s')
  | _ => (false, s)
  end.

(** [parseFloat(s)] on plain decimal notation: leading white space, an
    optional sign, digits, an optional fraction; what follows is ignored and
    the result is NaN when there is no digit. The result is the Number
    value of the decimal read: the nearest binary64 number, [Infinity] when
    it is too large. Exponents and the [Infinity] literal are not recognised
    here; the analyzer only parses text captured by the pattern for digits
    with an optional fraction. *)
Definition parseFloat (s : string) : Js.JsNumber :=
  let '(neg, s) := read_sign (trimStart s) in
  let '(ip, r) := span_digits s in
  let fp := match r with
            | String "." r' => fst (span_digits r')
            | _ => EmptyString
            end in
  match ip, fp with
  | EmptyString, EmptyString => Js.NaN
  | _, _ => Js.number_value neg (decimal_q ip fp)
  end.

(** Every character of [s] satisfies [p]. *)
Fixpoint all_chars (p : ascii -> bool) (s : string) : bool :=
  match s with
  | EmptyString => true
  | String c s' => p c && all_chars p s'
  end.

(** [s] is empty or starts with a character outside [p]. *)
Definition stops (p : ascii -> bool) (s : string) : bool :=
  match s with
  | EmptyString => true
  | String c _ => negb (p c)
  end.

(** The last character of [s], or [prev] when [s] is empty. *)
Fixpoint last_char (prev : option ascii) (s : string) : option ascii :=
  match s with
  | EmptyString => prev
  | String c s' => last_char (Some c) s'
  end.

(** The text of a decimal amount: digits, and a fraction when [fp] is not
    empty. *)
Definition decimal_text (ip fp : string) : string :=
  match fp with
  | EmptyString => ip
  | _ => ip ++ "." ++ fp
  end.

(** The amount that a decimal text writes, by the place of each digit:
    the whole part plus the fraction. The parsed amount is stated against
    it. *)
Definition spec_digit (c : ascii) : Z :=
  match c with
  | "0"%char => 0 | "1"%char => 1 | "2"%char => 2 | "3"%char => 3
  | "4"%char => 4 | "5"%char => 5 | "6"%char => 6 | "7"%char => 7
  | "8"%char => 8 | "9"%char => 9
  | _ => 0
  end.

Fixpoint spec_numeral (s : string) : Z :=
  match s with
  | EmptyString => 0
  | String c s' => spec_digit c * 10 ^ Z.of_nat (String.length s') + spec_numeral s'
  end.

Definition spec_amount (ip fp : string) : Q :=
  (inject_Z (spec_numeral ip)
   + inject_Z (spec_numeral fp) / inject_Z (10 ^ Z.of_nat (String.length fp)))%Q.

(** The part of [s] that precedes its suffix [rest]. *)
Definition consumed (s rest : string) : string :=
  take (String.length s - String.length rest) s.

End JsString.

(* ================================================================= *)
(** ** Regular expressions

    A backtracking matcher with the priorities of the ECMAScript one:
    alternatives left to right, greedy repetition longest first, lazy
    repetition shortest first, leftmost match. Only the constructs that the
    sources use are present; repetition is over one character class, which
    is the only form the sources' patterns contain. *)

Module Regex.

Import JsString.

(** Members of a bracket class. *)
Inductive item : Type :=
| IChar (c : ascii)
| IRange (lo hi : ascii)
| IDigit          (* \d *)
| IWord           (* \w *)
| ISpace.         (* \s *)

(** What can match one character. *)
Inductive cset : Type :=
| CAny                                  (* . *)
| COne (i : item)                       (* a, \d, \w, \s *)
| CSet (negated : bool) (l : list item). (* [...] and [^...] *)

Inductive regex : Type :=
| Eps
| Chr (cs : cset)
| Seq (a b : regex)
| Alt (a b : regex)
| Rep (greedy : bool) (cs : cset)       (* cs* and cs*? *)
| Grp (n : nat) (a : regex)             (* capturing group number n *)
| Bol                                   (* ^ *)
| Eol                                   (* $ *)
| Wordb.                                (* \b *)

(** A pattern with its flags. *)
Record RegExp : Type := mkRegExp {
  source : regex;
  ignoreCase : bool;
  global : bool
}.

(** Under [/i] two characters match when they have the same capital. *)
Definition same_char (ci : bool) (a b : ascii) : bool :=
  if ci then Ascii.eqb (upper_char a) (upper_char b) else Ascii.eqb a b.

Definition in_range (lo hi c : ascii) : bool := between (code lo) (code hi) c.

Definition imatch (ci : bool) (i : item) (c : ascii) : bool :=
  match i with
  | IChar a => same_char ci a c
  | IRange lo hi =>
      in_range lo hi c
      || (ci && (in_range lo hi (lower_char c) || in_range lo hi (upper_char c)))
  | IDigit => is_digit c
  | IWord => is_word c
  | ISpace => is_space c
  end.

Definition cmatch (ci : bool) (cs : cset) (c : ascii) : bool :=
  match cs with
  | CAny => negb (is_newline c)
  | COne i => imatch ci i c
  | CSet neg l => xorb neg (existsb (fun i => imatch ci i c) l)
  end.

(** Captures: the latest binding of a group comes first. *)
Definition captures : Type := list (nat * string).

Fixpoint capture (n : nat) (cp : captures) : option string :=
  match cp with
  | [] => None
  | (m, s) :: cp' => if (n =? m)%nat then Some s else capture n cp'
  end.

(** A matcher state: the captures so far, the character before the current
    position ([None] at the start of the input) and the input that is left. *)
Definition cont : Type := captures -> option ascii -> string -> option (captures * string).

Definition word_before (prev : option ascii) : bool :=
  match prev with Some c => is_word c | None => false end.

Definition word_after (s : string) : bool :=
  match s with String c _ => is_word c | EmptyString => false end.

(** [p*]: greedy takes the longest run first and gives characters back one
    at a time; lazy tries the continuation first. *)
Fixpoint rep (p : ascii -> bool) (greedy : bool)
    (k : option ascii -> string -> option (captures * string))
    (prev : option ascii) (s : string) : option (captures * string) :=
  match s with
  | EmptyString => k prev s
  | String c s' =>
      if p c then
        if greedy then
          match rep p greedy k (Some c) s' with
          | Some r => Some r
          | None => k prev s
          end
        else
          match k prev s with
          | Some r => Some r
          | None => rep p greedy k (Some c) s'
          end
      else k prev s
  end.

Fixpoint m (ci : bool) (r : regex) (cp : captures) (prev : option ascii)
    (s : string) (k : cont) : option (captures * string) :=
  match r with
  | Eps => k cp prev s
  | Chr cs =>
      match s with
      | String c s' => if cmatch ci cs c then k cp (Some c) s' else None
      | EmptyString => None
      end
  | Seq a b => m ci a cp prev s (fun cp' prev' s' => m ci b cp' prev' s' k)
  | Alt a b =>
      match m ci a cp prev s k with
      | Some res => Some res
      | None => m ci b cp prev s k
      end
  | Rep g cs => rep (cmatch ci cs) g (k cp) prev s
  | Grp n a =>
      m ci a cp prev s (fun cp' prev' s' => k ((n, consumed s s') :: cp') prev' s')
  | Bol => match prev with None => k cp prev s | Some _ => None end
  | Eol => match s with EmptyString => k cp prev s | String _ _ => None end
  | Wordb => if xorb (word_before prev) (word_after s) then k cp prev s else None
  end.

(** A match that starts at the current position. *)
Definition match_here (ci : bool) (r : regex) (prev : option ascii) (s : string)
  : option (captures * string) :=
  m ci r [] prev s (fun cp _ s' => Some (cp, s')).

(** The result of [exec]: where the match starts, its text ([match[0]]),
    the groups, and the input after it. *)
Record MatchResult : Type := mkMatch {
  index : nat;
  whole : string;
  groups : captures;
  after : string
}.

(** The leftmost match at or after the current position. *)
Fixpoint search (ci : bool) (r : regex) (prev : option ascii) (s : string)
    (pos : nat) : option MatchResult :=
  match match_here ci r prev s with
  | Some (cp, s') =>
      Some {| index := pos; whole := consumed s s'; groups := cp; after := s' |}
  | None =>
      match s with
      | EmptyString => None
      | String c s' => search ci r (Some c) s' (S pos)
      end
  end.

(** [re.exec(s)] and [s.match(re)] for a pattern without the [g] flag. *)
Definition exec (re : RegExp) (s : string) : option MatchResult :=
  search (ignoreCase re) (source re) None s 0.

(** [match[n]] *)
Definition group (n : nat) (mr : MatchResult) : option string :=
  match n with
  | O => Some (whole mr)
  | _ => capture n (groups mr)
  end.

(** [re.test(s)] *)
Definition test (re : RegExp) (s : string) : bool :=
  match exec re s with Some _ => true | None => false end.

(** Replacement of every match, left to right. [skip] counts the characters
    of the input that still belong to the match found last. After an empty
    match the scan moves on by one character. *)
Fixpoint replace_from (ci : bool) (r : regex) (by_ : string)
    (prev : option ascii) (s : string) (skip : nat) : string :=
  match s with
  | EmptyString =>
      match skip, match_here ci r prev s with
      | O, Some _ => by_
      | _, _ => EmptyString
      end
  | String c s' =>
      match skip with
      | S n => replace_from ci r by_ (Some c) s' n
      | O =>
          match match_here ci r prev s with
          | Some (_, rest) =>
              match (String.length s - String.length rest)%nat with
              | O => by_ ++ String c (replace_from ci r by_ (Some c) s' 0)
              | S n => by_ ++ replace_from ci r by_ (Some c) s' n
              end
          | None => String c (replace_from ci r by_ (Some c) s' 0)
          end
      end
  end.

(** [s.replace(re, by)] where [by] is a string without [$] patterns: every
    match with the [g] flag, the first one without. *)
Definition replace (re : RegExp) (by_ : string) (s : string) : string :=
  if global re then replace_from (ignoreCase re) (source re) by_ None s 0
  else match exec re s with
       | Some mr => take (index mr) s ++ by_ ++ after mr
       | None => s
       end.

(** Pattern syntax. *)
Fixpoint lit (s : string) : regex :=
  match s with
  | EmptyString => Eps
  | String c EmptyString => Chr (COne (IChar c))
  | String c s' => Seq (Chr (COne (IChar c))) (lit s')
  end.

Fixpoint seq (l : list regex) : regex :=
  match l with
  | [] => Eps
  | [r] => r
  | r :: l' => Seq r (seq l')
  end.

Fixpoint alt (l : list regex) : regex :=
  match l with
  | [] => Eps
  | [r] => r
  | r :: l' => Alt r (alt l')
  end.

Definition opt (r : regex) : regex := Alt r Eps.              (* r? *)
Definition star (cs : cset) : regex := Rep true cs.           (* cs* *)
Definition plus (cs : cset) : regex := Seq (Chr cs) (Rep true cs).   (* cs+ *)
Definition plus_lazy (cs : cset) : regex := Seq (Chr cs) (Rep false cs). (* cs+? *)
Definition digit : cset := COne IDigit.
Definition word : cset := COne IWord.
Definition space : cset := COne ISpace.
Definition alts (l : list string) : regex := alt (List.map lit l).

Definition re (r : regex) : RegExp := {| source := r; ignoreCase := false; global := false |}.
Definition re_i (r : regex) : RegExp := {| source := r; ignoreCase := true; global := false |}.
Definition re_g (r : regex) : RegExp := {| source := r; ignoreCase := false; global := true |}.
Definition re_gi (r : regex) : RegExp := {| source := r; ignoreCase := true; global := true |}.

End Regex.

(* ================================================================= *)
(** ** utils/cache.js *)

Module SmartCache.

Section WithPayload.

(** The cached payload ([data]) is opaque to the cache. *)
Context {V : Type}.

Record Entry : Type := mkEntry {
  data : V;
  timestamp : Z;
  ttl : Z
}.

Record Stats : Type := mkStats {
  hits : nat;
  misses : nat;
  sets : nat
}.

(** The object built by [constructor()]: [this.cache] and [this.stats]. *)
Record t : Type := mk {
  cache : gmap string Entry;
  stats : Stats
}.

Definition constructor : t :=
  {| cache := ∅; stats := {| hits := 0; misses := 0; sets := 0 |} |}.

Definition hit (s : Stats) : Stats :=
  {| hits := S (hits s); misses := misses s; sets := sets s |}.

Definition miss (s : Stats) : Stats :=
  {| hits := hits s; misses := S (misses s); sets := sets s |}.

Definition count_set (s : Stats) : Stats :=
  {| hits := hits s; misses := misses s; sets := S (sets s) |}.

(** Default of the [maxAge] and [ttl] parameters. *)
Definition default_age : Z := 3600000.

(** [get(key, maxAge)] called when [Date.now()] reads [now]:
    the returned value ([None] is [null]) and the cache afterwards. *)
Definition get (now : Z) (key : string) (maxAge : Z) (c : t) : option V * t :=
  match cache c !! key with
  | Some cached =>
      if now - timestamp cached <? maxAge
      then (Some (data cached), {| cache := cache c; stats := hit (stats c) |})
      else (None, {| cache := base.delete key (cache c); stats := miss (stats c) |})
  | None => (None, {| cache := cache c; stats := miss (stats c) |})
  end.

(** A callback registered with [setTimeout]: the closure keeps [key] and
    [ttl]; [due] is the earliest clock reading at which it may run. *)
Record Timer : Type := mkTimer {
  t_key : string;
  t_ttl : Z;
  t_due : Z
}.

(** Delay that Node gives to [setTimeout(f, ttl)]: a delay below 1 or above
    2^31-1 is replaced by 1. *)
Definition timeout_delay (ms : Z) : Z :=
  if (ms <? 1) || (2147483647 <? ms) then 1 else ms.

(** The cache object together with the timers it has pending. *)
Record Heap : Type := mkHeap {
  this : t;
  pending : list Timer
}.

Definition fresh : Heap := {| this := constructor; pending := [] |}.

(** [set(key, data, ttl)] at clock reading [now]. *)
Definition set (now : Z) (key : string) (d : V) (ttl_ : Z) (h : Heap) : V * Heap :=
  let c := this h in
  let c' := {| cache := <[key := {| data := d; timestamp := now; ttl := ttl_ |}]> (cache c);
               stats := count_set (stats c) |} in
  (d, {| this := c';
         pending := pending h ++ [ {| t_key := key; t_ttl := ttl_;
                                      t_due := now + timeout_delay ttl_ |} ] |}).

(** Body of the callback passed to [setTimeout] by [set], run at [now]. *)
Definition cleanup (now : Z) (tm : Timer) (c : t) : t :=
  match cache c !! t_key tm with
  | Some cached =>
      if t_ttl tm <=? now - timestamp cached
      then {| cache := base.delete (t_key tm) (cache c); stats := stats c |}
      else c
  | None => c
  end.

(** [has(key, maxAge)] *)
Definition has (now : Z) (key : string) (maxAge : Z) (c : t) : bool :=
  match cache c !! key with
  | Some cached => now - timestamp cached <? maxAge
  | None => false
  end.

(** [delete(key)]: [Map.prototype.delete] tells whether the key was there. *)
Definition delete (key : string) (c : t) : bool * t :=
  (bool_decide (is_Some (cache c !! key)),
   {| cache := base.delete key (cache c); stats := stats c |}).

(** [clear()] *)
Definition clear (c : t) : bool * t :=
  (true, {| cache := ∅; stats := stats c |}).

(** What a client, or the timer queue, does to the heap in one turn of the
    event loop. *)
Inductive Op : Type :=
| OpGet (key : string) (maxAge : Z)
| OpSet (key : string) (d : V) (ttl_ : Z)
| OpHas (key : string) (maxAge : Z)
| OpDelete (key : string)
| OpClear
| OpFire (i : nat).      (* the [i]-th pending timer runs *)

Inductive Ret : Type :=
| RVal (v : option V)
| RBool (b : bool)
| RNone.

Definition on_this (f : t -> t) (h : Heap) : Heap :=
  {| this := f (this h); pending := pending h |}.

(** One operation at clock reading [now]. A timer that is not due yet, or
    that does not exist, does not run. *)
Definition exec (now : Z) (o : Op) (h : Heap) : Ret * Heap :=
  match o with
  | OpGet k a =>
      let '(v, c) := get now k a (this h) in (RVal v, on_this (fun _ => c) h)
  | OpSet k d l =>
      let '(v, h') := set now k d l h in (RVal (Some v), h')
  | OpHas k a => (RBool (has now k a (this h)), h)
  | OpDelete k =>
      let '(b, c) := delete k (this h) in (RBool b, on_this (fun _ => c) h)
  | OpClear =>
      let '(b, c) := clear (this h) in (RBool b, on_this (fun _ => c) h)
  | OpFire i =>
      match pending h !! i with
      | Some tm =>
          if t_due tm <=? now
          then (RNone, {| this := cleanup now tm (this h);
                          pending := base.delete i (pending h) |})
          else (RNone, h)
      | None => (RNone, h)
      end
  end.

(** A run: operations with the clock reading at which each one happens. *)
Fixpoint run (evs : list (Z * Op)) (h : Heap) : list Ret * Heap :=
  match evs with
  | [] => ([], h)
  | (now, o) :: evs' =>
      let '(r, h') := exec now o h in
      let '(rs, h'') := run evs' h' in
      (r :: rs, h'')
  end.

(** The clock never goes back along a run that starts at [t0]. *)
Fixpoint monotone (t0 : Z) (evs : list (Z * Op)) : Prop :=
  match evs with
  | [] => True
  | (now, _) :: evs' => t0 <= now /\ monotone now evs'
  end.

(** Operations that leave the entry of [key] to its owner: no other write or
    eviction of [key], and reads of [key] that probe with a window of at
    least [l]. Timers and operations on other keys are unrestricted. *)
Definition leaves_alone (key : string) (l : Z) (o : Op) : Prop :=
  match o with
  | OpGet k' a => k' <> key \/ l <= a
  | OpSet k' _ _ => k' <> key
  | OpDelete k' => k' <> key
  | OpClear => False
  | OpHas _ _ | OpFire _ => True
  end.

(** A pending cleanup of [key] whose closure holds a [ttl] of at least [l]. *)
Definition patient (key : string) (l : Z) (tm : Timer) : Prop :=
  t_key tm = key -> l <= t_ttl tm.

(** [key] is bound to entry [e] and every pending cleanup is patient. *)
Definition holds (key : string) (e : Entry) (h : Heap) : Prop :=
  cache (this h) !! key = Some e /\ Forall (patient key (ttl e)) (pending h).

End WithPayload.

Arguments Entry : clear implicits.
Arguments t : clear implicits.
Arguments Heap : clear implicits.
Arguments Op : clear implicits.
Arguments Ret : clear implicits.

End SmartCache.

(* ================================================================= *)
(** ** utils/queryAnalyzer.js *)

Module QueryAnalyzer.

Import Js JsString Regex.

(** The values that [primaryIntent] takes. *)
Inductive Intent : Type :=
| time | date | weather | currency_convert | currency | crypto | dictionary
| math | quote | joke | trivia | knowledge | web_search | question.

Record Analysis : Type := mkAnalysis {
  needsTime : bool;
  needsDate : bool;
  needsWeather : bool;
  needsNews : bool;
  needsCurrency : bool;
  needsCrypto : bool;
  needsCountry : bool;
  needsDictionary : bool;
  needsMath : bool;
  needsQuote : bool;
  needsJoke : bool;
  needsTrivia : bool;
  needsWikipedia : bool;
  needsWebSearch : bool;
  timeLocation : option string;
  weatherLocation : option string;
  currencyFrom : option string;
  currencyTo : option string;
  currencyAmount : option JsNumber;
  cryptoName : option string;
  searchTerms : list string;
  mathExpression : option string;
  confidence : JsNumber;
  primaryIntent : option Intent
}.

(** Assignment to one property of the analysis object. *)
Definition set_needsTime (v : bool) (a : Analysis) : Analysis :=
  {| needsTime := v; needsDate := needsDate a;
     needsWeather := needsWeather a; needsNews := needsNews a;
     needsCurrency := needsCurrency a; needsCrypto := needsCrypto a;
     needsCountry := needsCountry a; needsDictionary := needsDictionary a;
     needsMath := needsMath a; needsQuote := needsQuote a;
     needsJoke := needsJoke a; needsTrivia := needsTrivia a;
     needsWikipedia := needsWikipedia a; needsWebSearch := needsWebSearch a;
     timeLocation := timeLocation a; weatherLocation := weatherLocation a;
     currencyFrom := currencyFrom a; currencyTo := currencyTo a;
     currencyAmount := currencyAmount a; cryptoName := cryptoName a;
     searchTerms := searchTerms a; mathExpression := mathExpression a;
     confidence := confidence a; primaryIntent := primaryIntent a |}.

Definition set_needsDate (v : bool) (a : Analysis) : Analysis :=
  {| needsTime := needsTime a; needsDate := v;
     needsWeather := needsWeather a; needsNews := needsNews a;
     needsCurrency := needsCurrency a; needsCrypto := needsCrypto a;
     needsCountry := needsCountry a; needsDictionary := needsDictionary a;
     needsMath := needsMath a; needsQuote := needsQuote a;
     needsJoke := needsJoke a; needsTrivia := needsTrivia a;
     needsWikipedia := needsWikipedia a; needsWebSearch := needsWebSearch a;
     timeLocation := timeLocation a; weatherLocation := weatherLocation a;
     currencyFrom := currencyFrom a; currencyTo := currencyTo a;
     currencyAmount := currencyAmount a; cryptoName := cryptoName a;
     searchTerms := searchTerms a; mathExpression := mathExpression a;
     confidence := confidence a; primaryIntent := primaryIntent a |}.

Definition set_needsWeather (v : bool) (a : Analysis) : Analysis :=
  {| needsTime := needsTime a; needsDate := needsDate a; needsWeather := v;
     needsNews := needsNews a; needsCurrency := needsCurrency a;
     needsCrypto := needsCrypto a; needsCountry := needsCountry a;
     needsDictionary := needsDictionary a; needsMath := needsMath a;
     needsQuote := needsQuote a; needsJoke := needsJoke a;
     needsTrivia := needsTrivia a; needsWikipedia := needsWikipedia a;
     needsWebSearch := needsWebSearch a; timeLocation := timeLocation a;
     weatherLocation := weatherLocation a; currencyFrom := currencyFrom a;
     currencyTo := currencyTo a; currencyAmount := currencyAmount a;
     cryptoName := cryptoName a; searchTerms := searchTerms a;
     mathExpression := mathExpression a; confidence := confidence a;
     primaryIntent := primaryIntent a |}.

Definition set_needsCurrency (v : bool) (a : Analysis) : Analysis :=
  {| needsTime := needsTime a; needsDate := needsDate a;
     needsWeather := needsWeather a; needsNews := needsNews a;
     needsCurrency := v; needsCrypto := needsCrypto a;
     needsCountry := needsCountry a; needsDictionary := needsDictionary a;
     needsMath := needsMath a; needsQuote := needsQuote a;
     needsJoke := needsJoke a; needsTrivia := needsTrivia a;
     needsWikipedia := needsWikipedia a; needsWebSearch := needsWebSearch a;
     timeLocation := timeLocation a; weatherLocation := weatherLocation a;
     currencyFrom := currencyFrom a; currencyTo := currencyTo a;
     currencyAmount := currencyAmount a; cryptoName := cryptoName a;
     searchTerms := searchTerms a; mathExpression := mathExpression a;
     confidence := confidence a; primaryIntent := primaryIntent a |}.

Definition set_needsCrypto (v : bool) (a : Analysis) : Analysis :=
  {| needsTime := needsTime a; needsDate := needsDate a;
     needsWeather := needsWeather a; needsNews := needsNews a;
     needsCurrency := needsCurrency a; needsCrypto := v;
     needsCountry := needsCountry a; needsDictionary := needsDictionary a;
     needsMath := needsMath a; needsQuote := needsQuote a;
     needsJoke := needsJoke a; needsTrivia := needsTrivia a;
     needsWikipedia := needsWikipedia a; needsWebSearch := needsWebSearch a;
     timeLocation := timeLocation a; weatherLocation := weatherLocation a;
     currencyFrom := currencyFrom a; currencyTo := currencyTo a;
     currencyAmount := currencyAmount a; cryptoName := cryptoName a;
     searchTerms := searchTerms a; mathExpression := mathExpression a;
     confidence := confidence a; primaryIntent := primaryIntent a |}.

Definition set_needsDictionary (v : bool) (a : Analysis) : Analysis :=
  {| needsTime := needsTime a; needsDate := needsDate a;
     needsWeather := needsWeather a; needsNews := needsNews a;
     needsCurrency := needsCurrency a; needsCrypto := needsCrypto a;
     needsCountry := needsCountry a; needsDictionary := v;
     needsMath := needsMath a; needsQuote := needsQuote a;
     needsJoke := needsJoke a; needsTrivia := needsTrivia a;
     needsWikipedia := needsWikipedia a; needsWebSearch := needsWebSearch a;
     timeLocation := timeLocation a; weatherLocation := weatherLocation a;
     currencyFrom := currencyFrom a; currencyTo := currencyTo a;
     currencyAmount := currencyAmount a; cryptoName := cryptoName a;
     searchTerms := searchTerms a; mathExpression := mathExpression a;
     confidence := confidence a; primaryIntent := primaryIntent a |}.

Definition set_needsMath (v : bool) (a : Analysis) : Analysis :=
  {| needsTime := needsTime a; needsDate := needsDate a;
     needsWeather := needsWeather a; needsNews := needsNews a;
     needsCurrency := needsCurrency a; needsCrypto := needsCrypto a;
     needsCountry := needsCountry a; needsDictionary := needsDictionary a;
     needsMath := v; needsQuote := needsQuote a; needsJoke := needsJoke a;
     needsTrivia := needsTrivia a; needsWikipedia := needsWikipedia a;
     needsWebSearch := needsWebSearch a; timeLocation := timeLocation a;
     weatherLocation := weatherLocation a; currencyFrom := currencyFrom a;
     currencyTo := currencyTo a; currencyAmount := currencyAmount a;
     cryptoName := cryptoName a; searchTerms := searchTerms a;
     mathExpression := mathExpression a; confidence := confidence a;
     primaryIntent := primaryIntent a |}.

Definition set_needsQuote (v : bool) (a : Analysis) : Analysis :=
  {| needsTime := needsTime a; needsDate := needsDate a;
     needsWeather := needsWeather a; needsNews := needsNews a;
     needsCurrency := needsCurrency a; needsCrypto := needsCrypto a;
     needsCountry := needsCountry a; needsDictionary := needsDictionary a;
     needsMath := needsMath a; needsQuote := v; needsJoke := needsJoke a;
     needsTrivia := needsTrivia a; needsWikipedia := needsWikipedia a;
     needsWebSearch := needsWebSearch a; timeLocation := timeLocation a;
     weatherLocation := weatherLocation a; currencyFrom := currencyFrom a;
     currencyTo := currencyTo a; currencyAmount := currencyAmount a;
     cryptoName := cryptoName a; searchTerms := searchTerms a;
     mathExpression := mathExpression a; confidence := confidence a;
     primaryIntent := primaryIntent a |}.

Definition set_needsJoke (v : bool) (a : Analysis) : Analysis :=
  {| needsTime := needsTime a; needsDate := needsDate a;
     needsWeather := needsWeather a; needsNews := needsNews a;
     needsCurrency := needsCurrency a; needsCrypto := needsCrypto a;
     needsCountry := needsCountry a; needsDictionary := needsDictionary a;
     needsMath := needsMath a; needsQuote := needsQuote a; needsJoke := v;
     needsTrivia := needsTrivia a; needsWikipedia := needsWikipedia a;
     needsWebSearch := needsWebSearch a; timeLocation := timeLocation a;
     weatherLocation := weatherLocation a; currencyFrom := currencyFrom a;
     currencyTo := currencyTo a; currencyAmount := currencyAmount a;
     cryptoName := cryptoName a; searchTerms := searchTerms a;
     mathExpression := mathExpression a; confidence := confidence a;
     primaryIntent := primaryIntent a |}.

Definition set_needsTrivia (v : bool) (a : Analysis) : Analysis :=
  {| needsTime := needsTime a; needsDate := needsDate a;
     needsWeather := needsWeather a; needsNews := needsNews a;
     needsCurrency := needsCurrency a; needsCrypto := needsCrypto a;
     needsCountry := needsCountry a; needsDictionary := needsDictionary a;
     needsMath := needsMath a; needsQuote := needsQuote a;
     needsJoke := needsJoke a; needsTrivia := v;
     needsWikipedia := needsWikipedia a; needsWebSearch := needsWebSearch a;
     timeLocation := timeLocation a; weatherLocation := weatherLocation a;
     currencyFrom := currencyFrom a; currencyTo := currencyTo a;
     currencyAmount := currencyAmount a; cryptoName := cryptoName a;
     searchTerms := searchTerms a; mathExpression := mathExpression a;
     confidence := confidence a; primaryIntent := primaryIntent a |}.

Definition set_needsWikipedia (v : bool) (a : Analysis) : Analysis :=
  {| needsTime := needsTime a; needsDate := needsDate a;
     needsWeather := needsWeather a; needsNews := needsNews a;
     needsCurrency := needsCurrency a; needsCrypto := needsCrypto a;
     needsCountry := needsCountry a; needsDictionary := needsDictionary a;
     needsMath := needsMath a; needsQuote := needsQuote a;
     needsJoke := needsJoke a; needsTrivia := needsTrivia a;
     needsWikipedia := v; needsWebSearch := needsWebSearch a;
     timeLocation := timeLocation a; weatherLocation := weatherLocation a;
     currencyFrom := currencyFrom a; currencyTo := currencyTo a;
     currencyAmount := currencyAmount a; cryptoName := cryptoName a;
     searchTerms := searchTerms a; mathExpression := mathExpression a;
     confidence := confidence a; primaryIntent := primaryIntent a |}.

Definition set_needsWebSearch (v : bool) (a : Analysis) : Analysis :=
  {| needsTime := needsTime a; needsDate := needsDate a;
     needsWeather := needsWeather a; needsNews := needsNews a;
     needsCurrency := needsCurrency a; needsCrypto := needsCrypto a;
     needsCountry := needsCountry a; needsDictionary := needsDictionary a;
     needsMath := needsMath a; needsQuote := needsQuote a;
     needsJoke := needsJoke a; needsTrivia := needsTrivia a;
     needsWikipedia := needsWikipedia a; needsWebSearch := v;
     timeLocation := timeLocation a; weatherLocation := weatherLocation a;
     currencyFrom := currencyFrom a; currencyTo := currencyTo a;
     currencyAmount := currencyAmount a; cryptoName := cryptoName a;
     searchTerms := searchTerms a; mathExpression := mathExpression a;
     confidence := confidence a; primaryIntent := primaryIntent a |}.

Definition set_timeLocation (v : option string) (a : Analysis) : Analysis :=
  {| needsTime := needsTime a; needsDate := needsDate a;
     needsWeather := needsWeather a; needsNews := needsNews a;
     needsCurrency := needsCurrency a; needsCrypto := needsCrypto a;
     needsCountry := needsCountry a; needsDictionary := needsDictionary a;
     needsMath := needsMath a; needsQuote := needsQuote a;
     needsJoke := needsJoke a; needsTrivia := needsTrivia a;
     needsWikipedia := needsWikipedia a; needsWebSearch := needsWebSearch a;
     timeLocation := v; weatherLocation := weatherLocation a;
     currencyFrom := currencyFrom a; currencyTo := currencyTo a;
     currencyAmount := currencyAmount a; cryptoName := cryptoName a;
     searchTerms := searchTerms a; mathExpression := mathExpression a;
     confidence := confidence a; primaryIntent := primaryIntent a |}.

Definition set_weatherLocation (v : option string) (a : Analysis) : Analysis :=
  {| needsTime := needsTime a; needsDate := needsDate a;
     needsWeather := needsWeather a; needsNews := needsNews a;
     needsCurrency := needsCurrency a; needsCrypto := needsCrypto a;
     needsCountry := needsCountry a; needsDictionary := needsDictionary a;
     needsMath := needsMath a; needsQuote := needsQuote a;
     needsJoke := needsJoke a; needsTrivia := needsTrivia a;
     needsWikipedia := needsWikipedia a; needsWebSearch := needsWebSearch a;
     timeLocation := timeLocation a; weatherLocation := v;
     currencyFrom := currencyFrom a; currencyTo := currencyTo a;
     currencyAmount := currencyAmount a; cryptoName := cryptoName a;
     searchTerms := searchTerms a; mathExpression := mathExpression a;
     confidence := confidence a; primaryIntent := primaryIntent a |}.

Definition set_currencyFrom (v : option string) (a : Analysis) : Analysis :=
  {| needsTime := needsTime a; needsDate := needsDate a;
     needsWeather := needsWeather a; needsNews := needsNews a;
     needsCurrency := needsCurrency a; needsCrypto := needsCrypto a;
     needsCountry := needsCountry a; needsDictionary := needsDictionary a;
     needsMath := needsMath a; needsQuote := needsQuote a;
     needsJoke := needsJoke a; needsTrivia := needsTrivia a;
     needsWikipedia := needsWikipedia a; needsWebSearch := needsWebSearch a;
     timeLocation := timeLocation a; weatherLocation := weatherLocation a;
     currencyFrom := v; currencyTo := currencyTo a;
     currencyAmount := currencyAmount a; cryptoName := cryptoName a;
     searchTerms := searchTerms a; mathExpression := mathExpression a;
     confidence := confidence a; primaryIntent := primaryIntent a |}.

Definition set_currencyTo (v : option string) (a : Analysis) : Analysis :=
  {| needsTime := needsTime a; needsDate := needsDate a;
     needsWeather := needsWeather a; needsNews := needsNews a;
     needsCurrency := needsCurrency a; needsCrypto := needsCrypto a;
     needsCountry := needsCountry a; needsDictionary := needsDictionary a;
     needsMath := needsMath a; needsQuote := needsQuote a;
     needsJoke := needsJoke a; needsTrivia := needsTrivia a;
     needsWikipedia := needsWikipedia a; needsWebSearch := needsWebSearch a;
     timeLocation := timeLocation a; weatherLocation := weatherLocation a;
     currencyFrom := currencyFrom a; currencyTo := v;
     currencyAmount := currencyAmount a; cryptoName := cryptoName a;
     searchTerms := searchTerms a; mathExpression := mathExpression a;
     confidence := confidence a; primaryIntent := primaryIntent a |}.

Definition set_currencyAmount (v : option JsNumber) (a : Analysis) : Analysis :=
  {| needsTime := needsTime a; needsDate := needsDate a;
     needsWeather := needsWeather a; needsNews := needsNews a;
     needsCurrency := needsCurrency a; needsCrypto := needsCrypto a;
     needsCountry := needsCountry a; needsDictionary := needsDictionary a;
     needsMath := needsMath a; needsQuote := needsQuote a;
     needsJoke := needsJoke a; needsTrivia := needsTrivia a;
     needsWikipedia := needsWikipedia a; needsWebSearch := needsWebSearch a;
     timeLocation := timeLocation a; weatherLocation := weatherLocation a;
     currencyFrom := currencyFrom a; currencyTo := currencyTo a;
     currencyAmount := v; cryptoName := cryptoName a;
     searchTerms := searchTerms a; mathExpression := mathExpression a;
     confidence := confidence a; primaryIntent := primaryIntent a |}.

Definition set_cryptoName (v : option string) (a : Analysis) : Analysis :=
  {| needsTime := needsTime a; needsDate := needsDate a;
     needsWeather := needsWeather a; needsNews := needsNews a;
     needsCurrency := needsCurrency a; needsCrypto := needsCrypto a;
     needsCountry := needsCountry a; needsDictionary := needsDictionary a;
     needsMath := needsMath a; needsQuote := needsQuote a;
     needsJoke := needsJoke a; needsTrivia := needsTrivia a;
     needsWikipedia := needsWikipedia a; needsWebSearch := needsWebSearch a;
     timeLocation := timeLocation a; weatherLocation := weatherLocation a;
     currencyFrom := currencyFrom a; currencyTo := currencyTo a;
     currencyAmount := currencyAmount a; cryptoName := v;
     searchTerms := searchTerms a; mathExpression := mathExpression a;
     confidence := confidence a; primaryIntent := primaryIntent a |}.

Definition set_searchTerms (v : list string) (a : Analysis) : Analysis :=
  {| needsTime := needsTime a; needsDate := needsDate a;
     needsWeather := needsWeather a; needsNews := needsNews a;
     needsCurrency := needsCurrency a; needsCrypto := needsCrypto a;
     needsCountry := needsCountry a; needsDictionary := needsDictionary a;
     needsMath := needsMath a; needsQuote := needsQuote a;
     needsJoke := needsJoke a; needsTrivia := needsTrivia a;
     needsWikipedia := needsWikipedia a; needsWebSearch := needsWebSearch a;
     timeLocation := timeLocation a; weatherLocation := weatherLocation a;
     currencyFrom := currencyFrom a; currencyTo := currencyTo a;
     currencyAmount := currencyAmount a; cryptoName := cryptoName a;
     searchTerms := v; mathExpression := mathExpression a;
     confidence := confidence a; primaryIntent := primaryIntent a |}.

Definition set_mathExpression (v : option string) (a : Analysis) : Analysis :=
  {| needsTime := needsTime a; needsDate := needsDate a;
     needsWeather := needsWeather a; needsNews := needsNews a;
     needsCurrency := needsCurrency a; needsCrypto := needsCrypto a;
     needsCountry := needsCountry a; needsDictionary := needsDictionary a;
     needsMath := needsMath a; needsQuote := needsQuote a;
     needsJoke := needsJoke a; needsTrivia := needsTrivia a;
     needsWikipedia := needsWikipedia a; needsWebSearch := needsWebSearch a;
     timeLocation := timeLocation a; weatherLocation := weatherLocation a;
     currencyFrom := currencyFrom a; currencyTo := currencyTo a;
     currencyAmount := currencyAmount a; cryptoName := cryptoName a;
     searchTerms := searchTerms a; mathExpression := v;
     confidence := confidence a; primaryIntent := primaryIntent a |}.

Definition set_confidence (v : JsNumber) (a : Analysis) : Analysis :=
  {| needsTime := needsTime a; needsDate := needsDate a;
     needsWeather := needsWeather a; needsNews := needsNews a;
     needsCurrency := needsCurrency a; needsCrypto := needsCrypto a;
     needsCountry := needsCountry a; needsDictionary := needsDictionary a;
     needsMath := needsMath a; needsQuote := needsQuote a;
     needsJoke := needsJoke a; needsTrivia := needsTrivia a;
     needsWikipedia := needsWikipedia a; needsWebSearch := needsWebSearch a;
     timeLocation := timeLocation a; weatherLocation := weatherLocation a;
     currencyFrom := currencyFrom a; currencyTo := currencyTo a;
     currencyAmount := currencyAmount a; cryptoName := cryptoName a;
     searchTerms := searchTerms a; mathExpression := mathExpression a;
     confidence := v; primaryIntent := primaryIntent a |}.

Definition set_primaryIntent (v : option Intent) (a : Analysis) : Analysis :=
  {| needsTime := needsTime a; needsDate := needsDate a;
     needsWeather := needsWeather a; needsNews := needsNews a;
     needsCurrency := needsCurrency a; needsCrypto := needsCrypto a;
     needsCountry := needsCountry a; needsDictionary := needsDictionary a;
     needsMath := needsMath a; needsQuote := needsQuote a;
     needsJoke := needsJoke a; needsTrivia := needsTrivia a;
     needsWikipedia := needsWikipedia a; needsWebSearch := needsWebSearch a;
     timeLocation := timeLocation a; weatherLocation := weatherLocation a;
     currencyFrom := currencyFrom a; currencyTo := currencyTo a;
     currencyAmount := currencyAmount a; cryptoName := cryptoName a;
     searchTerms := searchTerms a; mathExpression := mathExpression a;
     confidence := confidence a; primaryIntent := v |}.

(** The number literals of the analyzer. *)
Definition c095 : JsNumber := Fin (95 # 100).
Definition c09 : JsNumber := Fin (9 # 10).
Definition c085 : JsNumber := Fin (85 # 100).
Definition c08 : JsNumber := Fin (8 # 10).
Definition c06 : JsNumber := Fin (6 # 10).
Definition c05 : JsNumber := Fin (5 # 10).

(** The object literal that [analyzeQuery] starts from. *)
Definition initial : Analysis :=
  {| needsTime := false; needsDate := false; needsWeather := false;
     needsNews := false; needsCurrency := false; needsCrypto := false;
     needsCountry := false; needsDictionary := false; needsMath := false;
     needsQuote := false; needsJoke := false; needsTrivia := false;
     needsWikipedia := false; needsWebSearch := false;
     timeLocation := None; weatherLocation := None; currencyFrom := None;
     currencyTo := None; currencyAmount := None; cryptoName := None;
     searchTerms := []; mathExpression := None;
     confidence := Fin 0; primaryIntent := None |}.

(** [if (!analysis.primaryIntent) { primaryIntent = i; confidence = c }] *)
Definition claim_intent (i : Intent) (c : JsNumber) (a : Analysis) : Analysis :=
  match primaryIntent a with
  | None => set_confidence c (set_primaryIntent (Some i) a)
  | Some _ => a
  end.

(** [primaryIntent = i; confidence = c], whatever was there. *)
Definition force_intent (i : Intent) (c : JsNumber) (a : Analysis) : Analysis :=
  set_confidence c (set_primaryIntent (Some i) a).

Definition nonempty (s : string) : bool :=
  match s with EmptyString => false | String _ _ => true end.

Definition dquote : ascii := ascii_of_nat 34.
Definition times_sign : ascii := ascii_of_nat 215.
Definition division_sign : ascii := ascii_of_nat 247.

(** *** Time *)

Definition in_at_for : regex := alts ["in"; "at"; "for"].
Definition in_at : regex := alts ["in"; "at"].
Definition to_question_or_end : regex := alt [lit "?"; Eol].   (* (?:\?|$) *)

Definition timePatterns : list RegExp :=
  [ (* /what(?:'s| is)(?: the)? (?:current )?time (?:in|at|for) (.+?)(?:\?|$|right now|now)/i *)
    re_i (seq [lit "what"; alts ["'s"; " is"]; opt (lit " the"); lit " ";
               opt (lit "current "); lit "time "; in_at_for; lit " ";
               Grp 1 (plus_lazy CAny);
               alt [lit "?"; Eol; lit "right now"; lit "now"]]);
    (* /(?:current )?time (?:in|at|for) (.+?)(?:\?|$)/i *)
    re_i (seq [opt (lit "current "); lit "time "; in_at_for; lit " ";
               Grp 1 (plus_lazy CAny); to_question_or_end]);
    (* /what time is it (?:in|at) (.+?)(?:\?|$)/i *)
    re_i (seq [lit "what time is it "; in_at; lit " ";
               Grp 1 (plus_lazy CAny); to_question_or_end]);
    (* /tell me (?:the )?time (?:in|at|for) (.+?)(?:\?|$)/i *)
    re_i (seq [lit "tell me "; opt (lit "the "); lit "time "; in_at_for; lit " ";
               Grp 1 (plus_lazy CAny); to_question_or_end]);
    (* /(.+?) time(?:\?|$| right now| now| please)/i *)
    re_i (seq [Grp 1 (plus_lazy CAny); lit " time";
               alt [lit "?"; Eol; lit " right now"; lit " now"; lit " please"]]);
    (* /time (?:in|at) (.+)/i *)
    re_i (seq [lit "time "; in_at; lit " "; Grp 1 (plus CAny)]);
    (* /what(?:'s| is) the time (?:in|at) (.+)/i *)
    re_i (seq [lit "what"; alts ["'s"; " is"]; lit " the time "; in_at; lit " ";
               Grp 1 (plus CAny)]);
    (* /do you know (?:the )?time (?:in|at|for) (.+)/i *)
    re_i (seq [lit "do you know "; opt (lit "the "); lit "time "; in_at_for;
               lit " "; Grp 1 (plus CAny)]) ].

(** /\?/g *)
Definition question_marks : RegExp := re_g (lit "?").

(** /right now|now|please|currently|at the moment/gi *)
Definition filler_words : RegExp :=
  re_gi (alts ["right now"; "now"; "please"; "currently"; "at the moment"]).

(** /^(what|the|is|it|me|you|a|an)$/i *)
Definition stoplist : RegExp :=
  re_i (seq [Bol; Grp 1 (alts ["what"; "the"; "is"; "it"; "me"; "you"; "a"; "an"]); Eol]).

(** [match[1].replace(/\?/g, '').replace(/right now|.../gi, '').trim()] *)
Definition clean_location (captured : string) : string :=
  trim (replace filler_words EmptyString (replace question_marks EmptyString captured)).

(** [location && location.length > 1 && !location.match(stoplist)] *)
Definition acceptable_location (location : string) : bool :=
  nonempty location && (1 <? length location)%nat && negb (test stoplist location).

(** The [for] loop over [timePatterns], with its [break]. *)
Fixpoint time_loop (patterns : list RegExp) (lower : string) (a : Analysis) : Analysis :=
  match patterns with
  | [] => a
  | pattern :: rest =>
      match exec pattern lower with
      | Some mt =>
          match group 1 mt with
          | Some g1 =>
              if nonempty g1 then
                let location := clean_location g1 in
                if acceptable_location location then
                  set_confidence c095
                    (set_primaryIntent (Some time)
                      (set_timeLocation (Some location) (set_needsTime true a)))
                else time_loop rest lower a
              else time_loop rest lower a
          | None => time_loop rest lower a
          end
      | None => time_loop rest lower a
      end
  end.

Definition step_time (lower : string) (a : Analysis) : Analysis :=
  time_loop timePatterns lower a.

(** /\b(what time|current time|time now|what's the time)\b/i *)
Definition general_time : RegExp :=
  re_i (seq [Wordb; Grp 1 (alts ["what time"; "current time"; "time now"; "what's the time"]); Wordb]).

Definition step_general_time (lower : string) (a : Analysis) : Analysis :=
  if negb (needsTime a) && test general_time lower then
    set_confidence c08
      (set_primaryIntent (Some time)
        (set_timeLocation (Some "UTC") (set_needsTime true a)))
  else a.

(** *** Date *)

(** /\b(what(?:'s| is) (?:the )?date|today(?:'s)? date|current date|what day|day of (?:the )?week|what is today)\b/i *)
Definition date_pattern : RegExp :=
  re_i (seq [Wordb;
             Grp 1 (alt [seq [lit "what"; alts ["'s"; " is"]; lit " "; opt (lit "the "); lit "date"];
                         seq [lit "today"; opt (lit "'s"); lit " date"];
                         lit "current date";
                         lit "what day";
                         seq [lit "day of "; opt (lit "the "); lit "week"];
                         lit "what is today"]);
             Wordb]).

Definition step_date (lower : string) (a : Analysis) : Analysis :=
  if test date_pattern lower then claim_intent date c09 (set_needsDate true a) else a.

(** *** Weather *)

Definition weatherPatterns : list RegExp :=
  [ (* /weather\s+(?:in\s+)?(.+?)(?:\?|$)/i *)
    re_i (seq [lit "weather"; plus space; opt (seq [lit "in"; plus space]);
               Grp 1 (plus_lazy CAny); to_question_or_end]);
    (* /(?:what(?:'s| is)(?: the)? weather|how(?:'s| is)(?: the)? weather)\s+(?:in|at|for)\s+(.+?)(?:\?|$)/i *)
    re_i (seq [alt [seq [lit "what"; alts ["'s"; " is"]; opt (lit " the"); lit " weather"];
                    seq [lit "how"; alts ["'s"; " is"]; opt (lit " the"); lit " weather"]];
               plus space; in_at_for; plus space;
               Grp 1 (plus_lazy CAny); to_question_or_end]);
    (* /temperature\s+(?:in\s+)?(.+?)(?:\?|$)/i *)
    re_i (seq [lit "temperature"; plus space; opt (seq [lit "in"; plus space]);
               Grp 1 (plus_lazy CAny); to_question_or_end]);
    (* /(?:is it|will it)\s+(?:rain|snow|sunny|cloudy|hot|cold)\s+(?:in\s+)?(.+?)(?:\?|$)/i *)
    re_i (seq [alts ["is it"; "will it"]; plus space;
               alts ["rain"; "snow"; "sunny"; "cloudy"; "hot"; "cold"]; plus space;
               opt (seq [lit "in"; plus space]);
               Grp 1 (plus_lazy CAny); to_question_or_end]);
    (* /forecast\s+(?:for\s+)?(.+?)(?:\?|$)/i *)
    re_i (seq [lit "forecast"; plus space; opt (seq [lit "for"; plus space]);
               Grp 1 (plus_lazy CAny); to_question_or_end]);
    (* /(?:how hot|how cold)\s+(?:is it\s+)?(?:in\s+)?(.+?)(?:\?|$)/i *)
    re_i (seq [alts ["how hot"; "how cold"]; plus space;
               opt (seq [lit "is it"; plus space]); opt (seq [lit "in"; plus space]);
               Grp 1 (plus_lazy CAny); to_question_or_end]) ].

(** [match[1]?.trim() || "New York"] *)
Definition weather_location (mt : MatchResult) : string :=
  match group 1 mt with
  | Some g1 => if nonempty (trim g1) then trim g1 else "New York"
  | None => "New York"
  end.

Fixpoint weather_loop (patterns : list RegExp) (lower : string) (a : Analysis) : Analysis :=
  match patterns with
  | [] => a
  | pattern :: rest =>
      match exec pattern lower with
      | Some mt =>
          claim_intent weather c095
            (set_weatherLocation (Some (weather_location mt)) (set_needsWeather true a))
      | None => weather_loop rest lower a
      end
  end.

Definition step_weather (lower : string) (a : Analysis) : Analysis :=
  weather_loop weatherPatterns lower a.

(** *** Currency *)

(** /convert\s+(\d+(?:\.\d+)?)\s*(\w+)\s+to\s+(\w+)/i *)
Definition convert_pattern : RegExp :=
  re_i (seq [lit "convert"; plus space;
             Grp 1 (seq [plus digit; opt (seq [lit "."; plus digit])]);
             star space; Grp 2 (plus word); plus space; lit "to"; plus space;
             Grp 3 (plus word)]).

Definition group_or_empty (n : nat) (mt : MatchResult) : string :=
  match group n mt with Some g => g | None => EmptyString end.

Definition step_currency_convert (lower : string) (a : Analysis) : Analysis :=
  match exec convert_pattern lower with
  | Some currencyConvertMatch =>
      set_confidence c095
        (set_primaryIntent (Some currency_convert)
          (set_currencyTo (Some (toUpperCase (group_or_empty 3 currencyConvertMatch)))
            (set_currencyFrom (Some (toUpperCase (group_or_empty 2 currencyConvertMatch)))
              (set_currencyAmount (Some (parseFloat (group_or_empty 1 currencyConvertMatch)))
                (set_needsCurrency true a)))))
  | None => a
  end.

(** /\b(exchange rate|currency rate|forex|usd to|eur to|gbp to)\b/i *)
Definition rate_pattern : RegExp :=
  re_i (seq [Wordb; Grp 1 (alts ["exchange rate"; "currency rate"; "forex"; "usd to"; "eur to"; "gbp to"]); Wordb]).

Definition step_currency_rate (lower : string) (a : Analysis) : Analysis :=
  if test rate_pattern lower then claim_intent currency c085 (set_needsCurrency true a) else a.

(** *** Crypto *)

Definition cryptoNames : list string :=
  ["bitcoin"; "btc"; "ethereum"; "eth"; "dogecoin"; "doge"; "litecoin";
   "ripple"; "xrp"; "cardano"; "ada"; "solana"; "sol"; "polkadot"].

(** [crypto.replace('btc', 'bitcoin').replace('eth', 'ethereum').replace('doge', 'dogecoin')] *)
Definition canonical_crypto (crypto_ : string) : string :=
  replace_str "doge" "dogecoin"
    (replace_str "eth" "ethereum" (replace_str "btc" "bitcoin" crypto_)).

Fixpoint crypto_loop (names : list string) (lower : string) (a : Analysis) : Analysis :=
  match names with
  | [] => a
  | crypto_ :: rest =>
      if includes crypto_ lower then
        claim_intent crypto c09
          (set_cryptoName (Some (canonical_crypto crypto_)) (set_needsCrypto true a))
      else crypto_loop rest lower a
  end.

Definition step_crypto_name (lower : string) (a : Analysis) : Analysis :=
  crypto_loop cryptoNames lower a.

(** /\b(crypto price|cryptocurrency|top crypto|crypto market)\b/i *)
Definition crypto_market_pattern : RegExp :=
  re_i (seq [Wordb; Grp 1 (alts ["crypto price"; "cryptocurrency"; "top crypto"; "crypto market"]); Wordb]).

Definition step_crypto_market (lower : string) (a : Analysis) : Analysis :=
  if test crypto_market_pattern lower then
    claim_intent crypto c085 (set_cryptoName (Some "top") (set_needsCrypto true a))
  else a.

(** *** Dictionary *)

Definition quote_mark : cset := CSet false [IChar "'"; IChar dquote; IChar dquote].

(** /(?:define|definition of|meaning of|what does|what is a|what's a)\s+[q]?(\w+)[q]?/i
    where [q] stands for the class of the single and the double quote. *)
Definition dict_pattern : RegExp :=
  re_i (seq [alts ["define"; "definition of"; "meaning of"; "what does"; "what is a"; "what's a"];
             plus space; opt (Chr quote_mark); Grp 1 (plus word); opt (Chr quote_mark)]).

Definition step_dictionary (lower : string) (a : Analysis) : Analysis :=
  match exec dict_pattern lower with
  | Some dictMatch =>
      claim_intent dictionary c095
        (set_searchTerms (searchTerms a ++ [group_or_empty 1 dictMatch])
          (set_needsDictionary true a))
  | None => a
  end.

(** *** Math *)

(** /(?:calculate|compute|what is|what's)\s+(.+?)(?:\?|$)/i *)
Definition math_pattern : RegExp :=
  re_i (seq [alts ["calculate"; "compute"; "what is"; "what's"]; plus space;
             Grp 1 (plus_lazy CAny); to_question_or_end]).

(** /[\d\+\-\*\/\^x×÷=\(\)]/ *)
Definition math_symbol : RegExp :=
  re (Chr (CSet false [IDigit; IChar "+"; IChar "-"; IChar "*"; IChar "/"; IChar "^";
                       IChar "x"; IChar times_sign; IChar division_sign; IChar "=";
                       IChar "("; IChar ")"])).

(** /x|×/g and /÷/g *)
Definition times_pattern : RegExp :=
  re_g (Alt (lit "x") (Chr (COne (IChar times_sign)))).
Definition division_pattern : RegExp := re_g (Chr (COne (IChar division_sign))).

(** [.replace(/x|×/g, '*').replace(/÷/g, '/')] *)
Definition to_operators (s : string) : string :=
  replace division_pattern "/" (replace times_pattern "*" s).

Definition step_math (lower : string) (a : Analysis) : Analysis :=
  match exec math_pattern lower with
  | Some mathMatch =>
      if test math_symbol (group_or_empty 1 mathMatch) then
        claim_intent math c09
          (set_mathExpression (Some (to_operators (group_or_empty 1 mathMatch)))
            (set_needsMath true a))
      else a
  | None => a
  end.

(** /^[\d\s\+\-\*\/\^x×÷\(\)\.]+$/ *)
Definition direct_math_class : cset :=
  CSet false [IDigit; ISpace; IChar "+"; IChar "-"; IChar "*"; IChar "/"; IChar "^";
              IChar "x"; IChar times_sign; IChar division_sign;
              IChar "("; IChar ")"; IChar "."].

Definition direct_math_pattern : RegExp :=
  re (seq [Bol; plus direct_math_class; Eol]).

Definition step_direct_math (lower : string) (a : Analysis) : Analysis :=
  match exec direct_math_pattern lower with
  | Some directMath =>
      set_confidence c095
        (set_primaryIntent (Some math)
          (set_mathExpression (Some (to_operators lower)) (set_needsMath true a)))
  | None => a
  end.

(** *** Entertainment *)

(** /\b(quote|inspiration|motivat|wisdom)\b/i *)
Definition quote_pattern : RegExp :=
  re_i (seq [Wordb; Grp 1 (alts ["quote"; "inspiration"; "motivat"; "wisdom"]); Wordb]).

(** /\b(joke|funny|make me laugh|humor)\b/i *)
Definition joke_pattern : RegExp :=
  re_i (seq [Wordb; Grp 1 (alts ["joke"; "funny"; "make me laugh"; "humor"]); Wordb]).

(** /\b(trivia|quiz|fun fact|did you know|random fact)\b/i *)
Definition trivia_pattern : RegExp :=
  re_i (seq [Wordb; Grp 1 (alts ["trivia"; "quiz"; "fun fact"; "did you know"; "random fact"]); Wordb]).

Definition step_quote (lower : string) (a : Analysis) : Analysis :=
  if test quote_pattern lower then claim_intent quote c085 (set_needsQuote true a) else a.

Definition step_joke (lower : string) (a : Analysis) : Analysis :=
  if test joke_pattern lower then claim_intent joke c09 (set_needsJoke true a) else a.

Definition step_trivia (lower : string) (a : Analysis) : Analysis :=
  if test trivia_pattern lower then claim_intent trivia c085 (set_needsTrivia true a) else a.

(** *** General knowledge *)

Definition knowledgePatterns : list RegExp :=
  [ (* /\b(what is|who is|what are|who are|explain|tell me about|describe)\b/i *)
    re_i (seq [Wordb; Grp 1 (alts ["what is"; "who is"; "what are"; "who are"; "explain";
                                   "tell me about"; "describe"]); Wordb]);
    (* /\b(history of|biography of|how does|how do|why is|why are)\b/i *)
    re_i (seq [Wordb; Grp 1 (alts ["history of"; "biography of"; "how does"; "how do";
                                   "why is"; "why are"]); Wordb]) ].

(** /(?:what is|who is|explain|tell me about|describe|history of|how does)\s+(?:the\s+)?(.+?)(?:\?|$)/i *)
Definition search_pattern : RegExp :=
  re_i (seq [alts ["what is"; "who is"; "explain"; "tell me about"; "describe";
                   "history of"; "how does"];
             plus space; opt (seq [lit "the"; plus space]);
             Grp 1 (plus_lazy CAny); to_question_or_end]).

Definition step_knowledge (lower : string) (a : Analysis) : Analysis :=
  if existsb (fun p => test p lower) knowledgePatterns
     && negb (needsTime a) && negb (needsWeather a) && negb (needsMath a)
  then
    let a1 := set_needsWikipedia true a in
    let a2 := match exec search_pattern lower with
              | Some searchMatch =>
                  set_searchTerms (searchTerms a1 ++ [trim (group_or_empty 1 searchMatch)]) a1
              | None => a1
              end in
    claim_intent knowledge c08 a2
  else a.

(** *** Web search fallback *)

Definition is_none {A} (o : option A) : bool :=
  match o with None => true | Some _ => false end.

Definition step_web_search (message : string) (a : Analysis) : Analysis :=
  if is_none (primaryIntent a) && (3 <? length (trim message))%nat then
    set_confidence c05
      (set_primaryIntent (Some web_search)
        (set_searchTerms (searchTerms a ++ [trim (replace question_marks EmptyString message)])
          (set_needsWebSearch true a)))
  else a.

(** /\?$/ *)
Definition ends_with_question : RegExp := re (seq [lit "?"; Eol]).

(** /^(what|who|when|where|why|how|is|are|was|were|can|could|do|does|did)\s+/i *)
Definition question_word : RegExp :=
  re_i (seq [Bol; Grp 1 (alts ["what"; "who"; "when"; "where"; "why"; "how"; "is"; "are";
                               "was"; "were"; "can"; "could"; "do"; "does"; "did"]);
             plus space]).

Definition step_question (message : string) (a : Analysis) : Analysis :=
  if test ends_with_question (trim message) && is_none (primaryIntent a) then
    let cleanQuery := trim (replace question_word EmptyString (replace question_marks EmptyString message)) in
    let a1 := set_needsWikipedia true (set_needsWebSearch true a) in
    let a2 := if nonempty cleanQuery
              then set_searchTerms (searchTerms a1 ++ [cleanQuery]) a1 else a1 in
    set_confidence c06 (set_primaryIntent (Some question) a2)
  else a.

(** *** [analyzeQuery(message)] *)

Definition analyzeQuery (message : string) : Analysis :=
  let lower := toLowerCase message in
  let a := initial in
  let a := step_time lower a in
  let a := step_general_time lower a in
  let a := step_date lower a in
  let a := step_weather lower a in
  let a := step_currency_convert lower a in
  let a := step_currency_rate lower a in
  let a := step_crypto_name lower a in
  let a := step_crypto_market lower a in
  let a := step_dictionary lower a in
  let a := step_math lower a in
  let a := step_direct_math lower a in
  let a := step_quote lower a in
  let a := step_joke lower a in
  let a := step_trivia lower a in
  let a := step_knowledge lower a in
  let a := step_web_search message a in
  step_question message a.

(** *** Notions used in the statements about the analyzer *)

(** What decides the fallback path: [primaryIntent] and [confidence]. *)
Definition verdict (a : Analysis) : option Intent * JsNumber :=
  (primaryIntent a, confidence a).

(** The effect on the verdict of a group with the [!primaryIntent] guard ... *)
Definition claims (fires : bool) (i : Intent) (c : JsNumber)
    (v : option Intent * JsNumber) : option Intent * JsNumber :=
  if fires then match fst v with None => (Some i, c) | Some _ => v end else v.

(** ... and of a group without it. *)
Definition forces (fires : bool) (i : Intent) (c : JsNumber)
    (v : option Intent * JsNumber) : option Intent * JsNumber :=
  if fires then (Some i, c) else v.

(** The time pattern matches and its capture passes the checks. *)
Definition captured_location (pattern : RegExp) (lower : string) : bool :=
  match exec pattern lower with
  | Some mt =>
      match group 1 mt with
      | Some g1 => nonempty g1 && acceptable_location (clean_location g1)
      | None => false
      end
  | None => false
  end.

(** When the groups that are loops, or that test what they captured, match. *)
Definition time_fires (lower : string) : bool :=
  existsb (fun p => captured_location p lower) timePatterns.

Definition weather_fires (lower : string) : bool :=
  existsb (fun p => test p lower) weatherPatterns.

Definition crypto_fires (lower : string) : bool :=
  existsb (fun c => includes c lower) cryptoNames.

Definition math_fires (lower : string) : bool :=
  match exec math_pattern lower with
  | Some mt => test math_symbol (group_or_empty 1 mt)
  | None => false
  end.

Definition knowledge_fires (lower : string) : bool :=
  existsb (fun p => test p lower) knowledgePatterns.

(** The four assignments of the time loop. *)
Definition accept_time (location : string) (a : Analysis) : Analysis :=
  set_confidence c095
    (set_primaryIntent (Some time)
      (set_timeLocation (Some location) (set_needsTime true a))).

(** While no intent is set, none of the flags that the knowledge group
    reads is set. *)
Definition settled_flags (a : Analysis) : Prop :=
  primaryIntent a = None ->
  needsTime a = false /\ needsWeather a = false /\ needsMath a = false.

Definition keeps_time (a a' : Analysis) : Prop :=
  needsTime a' = needsTime a /\ timeLocation a' = timeLocation a.

Definition keeps_currency (a a' : Analysis) : Prop :=
  currencyAmount a' = currencyAmount a /\ currencyFrom a' = currencyFrom a
  /\ currencyTo a' = currencyTo a
  /\ (needsCurrency a = true -> needsCurrency a' = true).

(** A rule group that has the [!primaryIntent] guard. *)
Definition guarded (S : Analysis -> Analysis) (fires : bool) (i : Intent) (c : JsNumber) : Prop :=
  forall a, settled_flags a ->
    settled_flags (S a)
    /\ verdict (S a) = claims fires i c (verdict a)
    /\ keeps_time a (S a) /\ keeps_currency a (S a).

(** A rule group without the guard. *)
Definition forcing (S : Analysis -> Analysis) (fires : bool) (i : Intent) (c : JsNumber) : Prop :=
  forall a, settled_flags a ->
    settled_flags (S a)
    /\ verdict (S a) = forces fires i c (verdict a)
    /\ keeps_time a (S a).

(** The guarded groups in evaluation order: when each one matches, and the
    intent and confidence it stands for. *)
Definition claim_rules (message : string) : list (bool * Intent * JsNumber) :=
  let lower := toLowerCase message in
  [ (time_fires lower, time, c095);
    (test general_time lower, time, c08);
    (test date_pattern lower, date, c09);
    (weather_fires lower, weather, c095);
    (test rate_pattern lower, currency, c085);
    (crypto_fires lower, crypto, c09);
    (test crypto_market_pattern lower, crypto, c085);
    (test dict_pattern lower, dictionary, c095);
    (math_fires lower, math, c09);
    (test quote_pattern lower, quote, c085);
    (test joke_pattern lower, joke, c09);
    (test trivia_pattern lower, trivia, c085);
    (knowledge_fires lower, knowledge, c08);
    ((3 <? length (trim message))%nat, web_search, c05);
    (test ends_with_question (trim message), question, c06) ].

(** The verdict of the first rule that matches. *)
Definition first_match (rules : list (bool * Intent * JsNumber)) : option Intent * JsNumber :=
  match List.find (fun r => fst (fst r)) rules with
  | Some (_, i, c) => (Some i, c)
  | None => (None, Fin 0)
  end.

(** The rule as the spec words it: first match wins over all the groups,
    the conversion group and the bare arithmetic group standing at their
    place in the evaluation order like the others. *)
Definition spec_rules (message : string) : list (bool * Intent * JsNumber) :=
  let lower := toLowerCase message in
  firstn 4 (claim_rules message)
  ++ [(test convert_pattern lower, currency_convert, c095)]
  ++ firstn 5 (skipn 4 (claim_rules message))
  ++ [(test direct_math_pattern lower, math, c095)]
  ++ skipn 9 (claim_rules message).

(** The words of the stoplist. *)
Definition stop_words : list string :=
  ["what"; "the"; "is"; "it"; "me"; "you"; "a"; "an"].

End QueryAnalyzer.

(* ================================================================= *)
(** ** services/mathService.js *)

Module MathService.

Import Js JsString Regex.

(** A JavaScript value, of which only the numbers are told apart
    ([typeof v !== 'number'] for the rest). *)
Inductive JsValue : Type :=
| VNumber (n : JsNumber)
| VOther (typeof_ : string).

(** How a piece of code ends: with a value or with an exception. *)
Inductive Completion (A : Type) : Type :=
| Normal (v : A)
| Abrupt (message : string).

Arguments Normal {A} v.
Arguments Abrupt {A} message.

Record MathResult : Type := mkMathResult {
  expression : string;
  result : JsNumber;
  formatted : string;
  source : string
}.

(** /[^0-9+\-*/().%\s^]/g *)
Definition not_arithmetic : RegExp :=
  re_g (Chr (CSet true [IRange "0" "9"; IChar "+"; IChar "-"; IChar "*"; IChar "/";
                        IChar "("; IChar ")"; IChar "."; IChar "%"; ISpace; IChar "^"])).

(** /\^/g *)
Definition caret : RegExp := re_g (lit "^").

(** /\.?0+$/ *)
Definition trailing_zeros : RegExp :=
  re (seq [opt (lit "."); plus (COne (IChar "0")); Eol]).

Definition sanitize (expression : string) : string :=
  replace caret "**" (replace not_arithmetic EmptyString expression).

Definition dquote : ascii := ascii_of_nat 34.

(** The text handed to the [Function] constructor. *)
Definition function_body (sanitized : string) : string :=
  String dquote ("use strict" ++ String dquote ("; return (" ++ sanitized ++ ")")).

(** [Number.isInteger] *)
Definition isInteger (x : JsNumber) : bool :=
  match x with
  | Fin q => (Zpos (Qden (Qred q)) =? 1)
  | _ => false
  end.

Section Evaluate.

(** The engine: [Function(body)()] parsed and run, and the two number
    formatters. *)
Variable call_function : string -> Completion JsValue.
Variable number_toString : JsNumber -> string.
Variable number_toFixed : JsNumber -> nat -> string.

(** The [try] block of [evaluateMathExpression]: an exception of the engine
    leaves it. *)
Definition try_block (expression : string) : Completion (option MathResult) :=
  let sanitized := sanitize expression in
  match call_function (function_body sanitized) with
  | Abrupt e => Abrupt e
  | Normal (VOther _) => Normal None
  | Normal (VNumber x) =>
      if negb (isFinite x) then Normal None
      else Normal (Some {| expression := expression;
                           result := x;
                           formatted :=
                             if isInteger x then number_toString x
                             else replace trailing_zeros EmptyString (number_toFixed x 6);
                           source := "Calculator" |})
  end.

(** [evaluateMathExpression(expression)]: [try { ... } catch (error) { return null; }] *)
Definition evaluateMathExpression (expression : string) : Completion (option MathResult) :=
  match try_block expression with
  | Abrupt _ => Normal None
  | Normal r => Normal r
  end.

End Evaluate.

End MathService.

(* ================================================================= *)
(** ** Promises *)

Module Promise.

(** A rejection reason, which can be any value. The code looks at it only
    through [e.message]: that read throws a [TypeError] when the reason is
    [null] or [undefined], and gives a value (the message of an [Error]
    object) for every other reason. *)
Inductive JsError : Type :=
| mkError (text : string)     (* a reason with properties, such as an [Error] *)
| Nullish.                    (* [null] or [undefined] *)

(** [e.message]; [None] when the read throws. *)
Definition message (e : JsError) : option string :=
  match e with
  | mkError text => Some text
  | Nullish => None
  end.

(** The [TypeError] of a property read on [null] or [undefined]. *)
Definition type_error : JsError := mkError "Cannot read properties of undefined".

(** How a promise settles. *)
Inductive Settled (A : Type) : Type :=
| Fulfilled (v : A)
| Rejected (e : JsError).

Arguments Fulfilled {A} v.
Arguments Rejected {A} e.

End Promise.

(* ================================================================= *)
(** ** services/webSearchService.js *)

Module WebSearch.

Import Js JsString Regex Promise.

(** A property value of a result object, as far as the selector looks at
    it: a string or an array. *)
Inductive Value : Type :=
| VString (s : string)
| VArray (items : list string).

(** Truthiness of a property that may be missing: [undefined], [null] and
    the empty string are falsy, an array is truthy. *)
Definition truthy_value (v : option Value) : bool :=
  match v with
  | None => false
  | Some (VString EmptyString) => false
  | Some _ => true
  end.

(** [a || b] on property values. *)
Definition or_else (a b : option Value) : option Value :=
  if truthy_value a then a else b.

(** The objects built by the search functions and by [determineBestAnswer];
    a property that an object does not have is [None]. *)
Record SourceResult : Type := mkResult {
  type : string;
  source : string;
  confidence : JsNumber;
  content : option Value;
  answer : option Value;
  title : option Value;
  url : option Value;
  image : option Value;
  meanings : option Value;
  word : option Value;
  phonetic : option Value;
  topics : option Value;
  results : option Value
}.

(** [Array.prototype.sort(cmp)]: the sort is stable, so an element moves in
    front of an earlier one only when the comparator puts it first. *)
Section Sort.
Context {A : Type} (cmp : A -> A -> JsNumber).

Fixpoint insert_sorted (x : A) (l : list A) : list A :=
  match l with
  | [] => [x]
  | y :: l' => if positive (cmp x y) then y :: insert_sorted x l' else x :: l
  end.

Fixpoint sort (l : list A) : list A :=
  match l with
  | [] => []
  | x :: l' => insert_sorted x (sort l')
  end.

End Sort.

(** [r => r && r.confidence] *)
Definition usable (r : option SourceResult) : option SourceResult :=
  match r with
  | Some r' => if truthy (confidence r') then Some r' else None
  | None => None
  end.

(** [(a, b) => b.confidence - a.confidence] *)
Definition by_confidence (a b : SourceResult) : JsNumber :=
  sub (confidence b) (confidence a).

(** [{ type, source, confidence, content: null }] *)
Definition formatted (best : SourceResult) : SourceResult :=
  {| type := type best; source := source best; confidence := confidence best;
     content := None; answer := None; title := None; url := None; image := None;
     meanings := None; word := None; phonetic := None; topics := None;
     results := None |}.

Definition with_content (c : option Value) (f : SourceResult) : SourceResult :=
  {| type := type f; source := source f; confidence := confidence f;
     content := c; answer := answer f; title := title f; url := url f;
     image := image f; meanings := meanings f; word := word f;
     phonetic := phonetic f; topics := topics f; results := results f |}.

Definition with_page (t u i : option Value) (f : SourceResult) : SourceResult :=
  {| type := type f; source := source f; confidence := confidence f;
     content := content f; answer := answer f; title := t; url := u;
     image := i; meanings := meanings f; word := word f;
     phonetic := phonetic f; topics := topics f; results := results f |}.

Definition with_entry (w ph : option Value) (f : SourceResult) : SourceResult :=
  {| type := type f; source := source f; confidence := confidence f;
     content := content f; answer := answer f; title := title f; url := url f;
     image := image f; meanings := meanings f; word := w;
     phonetic := ph; topics := topics f; results := results f |}.

(** The [switch (best.type)]. *)
Definition format_answer (best : SourceResult) : SourceResult :=
  let f := formatted best in
  if String.eqb (type best) "instant_answer" then with_content (answer best) f
  else if String.eqb (type best) "abstract" || String.eqb (type best) "encyclopedia" then
    with_page (title best) (url best) (image best) (with_content (answer best) f)
  else if String.eqb (type best) "definition" then with_content (answer best) f
  else if String.eqb (type best) "dictionary" then
    with_entry (word best) (phonetic best) (with_content (meanings best) f)
  else if String.eqb (type best) "stackoverflow_answer" then
    with_page (title best) (url best) (image f) (with_content (answer best) f)
  else if String.eqb (type best) "related" then with_content (topics best) f
  else with_content (or_else (or_else (answer best) (results best)) (topics best)) f.

(** [determineBestAnswer(results, query)]; [query] is not used. *)
Definition determineBestAnswer (results_ : list (option SourceResult)) : option SourceResult :=
  match results_ with
  | [] => None
  | _ =>
      let sorted := sort by_confidence (omap usable results_) in
      match sorted with
      | [] => None
      | best :: _ => Some (format_answer best)
      end
  end.

(** *** The search functions and the effects of the chain *)

(** A request to one of the providers. *)
Inductive Call : Type :=
| searchDuckDuckGo (query : string)
| searchWikipedia (query : string)
| searchWikipediaExtracts (query : string)
| searchStackExchange (query : string)
| searchWolframAlpha (query : string)
| searchDictionary (word_ : string).

(** The object returned by [performWebSearch]. *)
Record WebSearchResults : Type := mkWebSearch {
  ws_query : string;
  sources : list string;
  bestAnswer : option SourceResult;
  allResults : list SourceResult;
  searchedAt : Z
}.

(** The object returned by [smartSearch]. *)
Record SearchOutcome : Type := mkOutcome {
  found : bool;
  result : option SourceResult;
  so_allResults : option (list SourceResult);
  partialResults : option (list SourceResult);
  fallbackUsed : option bool;
  so_message : option string
}.

(** The providers are outside the program: the answer to a call, and the
    time it takes, may depend on everything asked before. *)
Record World : Type := mkWorld {
  respond : list Call -> Call -> Settled (option SourceResult);
  latency : list Call -> Call -> Z
}.

(** What the chain changes: the calls made so far, the clock and the
    module's cache. *)
Record State : Type := mkState {
  calls : list Call;
  clock : Z;
  store : SmartCache.Heap WebSearchResults
}.

(** Computations that may throw, over that state. *)
Definition M (A : Type) : Type := World -> State -> Settled A * State.

Definition ret {A} (a : A) : M A := fun _ st => (Fulfilled a, st).

Definition bind {A B} (c : M A) (f : A -> M B) : M B :=
  fun w st =>
    match c w st with
    | (Fulfilled a, st') => f a w st'
    | (Rejected e, st') => (Rejected e, st')
    end.

Notation "'let*' x ':=' c 'in' k" := (bind c (fun x => k))
  (at level 10, x name, c at level 100, k at level 200).

(** Start a call: it is recorded and its promise is returned. *)
Definition start (c : Call) : M (Settled (option SourceResult) * Z) :=
  fun w st =>
    (Fulfilled (respond w (calls st) c, latency w (calls st) c),
     {| calls := calls st ++ [c]; clock := clock st; store := store st |}).

(** Let the clock advance. *)
Definition wait (ms : Z) : M unit :=
  fun _ st => (Fulfilled tt, {| calls := calls st; clock := clock st + ms; store := store st |}).

(** [await p]: the value of a fulfilled promise, the exception of a
    rejected one. *)
Definition settle {A} (p : Settled A) : M A := fun _ st => (p, st).

(** [await f(query)] *)
Definition await_call (c : Call) : M (option SourceResult) :=
  let* p := start c in let* _ := wait (snd p) in settle (fst p).

Definition cache_get (key : string) (maxAge : Z) : M (option WebSearchResults) :=
  fun _ st =>
    let '(v, c) := SmartCache.get (clock st) key maxAge (SmartCache.this (store st)) in
    (Fulfilled v,
     {| calls := calls st; clock := clock st;
        store := SmartCache.on_this (fun _ => c) (store st) |}).

Definition cache_set (key : string) (v : WebSearchResults) (ttl : Z) : M unit :=
  fun _ st =>
    (Fulfilled tt,
     {| calls := calls st; clock := clock st;
        store := snd (SmartCache.set (clock st) key v ttl (store st)) |}).

Definition now : M Z := fun _ st => (Fulfilled (clock st), st).

(** /\s+/g *)
Definition spaces : RegExp := re_g (plus space).

(** The [forEach] that collects what [Promise.allSettled] reports: the
    fulfilled, non-null values, in the order of the calls. *)
Definition collect (searchResults : list (Settled (option SourceResult))) : list SourceResult :=
  omap (fun r => match r with Fulfilled (Some v) => Some v | _ => None end) searchResults.

Fixpoint start_all (cs : list Call) : M (list (Settled (option SourceResult) * Z)) :=
  match cs with
  | [] => ret []
  | c :: cs' => let* p := start c in let* ps := start_all cs' in ret (p :: ps)
  end.

(** [await Promise.allSettled(ps)] takes as long as the slowest promise. *)
Definition allSettled (ps : list (Settled (option SourceResult) * Z))
  : M (list (Settled (option SourceResult))) :=
  let* _ := wait (foldr Z.max 0 (List.map snd ps)) in ret (List.map fst ps).

(** [performWebSearch(query)] *)
Definition performWebSearch (query : string) : M WebSearchResults :=
  let cacheKey := ("websearch_" ++ replace spaces "_" (toLowerCase query))%string in
  let* cached := cache_get cacheKey 1800000 in
  match cached with
  | Some hit => ret hit
  | None =>
      let* stamp := now in
      let* searchPromises := start_all [searchDuckDuckGo query; searchWikipedia query;
                                   searchWikipediaExtracts query;
                                   searchStackExchange query;
                                   searchWolframAlpha query] in
      let* searchResults := allSettled searchPromises in
      let all := collect searchResults in
      let res := {| ws_query := query;
                    sources := List.map source all;
                    bestAnswer := determineBestAnswer (List.map Some all);
                    allResults := all;
                    searchedAt := stamp |} in
      let* _ := (match bestAnswer res, all with
            | None, [] => ret tt
            | _, _ => cache_set cacheKey res 1800000
            end) in
      ret res
  end.

(** /(?:define|meaning of|what is a|what's a)\s+(\w+)/i *)
Definition definition_query : RegExp :=
  re_i (seq [alts ["define"; "meaning of"; "what is a"; "what's a"]; plus space;
             Grp 1 (plus Regex.word)]).

Definition is_direct (r : SourceResult) : bool :=
  String.eqb (type r) "instant_answer" || String.eqb (type r) "abstract".

Definition found_by (r : SourceResult) (fallback : bool) : SearchOutcome :=
  {| found := true; result := Some r; so_allResults := None;
     partialResults := None; fallbackUsed := Some fallback; so_message := None |}.

(** Steps 5 to 7 of [smartSearch]. *)
Definition full_search (query : string) : M SearchOutcome :=
  let* fullSearch := performWebSearch query in
  match bestAnswer fullSearch with
  | Some best =>
      ret {| found := true; result := Some best;
             so_allResults := Some (allResults fullSearch);
             partialResults := None; fallbackUsed := Some true; so_message := None |}
  | None =>
      match allResults fullSearch with
      | _ :: _ =>
          ret {| found := false; result := None; so_allResults := None;
                 partialResults := Some (allResults fullSearch);
                 fallbackUsed := None;
                 so_message := Some "Couldn't find a definitive answer, but here are some related results" |}
      | [] =>
          ret {| found := false; result := None; so_allResults := None;
                 partialResults := None; fallbackUsed := None;
                 so_message := Some "No results found" |}
      end
  end.

(** Step 4 and the rest. *)
Definition from_stack (query : string) : M SearchOutcome :=
  let* stackResult := await_call (searchStackExchange query) in
  match stackResult with
  | Some r => ret (found_by r true)
  | None => full_search query
  end.

(** Step 3 and the rest. *)
Definition from_dictionary (query : string) : M SearchOutcome :=
  match exec definition_query (toLowerCase query) with
  | Some words =>
      let* dictResult := await_call
        (searchDictionary (match group 1 words with Some w => w | None => EmptyString end)) in
      match dictResult with
      | Some r => ret (found_by r true)
      | None => from_stack query
      end
  | None => from_stack query
  end.

(** Step 2 and the rest. *)
Definition from_wikipedia (query : string) : M SearchOutcome :=
  let* wikiResult := await_call (searchWikipedia query) in
  match wikiResult with
  | Some w =>
      if truthy_value (answer w) then ret (found_by w true)
      else from_dictionary query
  | None => from_dictionary query
  end.

(** [smartSearch(query)] *)
Definition smartSearch (query : string) : M SearchOutcome :=
  let* ddgResult := await_call (searchDuckDuckGo query) in
  match ddgResult with
  | Some r => if is_direct r then ret (found_by r false) else from_wikipedia query
  | None => from_wikipedia query
  end.

(** *** Notions used in the statements about the selector and the chain *)

(** [y] has a strictly greater confidence than [x]. *)
Definition better (y x : SourceResult) : bool :=
  positive (by_confidence x y).

(** The first result among those of greatest confidence. *)
Fixpoint first_max (l : list SourceResult) : option SourceResult :=
  match l with
  | [] => None
  | x :: l' =>
      match first_max l' with
      | Some y => if better y x then Some y else Some x
      | None => Some x
      end
  end.

Definition rated (r : SourceResult) : Prop := confidence r <> NaN.

(** The tie-break as the spec words it: the fixed source-priority order
    direct-answer, encyclopedia, dictionary, tech-QA, related-topics,
    raw-search-results, as a rank on the [type] of a result (smaller is
    better). *)
Definition spec_source_rank (ty : string) : nat :=
  if String.eqb ty "instant_answer" || String.eqb ty "abstract" || String.eqb ty "definition"
  then 0
  else if String.eqb ty "encyclopedia" then 1
  else if String.eqb ty "dictionary" then 2
  else if String.eqb ty "stackoverflow_answer" || String.eqb ty "stackoverflow_question"
  then 3
  else if String.eqb ty "related" then 4
  else 5.

(** A result object of a given type, provider and confidence. *)
Definition sample (ty src : string) (c : Q) : SourceResult :=
  {| type := ty; source := src; confidence := Fin c;
     content := None; answer := Some (VString "text"); title := None; url := None;
     image := None; meanings := Some (VArray ["noun"]); word := None;
     phonetic := None; topics := Some (VArray ["topic"]);
     results := Some (VArray ["hit"]) |}.

(** A world in which the direct-answer source knows everything and the
    other sources nothing. *)
Definition sample_world : World :=
  {| respond := fun _ c =>
       match c with
       | searchDuckDuckGo _ =>
           Fulfilled (Some (sample "instant_answer" "DuckDuckGo Instant Answer" (95 # 100)))
       | _ => Fulfilled None
       end;
     latency := fun _ _ => 120 |}.

Definition sample_state : State :=
  {| calls := []; clock := 0; store := SmartCache.fresh |}.

End WebSearch.

(* ================================================================= *)
(** ** server.js: [gatherKnowledge]

    An [async] function runs between events of the event loop. The events
    that matter to [gatherKnowledge] are: the promise of one of its service
    calls settles, the six-second timer fires, the fallback search settles.
    A schedule is the list of these events in the order in which the event
    loop delivers them; a call that never completes has no event. *)

Module Server.

Import Js JsString Regex Promise QueryAnalyzer.

Section WithServices.

(** What the services return is opaque here. *)
Context {D : Type}.

(** [services.time.getDateInfo()], which is synchronous. *)
Variable dateInfo : D.

(** The engine behind [services.math.evaluateMathExpression]. *)
Variable call_function : string -> MathService.Completion MathService.JsValue.
Variable number_toString : JsNumber -> string.
Variable number_toFixed : JsNumber -> nat -> string.

(** The asynchronous service calls that [gatherKnowledge] can make. *)
Inductive Fetch : Type :=
| getWorldTime (location : string)
| getWeather (location : string)
| convertCurrency (amount : JsNumber) (from to : string)
| getExchangeRates (base : string)
| getTopCryptos (limit : Z)
| getCryptoPrice (name : string)
| getNews (category : string)
| getCountryInfo (term : string)
| searchDictionary (term : string)
| getQuote
| getJoke
| getTriviaQuestion
| searchWikipedia (term : string).

(** The property of [results] that the [then] handler of a call assigns. *)
Definition key_of (f : Fetch) : string :=
  match f with
  | getWorldTime _ => "time"
  | getWeather _ => "weather"
  | convertCurrency _ _ _ | getExchangeRates _ => "currency"
  | getTopCryptos _ | getCryptoPrice _ => "crypto"
  | getNews _ => "news"
  | getCountryInfo _ => "country"
  | searchDictionary _ => "dictionary"
  | getQuote => "quote"
  | getJoke => "joke"
  | getTriviaQuestion => "trivia"
  | searchWikipedia _ => "wikipedia"
  end.

(** A value stored in [results]. *)
Inductive Item : Type :=
| FromService (d : D)
| FromMath (r : MathService.MathResult)
| FromSearch (o : WebSearch.SearchOutcome).

(** Truthiness of a string property that may be [null]. *)
Definition given (s : option string) : bool :=
  match s with Some (String _ _) => true | _ => false end.

Definition given_number (x : option JsNumber) : bool :=
  match x with Some n => truthy n | None => false end.

Definition text (s : option string) : string :=
  match s with Some t => t | None => EmptyString end.

(** [s || d] *)
Definition or_default (s : option string) (d : string) : string :=
  if given s then text s else d.

Definition when {A} (b : bool) (l : list A) : list A := if b then l else [].

(** [analysis.searchTerms[0]], when there is one. *)
Definition first_term (a : Analysis) : option string := head (searchTerms a).

(** The array [promises], in the order of the [push] calls. *)
Definition issued (a : Analysis) : list Fetch :=
  when (needsTime a && given (timeLocation a)) [getWorldTime (text (timeLocation a))]
  ++ when (needsWeather a && given (weatherLocation a)) [getWeather (text (weatherLocation a))]
  ++ when (needsCurrency a)
       [if given_number (currencyAmount a) && given (currencyFrom a) && given (currencyTo a)
        then convertCurrency
               (match currencyAmount a with Some n => n | None => NaN end)
               (text (currencyFrom a)) (text (currencyTo a))
        else getExchangeRates (or_default (currencyFrom a) "USD")]
  ++ when (needsCrypto a)
       [if String.eqb (text (cryptoName a)) "top" then getTopCryptos 10
        else getCryptoPrice (or_default (cryptoName a) "bitcoin")]
  ++ when (needsNews a) [getNews "technology"]
  ++ match first_term a with
     | Some t => when (needsCountry a) [getCountryInfo t]
     | None => []
     end
  ++ match first_term a with
     | Some t => when (needsDictionary a) [searchDictionary t]
     | None => []
     end
  ++ when (needsQuote a) [getQuote]
  ++ when (needsJoke a) [getJoke]
  ++ when (needsTrivia a) [getTriviaQuestion]
  ++ match first_term a with
     | Some t => when (needsWikipedia a) [searchWikipedia t]
     | None => []
     end.

(** What the synchronous part writes: [results.date] and [results.math].
    An exception of a synchronous call would leave [gatherKnowledge]. *)
Definition immediate (a : Analysis) : MathService.Completion (gmap string Item) :=
  let r : gmap string Item := if needsDate a then {[ "date" := FromService dateInfo ]} else ∅ in
  if needsMath a && given (mathExpression a) then
    match MathService.evaluateMathExpression call_function number_toString
            number_toFixed (text (mathExpression a)) with
    | MathService.Normal (Some mathResult) =>
        MathService.Normal (<[ "math" := FromMath mathResult ]> r)
    | MathService.Normal None => MathService.Normal r
    | MathService.Abrupt e => MathService.Abrupt e
    end
  else MathService.Normal r.

(** [needsWebSearchFallback(results)] of queryAnalyzer.js: no property holds
    a value. Every value stored here is an object, so a value is valid. *)
Definition needsWebSearchFallback (results : gmap string Item) : bool :=
  let hasValidResult := existsb (fun _ => true) (map_to_list results).*2 in
  negb hasValidResult.

(** [.then(data => { if (data) results[key] = data; })] *)
Definition then_store (key : string) (p : Settled (option D)) (results : gmap string Item)
  : Settled unit * gmap string Item :=
  match p with
  | Fulfilled (Some data) => (Fulfilled tt, <[ key := FromService data ]> results)
  | Fulfilled None => (Fulfilled tt, results)
  | Rejected e => (Rejected e, results)
  end.

(** [.catch(e => console.error(label, e.message))], on the calls for the
    time and the weather: the promise it yields is fulfilled when the
    handler returns, and rejected with the [TypeError] when the read of
    [e.message] throws. *)
Definition catch_log (p : Settled unit) : Settled unit :=
  match p with
  | Fulfilled _ => Fulfilled tt
  | Rejected e =>
      match Promise.message e with
      | Some _ => Fulfilled tt
      | None => Rejected type_error
      end
  end.

(** [.catch(() => {})], on the other calls. *)
Definition catch_quiet (p : Settled unit) : Settled unit := Fulfilled tt.

Definition catch_of (f : Fetch) : Settled unit -> Settled unit :=
  match f with
  | getWorldTime _ | getWeather _ => catch_log
  | _ => catch_quiet
  end.

(** Where the function is. *)
Inductive Phase : Type :=
| Racing                          (* at [await Promise.race([...])] *)
| Searching (searchQuery : string) (* at [await smartSearch(searchQuery)] *)
| Returned                        (* [return results] done *)
| Failed (e : JsError).           (* left by an exception *)

Inductive Event : Type :=
| Settle (i : nat) (p : Settled (option D))     (* [promises[i]]'s call settles *)
| Timeout                                       (* the [setTimeout(resolve, 6000)] *)
| SearchSettled (p : Settled WebSearch.SearchOutcome).

(** [results] is one object: the handlers, the function body and the caller
    all see the same [results] field. [waiting] lists the indices of the
    calls that have not settled. *)
Record State : Type := mkState {
  results : gmap string Item;
  waiting : list nat;
  phase : Phase
}.

(** The code after the race, up to the next [await] or the [return]. *)
Definition after_race (message : string) (a : Analysis) (st : State) : State :=
  if needsWebSearchFallback (results st)
     && (needsWebSearch a || negb (Nat.eqb (List.length (searchTerms a)) 0))
  then
    let searchQuery :=
      if given (first_term a) then text (first_term a)
      else trim (replace question_marks EmptyString message) in
    {| results := results st; waiting := waiting st; phase := Searching searchQuery |}
  else {| results := results st; waiting := waiting st; phase := Returned |}.

(** The function up to its first [await]. [Promise.all] of an empty array
    is fulfilled at once, and so is the race. *)
Definition start (message : string) : State :=
  let a := analyzeQuery message in
  match immediate a with
  | MathService.Abrupt e =>
      {| results := ∅; waiting := []; phase := Failed (mkError e) |}
  | MathService.Normal r =>
      let st := {| results := r;
                   waiting := List.seq 0%nat (List.length (issued a));
                   phase := Racing |} in
      match issued a with
      | [] => after_race message a st
      | _ => st
      end
  end.

Definition remove_index (i : nat) (l : list nat) : list nat :=
  List.filter (fun j => negb (Nat.eqb i j)) l.

(** One event. A call settles once; its handlers run whatever the function
    is doing, also after it has returned. [Promise.all] is fulfilled when
    the last call's promise is, and rejected with the first rejection: the
    race is then rejected too, if the timer has not fired, and the [await]
    throws. The [catch] block of the fallback search reads [e.message]. *)
Definition step (message : string) (st : State) (ev : Event) : State :=
  let a := analyzeQuery message in
  match ev with
  | Settle i p =>
      match issued a !! i with
      | Some f =>
          if existsb (Nat.eqb i) (waiting st) then
            let '(q, results') := then_store (key_of f) p (results st) in
            let waiting' := remove_index i (waiting st) in
            let st' := {| results := results'; waiting := waiting'; phase := phase st |} in
            match phase st, catch_of f q with
            | Racing, Rejected e =>
                {| results := results'; waiting := waiting'; phase := Failed e |}
            | Racing, Fulfilled _ =>
                match waiting' with
                | [] => after_race message a st'
                | _ => st'
                end
            | _, _ => st'
            end
          else st
      | None => st
      end
  | Timeout =>
      match phase st with
      | Racing => after_race message a st
      | _ => st
      end
  | SearchSettled p =>
      match phase st with
      | Searching _ =>
          match p with
          | Fulfilled webSearchResult =>
              if WebSearch.found webSearchResult then
                {| results := <[ "webSearch" := FromSearch webSearchResult ]> (results st);
                   waiting := waiting st; phase := Returned |}
              else {| results := results st; waiting := waiting st; phase := Returned |}
          | Rejected e =>
              match Promise.message e with
              | Some _ =>
                  {| results := results st; waiting := waiting st; phase := Returned |}
              | None =>
                  {| results := results st; waiting := waiting st;
                     phase := Failed type_error |}
              end
          end
      | _ => st
      end
  end.

Definition run (message : string) (evs : list Event) (st : State) : State :=
  fold_left (step message) evs st.

(** [gatherKnowledge(message)] under a schedule: the state it has reached
    when the events of the schedule have been delivered. *)
Definition gatherKnowledge (message : string) (evs : list Event) : State :=
  run message evs (start message).

Definition has_returned (st : State) : bool :=
  match phase st with Returned => true | _ => false end.

(** The content of [results] at the moment of [return results], which is
    what a caller reads when it resumes; [None] while the function has not
    returned. *)
Fixpoint returned_from (message : string) (evs : list Event) (st : State)
  : option (gmap string Item) :=
  if has_returned st then Some (results st)
  else match evs with
       | [] => None
       | ev :: evs' => returned_from message evs' (step message st ev)
       end.

Definition returned (message : string) (evs : list Event) : option (gmap string Item) :=
  returned_from message evs (start message).

(** A rejection read as a call that found nothing. *)
Definition absorbed (ev : Event) : Event :=
  match ev with
  | Settle i (Rejected _) => Settle i (Fulfilled None)
  | _ => ev
  end.

(** The event is not a rejection with [null] or [undefined]. *)
Definition reasoned (ev : Event) : bool :=
  match ev with
  | Settle _ (Rejected Nullish) | SearchSettled (Rejected Nullish) => false
  | _ => true
  end.

(** The event is the settlement of call [i]. *)
Definition settles (i : nat) (ev : Event) : bool :=
  match ev with Settle j _ => Nat.eqb i j | _ => false end.

(** *** Notions used in the statements about [gatherKnowledge] *)

Definition failed (st : State) : Prop := exists e, phase st = Failed e.

Definition racing (st : State) : Prop := phase st = Racing.

(** The properties that the handlers of the service calls assign. *)
Definition fetch_keys : list string :=
  ["time"; "weather"; "currency"; "crypto"; "news"; "country"; "dictionary";
   "quote"; "joke"; "trivia"; "wikipedia"].

(** Call [j] has settled and [results[k]] is [v]. *)
Definition kept (j : nat) (k : string) (v : Item) (st : State) : Prop :=
  existsb (Nat.eqb j) (waiting st) = false /\ results st !! k = Some v.

End WithServices.

Arguments Item : clear implicits.
Arguments Event : clear implicits.
Arguments State : clear implicits.

(** An engine that rejects every program, and formatters that print nothing:
    enough for queries without arithmetic. *)
Definition no_engine (body : string) : MathService.Completion MathService.JsValue :=
  MathService.Abrupt "SyntaxError".

Definition no_format (x : Js.JsNumber) : string := EmptyString.

Definition no_fixed (x : Js.JsNumber) (digits : nat) : string := EmptyString.

(** The outcome of a fallback search that found nothing. *)
Definition nothing_found : WebSearch.SearchOutcome :=
  {| WebSearch.found := false; WebSearch.result := None;
     WebSearch.so_allResults := None; WebSearch.partialResults := None;
     WebSearch.fallbackUsed := None;
     WebSearch.so_message := Some "No results found" |}.

End Server.

(* ================================================================= *)
(** ** Property access on an object literal *)

Module JsObject.

(** The members that every object literal inherits from
    [Object.prototype]; each of them is an object or a function. *)
Definition prototype_members : list string :=
  ["constructor"; "__defineGetter__"; "__defineSetter__"; "hasOwnProperty";
   "__lookupGetter__"; "__lookupSetter__"; "isPrototypeOf"; "propertyIsEnumerable";
   "toString"; "valueOf"; "__proto__"; "toLocaleString"].

(** What [obj[key]] evaluates to. *)
Inductive Property (A : Type) : Type :=
| Own (v : A)                   (* a property of the literal *)
| Inherited (name : string)     (* a member of [Object.prototype] *)
| Missing.                      (* [undefined] *)

Arguments Own {A} v.
Arguments Inherited {A} name.
Arguments Missing {A}.

Fixpoint own {A} (key : string) (obj : list (string * A)) : option A :=
  match obj with
  | [] => None
  | (k, v) :: obj' => if String.eqb key k then Some v else own key obj'
  end.

Definition get_property {A} (obj : list (string * A)) (key : string) : Property A :=
  match own key obj with
  | Some v => Own v
  | None =>
      if existsb (String.eqb key) prototype_members then Inherited key else Missing
  end.

End JsObject.

(* ================================================================= *)
(** ** utils/cache.js: transcripts and cleanups *)

Module CacheAudit.

Import SmartCache.

Section WithPayload.

Context {V : Type}.

Definition is_get (o : Op V) : bool :=
  match o with OpGet _ _ => true | _ => false end.

Definition is_set (o : Op V) : bool :=
  match o with OpSet _ _ _ => true | _ => false end.

(** A [get] that returned data, and a [get] that returned [null]. *)
Definition returned_data (o : Op V) (r : Ret V) : bool :=
  match o, r with
  | OpGet _ _, RVal (Some _) => true
  | _, _ => false
  end.

Definition returned_null (o : Op V) (r : Ret V) : bool :=
  match o, r with
  | OpGet _ _, RVal (Some _) => false
  | OpGet _ _, _ => true
  | _, _ => false
  end.

(** How many steps of a transcript, the operations with what each of them
    returned, satisfy [p]. *)
Fixpoint answered (p : Op V -> Ret V -> bool) (evs : list (Z * Op V)) (rs : list (Ret V))
  : nat :=
  match evs, rs with
  | (_, o) :: evs', r :: rs' => ((if p o r then 1 else 0) + answered p evs' rs')%nat
  | _, _ => 0%nat
  end.

(** How many of the operations of a run satisfy [p]. *)
Definition count (p : Op V -> bool) (evs : list (Z * Op V)) : nat :=
  List.length (List.filter (fun ev => p ev.2) evs).

(** The largest delay that [setTimeout] honours. *)
Definition max_delay : Z := 2147483647.

(** The callback that the [set] which stored [e] under [key] registered. *)
Definition cleanup_of (key : string) (e : Entry V) : Timer :=
  {| t_key := key; t_ttl := ttl e; t_due := timestamp e + timeout_delay (ttl e) |}.

(** Every entry whose [ttl] [setTimeout] honours has its cleanup pending. *)
Definition awaited (h : Heap V) : Prop :=
  forall k e, cache (this h) !! k = Some e -> ttl e <= max_delay ->
    cleanup_of k e ∈ pending h.

End WithPayload.

End CacheAudit.

(* ================================================================= *)
(** ** services/mathService.js: what reaches the [Function] constructor *)

Module Calculator.

Import JsString.

(** The characters of an arithmetic expression: digits, the operators
    [+ - * / %], parentheses, the dot and white space. *)
Definition arithmetic_char (c : ascii) : bool :=
  is_digit c || is_space c
  || existsb (Ascii.eqb c) ["+"; "-"; "*"; "/"; "("; ")"; "."; "%"]%char.

End Calculator.

(* ================================================================= *)
(** ** services/webSearchService.js: the calls of a search *)

Module SearchChain.

Import Js JsString Regex Promise WebSearch.

(** The array [searchPromises] of [performWebSearch]. *)
Definition asked (query : string) : list Call :=
  [searchDuckDuckGo query; searchWikipedia query; searchWikipediaExtracts query;
   searchStackExchange query; searchWolframAlpha query].

(** [cacheKey] of [performWebSearch]. *)
Definition cache_key (query : string) : string :=
  ("websearch_" ++ replace spaces "_" (toLowerCase query))%string.

(** What the world answers to the calls [cs], made one after the other
    when [log] has been asked before. *)
Fixpoint answers (w : World) (log : list Call) (cs : list Call)
  : list (Settled (option SourceResult)) :=
  match cs with
  | [] => []
  | c :: cs' => respond w log c :: answers w (log ++ [c]) cs'
  end.

(** How long the slowest of these calls takes. *)
Fixpoint slowest (w : World) (log : list Call) (cs : list Call) : Z :=
  match cs with
  | [] => 0
  | c :: cs' => Z.max (latency w log c) (slowest w (log ++ [c]) cs')
  end.

(** The same state [ms] later, and after calls of other functions. *)
Definition later (ms : Z) (more : list Call) (st : State) : State :=
  {| calls := calls st ++ more; clock := clock st + ms; store := store st |}.

(** The dictionary lookup of [smartSearch], made for a definition query. *)
Definition dictionary_step (query : string) : list Call :=
  match exec definition_query (toLowerCase query) with
  | Some words =>
      [searchDictionary (match group 1 words with Some w => w | None => EmptyString end)]
  | None => []
  end.

(** Every call that [smartSearch] can make, in the order of the source. *)
Definition chain (query : string) : list Call :=
  [searchDuckDuckGo query; searchWikipedia query] ++ dictionary_step query
  ++ [searchStackExchange query] ++ asked query.

(** An outcome that says what it holds: found with a result, or not found
    with a message and no result. *)
Definition shaped (o : SearchOutcome) : Prop :=
  (found o = true /\ is_Some (result o))
  \/ (found o = false /\ result o = None /\ is_Some (so_message o)).

(** A computation that started in [st] has made the first calls of [cs],
    in order, and nothing else; if it returned, what it returned is shaped. *)
Definition follows (cs : list Call) (st : State) (res : Settled SearchOutcome * State) : Prop :=
  (exists n, calls res.2 = calls st ++ firstn n cs)
  /\ match res.1 with Fulfilled o => shaped o | Rejected _ => True end.

End SearchChain.

(* ================================================================= *)
(** ** utils/queryAnalyzer.js: what an analysis asks for *)

Module Requests.

Import Js JsString Regex QueryAnalyzer.

(** Truthiness of a string property that may be [null]. *)
Definition present (s : option string) : bool :=
  match s with Some (String _ _) => true | _ => false end.

(** The fourteen category flags. *)
Definition flags (a : Analysis) : list bool :=
  [needsTime a; needsDate a; needsWeather a; needsNews a; needsCurrency a;
   needsCrypto a; needsCountry a; needsDictionary a; needsMath a; needsQuote a;
   needsJoke a; needsTrivia a; needsWikipedia a; needsWebSearch a].

(** No category is asked for and no search term is given. *)
Definition asks_nothing (a : Analysis) : Prop :=
  Forall (fun f => f = false) (flags a) /\ searchTerms a = [].

(** The categories whose service call needs an argument come with it. *)
Definition equipped (a : Analysis) : Prop :=
  (needsTime a = true -> present (timeLocation a) = true)
  /\ (needsWeather a = true -> present (weatherLocation a) = true)
  /\ (needsMath a = true -> present (mathExpression a) = true).

(** [to_operators] on one character: [x] and the multiplication sign become
    [*], the division sign becomes [/]. *)
Definition operator_char (c : ascii) : ascii :=
  if Ascii.eqb c "x" || Ascii.eqb c times_sign then "*"%char
  else if Ascii.eqb c division_sign then "/"%char
  else c.

(** Text made of the characters of the bare-arithmetic class. *)
Definition arithmetic_text (s : string) : bool :=
  all_chars (cmatch false direct_math_class) s.

(** [asks_nothing], flag by flag. *)
Definition idle (a : Analysis) : Prop :=
  needsTime a = false /\ needsDate a = false /\ needsWeather a = false
  /\ needsNews a = false /\ needsCurrency a = false /\ needsCrypto a = false
  /\ needsCountry a = false /\ needsDictionary a = false /\ needsMath a = false
  /\ needsQuote a = false /\ needsJoke a = false /\ needsTrivia a = false
  /\ needsWikipedia a = false /\ needsWebSearch a = false
  /\ searchTerms a = [].

(** The invariant of the rule groups: arguments present, two flags never
    set, nothing asked while there is no intent. *)
Definition orderly (a : Analysis) : Prop :=
  equipped a
  /\ needsNews a = false /\ needsCountry a = false
  /\ (primaryIntent a = None -> idle a).

(** Before the knowledge group. *)
Definition unsearched (a : Analysis) : Prop :=
  needsWikipedia a = false /\ needsWebSearch a = false.

(** The encyclopedia is not asked about a time, weather or arithmetic
    query. *)
Definition exclusive (a : Analysis) : Prop :=
  needsWikipedia a = true ->
  needsTime a = false /\ needsWeather a = false /\ needsMath a = false.

(** What the groups after the bare-arithmetic one leave alone. *)
Definition keeps_math (a a' : Analysis) : Prop :=
  needsMath a' = needsMath a /\ mathExpression a' = mathExpression a.

End Requests.

(* ================================================================= *)
(** ** server.js: notions for the statements about the fallback *)

Module Gathering.

Import Server.

(** The function is not searching, has found something, and nothing of
    what it found comes from a search. *)
Definition served {D : Type} (st : State D) : Prop :=
  results st <> ∅ /\ (forall q, phase st <> Searching q)
  /\ results st !! "webSearch" = None.

End Gathering.

(* ================================================================= *)
(** ** server.js: the routes

    Express keeps the layers in the order of the [app.use] and
    [app.METHOD] calls. A request goes down the stack. A route handler runs
    when its method and path match; [app.use(fn)] with a handler matches
    every request. No handler of server.js calls [next()], so the first
    one that runs ends the request. The two middlewares mounted first,
    [cors()] and [express.json()], either pass the request on with
    [next()], or end it: [cors()] answers a preflight request itself, and
    [express.json()] hands a body that it cannot parse to [next(err)],
    which skips every route and handler of the stack (none of them takes
    an error) and ends in the default error reply of Express. *)

Module Routes.

Inductive Verb : Type := GET | POST | PUT | DELETE.

(** The handlers, named after their routes. *)
Inductive Handler : Type :=
| root | health | chat_models | chat_info | chat_message | chat_stream
| conversations_list | conversation_get | conversation_create
| conversation_delete | conversations_clear | chat_reaction
| cache_stats | cache_clear | api_time | api_weather | api_search
| not_found
| generate_image | regenerate | message_edit | chat_search | chat_export
| conversation_rename | api_crypto | api_currency | api_convert | api_news
| api_country | api_define | api_joke | api_quote | api_trivia | api_wiki
| api_password | api_uuid | api_qr | api_calculate.

(** The middlewares of [app.use(cors())] and [app.use(express.json())]. *)
Inductive Middleware : Type := cors | json.

Inductive Layer : Type :=
| Mount (m : Middleware)                              (* app.use(m()) *)
| Route (verb : Verb) (path : string) (h : Handler)   (* app.get(path, h), ... *)
| Use (h : Handler).                                  (* app.use(h) *)

(** How a request ends. *)
Inductive Outcome : Type :=
| Handled (h : Handler)      (* the handler has run *)
| Ended (m : Middleware).    (* the middleware has not passed the request on *)

(** The calls of server.js, in the order of the source text. *)
Definition stack : list Layer :=
  [ Mount cors;
    Mount json;
    Route GET "/" root;
    Route GET "/api/health" health;
    Route GET "/api/chat/models" chat_models;
    Route GET "/api/chat/info" chat_info;
    Route POST "/api/chat/message" chat_message;
    Route POST "/api/chat/stream" chat_stream;
    Route GET "/api/chat/conversations" conversations_list;
    Route GET "/api/chat/conversations/:id" conversation_get;
    Route POST "/api/chat/conversations" conversation_create;
    Route DELETE "/api/chat/conversations/:id" conversation_delete;
    Route DELETE "/api/chat/conversations" conversations_clear;
    Route POST "/api/chat/reaction" chat_reaction;
    Route GET "/api/cache/stats" cache_stats;
    Route DELETE "/api/cache/clear" cache_clear;
    Route GET "/api/time/:location" api_time;
    Route GET "/api/weather/:location" api_weather;
    Route GET "/api/search/:query" api_search;
    Use not_found;
    Route POST "/api/chat/generate-image" generate_image;
    Route POST "/api/chat/regenerate" regenerate;
    Route PUT "/api/chat/message/:conversationId/:messageId" message_edit;
    Route GET "/api/chat/search" chat_search;
    Route GET "/api/chat/export/:id" chat_export;
    Route PUT "/api/chat/conversations/:id/rename" conversation_rename;
    Route GET "/api/crypto/:name?" api_crypto;
    Route GET "/api/currency/:base?" api_currency;
    Route GET "/api/convert/:amount/:from/:to" api_convert;
    Route GET "/api/news/:category?" api_news;
    Route GET "/api/country/:name" api_country;
    Route GET "/api/define/:word" api_define;
    Route GET "/api/joke" api_joke;
    Route GET "/api/quote" api_quote;
    Route GET "/api/trivia" api_trivia;
    Route GET "/api/wiki/:query" api_wiki;
    Route GET "/api/password/:length?" api_password;
    Route GET "/api/uuid" api_uuid;
    Route GET "/api/qr" api_qr;
    Route GET "/api/calculate/:expression" api_calculate ].

Definition handler_of (l : Layer) : option Handler :=
  match l with Route _ _ h | Use h => Some h | Mount _ => None end.

Section Dispatch.

(** How Express decides that a method and a route path match a request,
    and which requests a middleware passes on, is left open: the
    statements hold for every way of matching and of passing on. *)
Context {Request : Type}.
Variable matches : Verb -> string -> Request -> bool.
Variable passes : Middleware -> Request -> bool.

(** What becomes of [req] on its way down the layers; [None] when it falls
    off the end of the stack. *)
Fixpoint dispatch_in (layers : list Layer) (req : Request) : option Outcome :=
  match layers with
  | [] => None
  | Mount m :: rest => if passes m req then dispatch_in rest req else Some (Ended m)
  | Route verb path h :: rest =>
      if matches verb path req then Some (Handled h) else dispatch_in rest req
  | Use h :: _ => Some (Handled h)
  end.

Definition dispatch : Request -> option Outcome := dispatch_in stack.

End Dispatch.

(** The layers up to the first [app.use(fn)], and those after it. *)
Fixpoint upto_use (layers : list Layer) : list Layer :=
  match layers with
  | [] => []
  | Use h :: _ => [Use h]
  | l :: layers' => l :: upto_use layers'
  end.

Fixpoint after_use (layers : list Layer) : list Layer :=
  match layers with
  | [] => []
  | Use _ :: layers' => layers'
  | _ :: layers' => after_use layers'
  end.

(** The handlers of some layers. *)
Definition handlers (layers : list Layer) : list Handler := omap handler_of layers.

(** The routes among some layers, as method and path. *)
Definition routes (layers : list Layer) : list (Verb * string) :=
  omap (fun l => match l with Route verb path _ => Some (verb, path) | _ => None end) layers.

(** A matcher in the manner of Express for paths without parameters: the
    method is the same and the path is the same text; and middlewares that
    pass every request on. *)
Definition verb_eqb (a b : Verb) : bool :=
  match a, b with
  | GET, GET | POST, POST | PUT, PUT | DELETE, DELETE => true
  | _, _ => false
  end.

Definition exact (verb : Verb) (path : string) (req : Verb * string) : bool :=
  verb_eqb verb req.1 && String.eqb path req.2.

Definition passing (m : Middleware) (req : Verb * string) : bool := true.

End Routes.

(* ================================================================= *)
(** ** server.js: [getQuickResponse] *)

Module QuickResponse.

Import JsString Regex.

(** The keys of [quickResponses]. The texts of the replies hold characters
    outside Latin-1 and are not transcribed: a reply is named by its list
    and its index in the list. *)
Inductive Kind : Type := greetings | thanks | goodbye.

(** [quickResponses[kind].length] *)
Definition size (k : Kind) : nat :=
  match k with greetings => 1 | thanks => 3 | goodbye => 3 end.

(** The phrases of the three patterns. *)
Definition phrases (k : Kind) : list string :=
  match k with
  | greetings => ["hi"; "hello"; "hey"; "greetings"; "good morning"; "good afternoon";
                  "good evening"; "yo"; "sup"; "hola"; "howdy"]
  | thanks => ["thanks"; "thank you"; "thx"; "ty"; "appreciated"; "thank u"; "cheers"]
  | goodbye => ["bye"; "goodbye"; "see you"; "later"; "take care"; "cya"; "see ya";
                "adios"; "farewell"]
  end.

(** [\s!.] *)
Definition closing : cset := CSet false [ISpace; IChar "!"; IChar "."].

(** /^(p1|p2|...)[\s!.]*$/i *)
Definition pattern (k : Kind) : RegExp :=
  re_i (seq [Bol; Grp 1 (alts (phrases k)); star closing; Eol]).

Section Random.

(** [Math.floor(Math.random() * n)] *)
Variable random_below : nat -> nat.

(** [quickResponses[kind][i]]: [undefined] when there is no such element. *)
Definition reply (k : Kind) (i : nat) : option (Kind * nat) :=
  if (i <? size k)%nat then Some (k, i) else None.

Definition getQuickResponse (message : string) : option (Kind * nat) :=
  let lower := trim (toLowerCase message) in
  if test (pattern greetings) lower then reply greetings (random_below (size greetings))
  else if test (pattern thanks) lower then reply thanks (random_below (size thanks))
  else if test (pattern goodbye) lower then reply goodbye (random_below (size goodbye))
  else None.

End Random.

(** *** Notions used in the statements *)

(** [p] is [w] up to letter case, character by character. *)
Fixpoint similar (ci : bool) (w p : string) : bool :=
  match w, p with
  | EmptyString, EmptyString => true
  | String a w', String c p' => same_char ci a c && similar ci w' p'
  | _, _ => false
  end.

(** The text is one of the phrases of [k], followed only by white space,
    exclamation marks and dots. *)
Definition says (k : Kind) (lower : string) : Prop :=
  exists w tail, In w (phrases k) /\ lower = (w ++ tail)%string
                 /\ all_chars (cmatch true closing) tail = true.

(** No capital letter. *)
Definition lowercase (s : string) : bool :=
  all_chars (fun c => Ascii.eqb (lower_char c) c) s.

End QuickResponse.

(* ================================================================= *)
(** ** services/timeService.js: [getWorldTime] *)

Module TimeService.

Import JsString JsObject.

(** [TIMEZONE_MAP], in the order of the object literal, which is the order
    in which [Object.entries] lists it. *)
Definition TIMEZONE_MAP : list (string * string) :=
  [
   ("new york", "America/New_York"); ("nyc", "America/New_York");
   ("manhattan", "America/New_York"); ("los angeles", "America/Los_Angeles");
   ("la", "America/Los_Angeles"); ("hollywood", "America/Los_Angeles");
   ("chicago", "America/Chicago"); ("houston", "America/Chicago");
   ("dallas", "America/Chicago"); ("phoenix", "America/Phoenix");
   ("denver", "America/Denver"); ("seattle", "America/Los_Angeles");
   ("san francisco", "America/Los_Angeles"); ("sf", "America/Los_Angeles");
   ("boston", "America/New_York"); ("miami", "America/New_York");
   ("atlanta", "America/New_York"); ("detroit", "America/Detroit");
   ("minneapolis", "America/Chicago"); ("las vegas", "America/Los_Angeles");
   ("philadelphia", "America/New_York"); ("washington", "America/New_York");
   ("dc", "America/New_York"); ("washington dc", "America/New_York");
   ("london", "Europe/London"); ("paris", "Europe/Paris"); ("berlin", "Europe/Berlin");
   ("rome", "Europe/Rome"); ("madrid", "Europe/Madrid");
   ("amsterdam", "Europe/Amsterdam"); ("brussels", "Europe/Brussels");
   ("vienna", "Europe/Vienna"); ("zurich", "Europe/Zurich");
   ("stockholm", "Europe/Stockholm"); ("oslo", "Europe/Oslo");
   ("copenhagen", "Europe/Copenhagen"); ("helsinki", "Europe/Helsinki");
   ("warsaw", "Europe/Warsaw"); ("prague", "Europe/Prague");
   ("budapest", "Europe/Budapest"); ("athens", "Europe/Athens");
   ("lisbon", "Europe/Lisbon"); ("dublin", "Europe/Dublin");
   ("moscow", "Europe/Moscow"); ("istanbul", "Europe/Istanbul");
   ("kiev", "Europe/Kiev"); ("kyiv", "Europe/Kiev"); ("bucharest", "Europe/Bucharest");
   ("tokyo", "Asia/Tokyo"); ("osaka", "Asia/Tokyo"); ("beijing", "Asia/Shanghai");
   ("shanghai", "Asia/Shanghai"); ("hong kong", "Asia/Hong_Kong");
   ("singapore", "Asia/Singapore"); ("seoul", "Asia/Seoul");
   ("bangkok", "Asia/Bangkok"); ("jakarta", "Asia/Jakarta"); ("manila", "Asia/Manila");
   ("kuala lumpur", "Asia/Kuala_Lumpur"); ("taipei", "Asia/Taipei");
   ("mumbai", "Asia/Kolkata"); ("delhi", "Asia/Kolkata"); ("new delhi", "Asia/Kolkata");
   ("kolkata", "Asia/Kolkata"); ("bangalore", "Asia/Kolkata");
   ("bengaluru", "Asia/Kolkata"); ("chennai", "Asia/Kolkata");
   ("hyderabad", "Asia/Kolkata"); ("pune", "Asia/Kolkata"); ("karachi", "Asia/Karachi");
   ("lahore", "Asia/Karachi"); ("dhaka", "Asia/Dhaka"); ("dubai", "Asia/Dubai");
   ("abu dhabi", "Asia/Dubai"); ("riyadh", "Asia/Riyadh"); ("doha", "Asia/Qatar");
   ("kuwait", "Asia/Kuwait"); ("tehran", "Asia/Tehran");
   ("jerusalem", "Asia/Jerusalem"); ("tel aviv", "Asia/Jerusalem");
   ("baghdad", "Asia/Baghdad"); ("sydney", "Australia/Sydney");
   ("melbourne", "Australia/Melbourne"); ("brisbane", "Australia/Brisbane");
   ("perth", "Australia/Perth"); ("adelaide", "Australia/Adelaide");
   ("auckland", "Pacific/Auckland"); ("wellington", "Pacific/Auckland");
   ("fiji", "Pacific/Fiji"); ("honolulu", "Pacific/Honolulu");
   ("hawaii", "Pacific/Honolulu"); ("toronto", "America/Toronto");
   ("vancouver", "America/Vancouver"); ("montreal", "America/Montreal");
   ("mexico city", "America/Mexico_City"); ("sao paulo", "America/Sao_Paulo");
   ("rio", "America/Sao_Paulo"); ("buenos aires", "America/Argentina/Buenos_Aires");
   ("lima", "America/Lima"); ("bogota", "America/Bogota");
   ("santiago", "America/Santiago"); ("caracas", "America/Caracas");
   ("cairo", "Africa/Cairo"); ("johannesburg", "Africa/Johannesburg");
   ("cape town", "Africa/Johannesburg"); ("lagos", "Africa/Lagos");
   ("nairobi", "Africa/Nairobi"); ("casablanca", "Africa/Casablanca");
   ("addis ababa", "Africa/Addis_Ababa"); ("accra", "Africa/Accra");
   ("usa", "America/New_York"); ("united states", "America/New_York");
   ("america", "America/New_York"); ("uk", "Europe/London");
   ("united kingdom", "Europe/London"); ("britain", "Europe/London");
   ("england", "Europe/London"); ("france", "Europe/Paris");
   ("germany", "Europe/Berlin"); ("italy", "Europe/Rome"); ("spain", "Europe/Madrid");
   ("portugal", "Europe/Lisbon"); ("netherlands", "Europe/Amsterdam");
   ("belgium", "Europe/Brussels"); ("switzerland", "Europe/Zurich");
   ("austria", "Europe/Vienna"); ("poland", "Europe/Warsaw");
   ("russia", "Europe/Moscow"); ("ukraine", "Europe/Kiev");
   ("turkey", "Europe/Istanbul"); ("greece", "Europe/Athens");
   ("sweden", "Europe/Stockholm"); ("norway", "Europe/Oslo");
   ("denmark", "Europe/Copenhagen"); ("finland", "Europe/Helsinki");
   ("ireland", "Europe/Dublin"); ("scotland", "Europe/London"); ("japan", "Asia/Tokyo");
   ("china", "Asia/Shanghai"); ("korea", "Asia/Seoul"); ("south korea", "Asia/Seoul");
   ("india", "Asia/Kolkata"); ("pakistan", "Asia/Karachi");
   ("bangladesh", "Asia/Dhaka"); ("thailand", "Asia/Bangkok");
   ("vietnam", "Asia/Ho_Chi_Minh"); ("indonesia", "Asia/Jakarta");
   ("malaysia", "Asia/Kuala_Lumpur"); ("philippines", "Asia/Manila");
   ("taiwan", "Asia/Taipei"); ("uae", "Asia/Dubai"); ("saudi arabia", "Asia/Riyadh");
   ("qatar", "Asia/Qatar"); ("israel", "Asia/Jerusalem"); ("iran", "Asia/Tehran");
   ("iraq", "Asia/Baghdad"); ("australia", "Australia/Sydney");
   ("new zealand", "Pacific/Auckland"); ("canada", "America/Toronto");
   ("mexico", "America/Mexico_City"); ("brazil", "America/Sao_Paulo");
   ("argentina", "America/Argentina/Buenos_Aires"); ("egypt", "Africa/Cairo");
   ("south africa", "Africa/Johannesburg"); ("nigeria", "Africa/Lagos");
   ("kenya", "Africa/Nairobi"); ("morocco", "Africa/Casablanca") ].

(** [UTC_OFFSET_MAP], hours east of Greenwich. *)
Definition UTC_OFFSET_MAP : list (string * Q) :=
  [
   ("india", (11 # 2)); ("mumbai", (11 # 2)); ("delhi", (11 # 2));
   ("kolkata", (11 # 2)); ("bangalore", (11 # 2)); ("new york", (-5)); ("nyc", (-5));
   ("washington", (-5)); ("boston", (-5)); ("miami", (-5)); ("los angeles", (-8));
   ("la", (-8)); ("san francisco", (-8)); ("seattle", (-8)); ("chicago", (-6));
   ("dallas", (-6)); ("houston", (-6)); ("denver", (-7)); ("london", 0); ("uk", 0);
   ("dublin", 0); ("lisbon", 0); ("paris", 1); ("berlin", 1); ("rome", 1);
   ("madrid", 1); ("amsterdam", 1); ("moscow", 3); ("dubai", 4); ("uae", 4);
   ("pakistan", 5); ("karachi", 5); ("bangladesh", 6); ("dhaka", 6); ("bangkok", 7);
   ("jakarta", 7); ("china", 8); ("beijing", 8); ("shanghai", 8); ("hong kong", 8);
   ("singapore", 8); ("tokyo", 9); ("japan", 9); ("korea", 9); ("seoul", 9);
   ("sydney", 11); ("melbourne", 11); ("australia", 11); ("auckland", 13);
   ("new zealand", 13); ("hawaii", (-10)); ("alaska", (-9)) ]%Q.

(** *** The time zone of a location *)

(** The value of the variable [timezone] when it is truthy. *)
Inductive Zone : Type :=
| Named (tz : string)       (* a zone name of the table *)
| Member (name : string).   (* a member of [Object.prototype] *)

(** [key.includes(lowerLocation) || lowerLocation.includes(key)] *)
Definition partial_match (lowerLocation : string) (entry : string * string) : bool :=
  includes lowerLocation entry.1 || includes entry.1 lowerLocation.

(** The lookup, and the loop that runs when it finds nothing. *)
Definition find_timezone (lowerLocation : string) : option Zone :=
  match get_property TIMEZONE_MAP lowerLocation with
  | Own (String c tz) => Some (Named (String c tz))
  | Inherited name => Some (Member name)
  | Own EmptyString | Missing =>
      match List.find (partial_match lowerLocation) TIMEZONE_MAP with
      | Some (_, String c tz) => Some (Named (String c tz))
      | _ => None
      end
  end.

(** The value of the constant [offset] when it is not [undefined]. *)
Inductive Offset : Type :=
| Hours (h : Q)
| MemberOffset (name : string).

Definition find_offset (lowerLocation : string) : option Offset :=
  match get_property UTC_OFFSET_MAP lowerLocation with
  | Own h => Some (Hours h)
  | Inherited name => Some (MemberOffset name)
  | Missing => None
  end.

(** [s.split('/').pop()]: what follows the last slash. *)
Fixpoint last_segment (s : string) : string :=
  match s with
  | EmptyString => EmptyString
  | String c s' =>
      if includes "/" s' then last_segment s'
      else if Ascii.eqb c "/" then s' else s
  end.

(** [tz.toLowerCase().includes(lowerLocation) ||
     lowerLocation.includes(tz.toLowerCase().split('/').pop())] *)
Definition zone_matches (lowerLocation tz : string) : bool :=
  includes lowerLocation (toLowerCase tz)
  || includes (last_segment (toLowerCase tz)) lowerLocation.

(** *** The function *)

Section WithServices.

(** The result objects are opaque. *)
Context {R : Type}.

(** The exchange with worldtimeapi.org for one zone, up to the result
    object: [Some] stands for a response that is [ok] and whose body
    [formatTimeResult] turns into a result; [None] for a response that is
    not [ok] and for any exception thrown inside the [try] block, which the
    inner [catch] swallows. *)
Variable ask_api : Zone -> string -> option R.

(** [calculateTimeFromOffset(location, offset)] at a clock reading. *)
Variable calculateTimeFromOffset : string -> Offset -> Z -> R.

(** The body of the zone list that [searchTimezone] requests: the array,
    each element a string or not; [None] for a request that fails and for
    a body that is not an array, on which [timezones.find] throws. *)
Variable zone_list : option (list (option string)).

(** The second request of [searchTimezone], for the zone it has matched, up
    to the result object ([response.ok] is not looked at there); [None]
    when the request, the body or [formatTimeResult] throws. *)
Variable ask_match : string -> string -> option R.

(** What a call has asked of the network. *)
Inductive Request : Type :=
| AskZone (z : Zone)      (* the time of one zone *)
| AskZoneList.            (* the list of all zones, in [searchTimezone] *)

(** How long a request takes. *)
Variable latency : Request -> Z.

Record State : Type := mkState {
  store : SmartCache.Heap R;
  asked : list Request;
  clock : Z
}.

(** [cache.set(cacheKey, result, 30000)] *)
Definition remember (key : string) (result : R) (st : State) : State :=
  {| store := (SmartCache.set (clock st) key result 30000 (store st)).2;
     asked := asked st; clock := clock st |}.

(** An awaited request. *)
Definition ask (q : Request) (st : State) : State :=
  {| store := store st; asked := asked st ++ [q]; clock := clock st + latency q |}.

(** [timezones.find(tz => ...)]: the first zone that matches; an element
    that is not a string makes [tz.toLowerCase()] throw when the search
    comes to it. *)
Fixpoint find_zone (lowerLocation : string) (timezones : list (option string))
  : option string :=
  match timezones with
  | [] => None
  | None :: _ => None
  | Some tz :: rest =>
      if zone_matches lowerLocation tz then Some tz else find_zone lowerLocation rest
  end.

(** [searchTimezone(location)]: every exception ends in [return null]. *)
Definition searchTimezone (location : string) (st : State) : option R * State :=
  let st := ask AskZoneList st in
  match zone_list with
  | Some timezones =>
      match find_zone (toLowerCase location) timezones with
      | Some (String c tz) =>
          let st := ask (AskZone (Named (String c tz))) st in
          (ask_match (String c tz) location, st)
      | _ => (None, st)
      end
  | None => (None, st)
  end.

(** The last resort: the list of zones is searched. *)
Definition last_resort (location cacheKey : string) (st : State) : option R * State :=
  match searchTimezone location st with
  | (Some searchResult, st) => (Some searchResult, remember cacheKey searchResult st)
  | (None, st) => (None, st)
  end.

(** The fallback on the table of offsets, then the last resort. *)
Definition from_offset (location lowerLocation cacheKey : string) (st : State)
  : option R * State :=
  match find_offset lowerLocation with
  | Some offset =>
      let result := calculateTimeFromOffset location offset (clock st) in
      (Some result, remember cacheKey result st)
  | None => last_resort location cacheKey st
  end.

(** [getWorldTime(location)]; cached results are objects, hence truthy. *)
Definition getWorldTime (location : string) (st : State) : option R * State :=
  let cacheKey := ("time_" ++ toLowerCase location)%string in
  let '(cached, c) := SmartCache.get (clock st) cacheKey 30000 (SmartCache.this (store st)) in
  let st := {| store := SmartCache.on_this (fun _ => c) (store st);
               asked := asked st; clock := clock st |} in
  match cached with
  | Some hit => (Some hit, st)
  | None =>
      let lowerLocation := trim (toLowerCase location) in
      match find_timezone lowerLocation with
      | Some timezone =>
          let st := ask (AskZone timezone) st in
          match ask_api timezone location with
          | Some result => (Some result, remember cacheKey result st)
          | None => from_offset location lowerLocation cacheKey st
          end
      | None => from_offset location lowerLocation cacheKey st
      end
  end.

(** The cache has nothing fresh for [location]. *)
Definition uncached (location : string) (st : State) : Prop :=
  (SmartCache.get (clock st) ("time_" ++ toLowerCase location)%string 30000
     (SmartCache.this (store st))).1 = None.

End WithServices.

Arguments State : clear implicits.

(** *** A sample world *)

(** A world in which the API answers the second request of
    [searchTimezone] only, and the zone list has two zones. *)
Definition api_down (z : Zone) (location : string) : option string := None.
Definition by_offset (location : string) (offset : Offset) (now : Z) : string :=
  match offset with
  | Hours h => "computed"
  | MemberOffset _ => "Invalid Date"
  end.
Definition two_zones : option (list (option string)) :=
  Some [Some "Africa/Cairo"; Some "Atlantic/Reykjavik"].
Definition by_match (tz location : string) : option string := Some ("time in " ++ tz)%string.
Definition quick (q : Request) : Z := 40.

Definition empty_state : State string :=
  {| store := SmartCache.fresh; asked := []; clock := 0 |}.

End TimeService.

(* ================================================================= *)
(** ** services/utilityService.js: passwords and short hashes *)

Module Utility.

(** The four alphabets of [generatePassword]. *)
Definition lowercase : string := "abcdefghijklmnopqrstuvwxyz".
Definition uppercase : string := "ABCDEFGHIJKLMNOPQRSTUVWXYZ".
Definition numbers : string := "0123456789".
Definition symbols : string := "!@#$%^&*()_+-=[]{}|;:,.<>?".

(** The alphabet of [generateShortHash]. *)
Definition hash_chars : string :=
  "ABCDEFGHIJKLMNOPQRSTUVWXYZabcdefghijklmnopqrstuvwxyz0123456789".

(** [options]: each field says whether [options.field !== false]. *)
Record Options : Type := mkOptions {
  with_uppercase : bool;
  with_numbers : bool;
  with_symbols : bool
}.

(** [s[i]] appended to a string: the character, or the text of
    [undefined] when there is none. *)
Definition at_index (s : string) (i : nat) : string :=
  match String.get i s with
  | Some c => String c EmptyString
  | None => "undefined"
  end.

(** [s.charAt(i)]: the character, or the empty string. *)
Definition charAt (s : string) (i : nat) : string :=
  match String.get i s with
  | Some c => String c EmptyString
  | None => EmptyString
  end.

Inductive Strength : Type := Strong | Medium | Weak.

Record Password : Type := mkPassword {
  password : string;
  pw_length : Z;
  strength : Strength
}.

Section Random.

(** [draw i n] is [Math.floor(Math.random() * n)] at the [i]-th call of
    [Math.random] in a run of the function. *)
Variable draw : nat -> nat -> nat.

(** [array.sort(() => Math.random() - 0.5)]: the order that results is
    left to the engine. *)
Variable shuffle : list ascii -> list ascii.

(** [chars] of [generatePassword]. *)
Definition chars (o : Options) : string :=
  (lowercase ++ (if with_uppercase o then uppercase else EmptyString)
   ++ (if with_numbers o then numbers else EmptyString)
   ++ (if with_symbols o then symbols else EmptyString))%string.

(** One character of each category that is switched on, then a small
    letter; with the number of calls of [Math.random] made. *)
Definition one_of_each (o : Options) : string * nat :=
  let p := EmptyString in
  let i := 0%nat in
  let '(p, i) := if with_uppercase o
                 then ((p ++ at_index uppercase (draw i (String.length uppercase)))%string, S i)
                 else (p, i) in
  let '(p, i) := if with_numbers o
                 then ((p ++ at_index numbers (draw i (String.length numbers)))%string, S i)
                 else (p, i) in
  let '(p, i) := if with_symbols o
                 then ((p ++ at_index symbols (draw i (String.length symbols)))%string, S i)
                 else (p, i) in
  ((p ++ at_index lowercase (draw i (String.length lowercase)))%string, S i).

(** [n] rounds of [text += alphabet.charAt(Math.floor(Math.random() *
    alphabet.length))], from the [i]-th call of [Math.random]. *)
Fixpoint fill (n i : nat) (alphabet text : string) : string :=
  match n with
  | O => text
  | S n' =>
      fill n' (S i) alphabet
        (text ++ charAt alphabet (draw i (String.length alphabet)))%string
  end.

(** [generatePassword(length, options)] for an integer [length]. The loop
    [for (let i = password.length; i < length; i++)] makes
    [length - password.length] rounds, or none. *)
Definition generatePassword (length : Z) (o : Options) : Password :=
  let '(start, i) := one_of_each o in
  let rounds := Z.to_nat (length - Z.of_nat (String.length start)) in
  let filled := fill rounds i (chars o) start in
  {| password := string_of_list_ascii (shuffle (list_ascii_of_string filled));
     pw_length := length;
     strength := if 16 <=? length then Strong
                 else if 12 <=? length then Medium else Weak |}.

(** [generateShortHash(length)] for an integer [length]: the hash. *)
Definition generateShortHash (length : Z) : string :=
  fill (Z.to_nat length) 0 hash_chars EmptyString.

End Random.

(** *** Notions used in the statements *)

(** The number of categories: the small letters and those switched on. *)
Definition categories (o : Options) : Z :=
  1 + (if with_uppercase o then 1 else 0) + (if with_numbers o then 1 else 0)
  + (if with_symbols o then 1 else 0).

(** The characters of a text. *)
Definition letters (s : string) : list ascii := list_ascii_of_string s.

(** The text holds a character of the alphabet. *)
Definition has_one_of (alphabet text : string) : Prop :=
  exists c, In c (letters text) /\ In c (letters alphabet).

(** The text holds characters of the alphabet only. *)
Definition made_of (alphabet text : string) : Prop :=
  Forall (fun c => In c (letters alphabet)) (letters text).

(** A source of randomness that always gives the first element, and an
    engine whose sort reverses. *)
Definition first_one (i n : nat) : nat := 0%nat.
Definition reversing (l : list ascii) : list ascii := List.rev l.

End Utility.

(* ================================================================= *)
(** ** services/mathService.js: [convertUnits] *)

Module UnitConverter.

Import JsString JsObject.

(** [conversions], in the order of the object literal. *)
Definition conversions : list (string * Q) :=
  [ ("km_miles", 0.621371); ("miles_km", 1.60934);
    ("meters_feet", 3.28084); ("feet_meters", 0.3048);
    ("cm_inches", 0.393701); ("inches_cm", 2.54);
    ("meters_yards", 1.09361); ("yards_meters", 0.9144);
    ("m_ft", 3.28084); ("ft_m", 0.3048);
    ("km_m", 1000); ("m_km", 0.001);
    ("mi_km", 1.60934); ("km_mi", 0.621371);
    ("kg_pounds", 2.20462); ("pounds_kg", 0.453592);
    ("kg_lbs", 2.20462); ("lbs_kg", 0.453592);
    ("kg_ounces", 35.274); ("ounces_kg", 0.0283495);
    ("grams_ounces", 0.035274); ("ounces_grams", 28.3495);
    ("g_oz", 0.035274); ("oz_g", 28.3495);
    ("liters_gallons", 0.264172); ("gallons_liters", 3.78541);
    ("l_gal", 0.264172); ("gal_l", 3.78541);
    ("ml_floz", 0.033814); ("floz_ml", 29.5735);
    ("sqm_sqft", 10.7639); ("sqft_sqm", 0.092903);
    ("hectares_acres", 2.47105); ("acres_hectares", 0.404686);
    ("kmh_mph", 0.621371); ("mph_kmh", 1.60934);
    ("ms_kmh", 3.6); ("kmh_ms", 0.277778);
    ("gb_mb", 1024); ("mb_gb", 0.000976563);
    ("tb_gb", 1024); ("gb_tb", 0.000976563);
    ("kb_mb", 0.000976563); ("mb_kb", 1024) ]%Q.

(** The four temperature formulas. *)
Inductive Formula : Type :=
| celsius_to_fahrenheit | fahrenheit_to_celsius
| celsius_to_kelvin | kelvin_to_celsius.

(** The first of the four temperature tests that holds. *)
Definition temperature (from to : string) : option Formula :=
  if (String.eqb from "celsius" || String.eqb from "c")
     && (String.eqb to "fahrenheit" || String.eqb to "f")
  then Some celsius_to_fahrenheit
  else if (String.eqb from "fahrenheit" || String.eqb from "f")
          && (String.eqb to "celsius" || String.eqb to "c")
  then Some fahrenheit_to_celsius
  else if (String.eqb from "celsius" || String.eqb from "c")
          && (String.eqb to "kelvin" || String.eqb to "k")
  then Some celsius_to_kelvin
  else if (String.eqb from "kelvin" || String.eqb from "k")
          && (String.eqb to "celsius" || String.eqb to "c")
  then Some kelvin_to_celsius
  else None.

(** [`${from}_${to}`] *)
Definition key_of (from to : string) : string := (from ++ "_" ++ to)%string.

(** How a result was computed: the fields [formula] or [factor]. *)
Inductive How : Type :=
| formula (f : Formula)
| factor (q : Q)
| factor_member (name : string).   (* a member of [Object.prototype] *)

Section WithNumbers.

(** The numbers and their arithmetic are those of the engine. *)
Context {Num : Type}.
Variable apply_formula : Formula -> Num -> Num.   (* (value * 9/5) + 32, ... *)
Variable times : Num -> Q -> Num.                 (* value * factor *)
Variable times_member : Num -> string -> Num.     (* value * member *)

Record Converted : Type := mkConverted {
  value : Num;
  fromUnit : string;
  toUnit : string;
  result : Num;
  how : How
}.

Definition convertUnits (value : Num) (fromUnit toUnit : string) : option Converted :=
  let from := toLowerCase fromUnit in
  let to := toLowerCase toUnit in
  match temperature from to with
  | Some f => Some (mkConverted value fromUnit toUnit (apply_formula f value) (formula f))
  | None =>
      match get_property conversions (key_of from to) with
      | Own q =>
          if Qeq_bool q 0 then None
          else Some (mkConverted value fromUnit toUnit (times value q) (factor q))
      | Inherited name =>
          Some (mkConverted value fromUnit toUnit (times_member value name)
                  (factor_member name))
      | Missing => None
      end
  end.

End WithNumbers.

(** *** Notions used in the statements *)

(** No underscore in the text. *)
Definition plain (s : string) : bool :=
  all_chars (fun c => negb (Ascii.eqb c "_")) s.

(** The two units of a key. *)
Fixpoint split_key (key : string) : string * string :=
  match key with
  | EmptyString => (EmptyString, EmptyString)
  | String c rest =>
      if Ascii.eqb c "_" then (EmptyString, rest)
      else let '(a, b) := split_key rest in (String c a, b)
  end.

(** The pairs of units of the table. *)
Definition unit_pairs : list (string * string) :=
  List.map (fun e => split_key e.1) conversions.

(** The key of the two units is the name of an inherited member. *)
Definition inherited (from to : string) : bool :=
  existsb (String.eqb (key_of (toLowerCase from) (toLowerCase to))) prototype_members.

(** Sample arithmetic on exact rationals. *)
Definition exact_formula (f : Formula) (v : Q) : Q :=
  match f with
  | celsius_to_fahrenheit => v * 9 / 5 + 32
  | fahrenheit_to_celsius => (v - 32) * 5 / 9
  | celsius_to_kelvin => v + 273.15
  | kelvin_to_celsius => v - 273.15
  end%Q.
Definition exact_times (v q : Q) : Q := (v * q)%Q.
Definition no_number (v : Q) (name : string) : Q := 0%Q.

End UnitConverter.

(* ================================================================= *)
(** * Properties *)

Ltac split_all := repeat match goal with |- _ /\ _ => split end.

Ltac each_char c := destruct c as [[] [] [] [] [] [] [] []]; vm_compute; try done.

(* ----------------------------------------------------------------- *)
(** ** Number values *)

Section Binary64Facts.

Import Js.
Local Open Scope Q_scope.

Lemma two_pos e : 0 < 2 ^ e.
Proof. by apply Qpower_0_lt. Qed.

Lemma two_plus a b : 2 ^ (a + b) == 2 ^ a * 2 ^ b.
Proof. by apply Qpower_plus. Qed.

Lemma two_succ a : 2 ^ (a + 1) == 2 * 2 ^ a.
Proof. rewrite two_plus. change (2 ^ 1) with 2. ring. Qed.

Lemma two_le a b : (a <= b)%Z -> 2 ^ a <= 2 ^ b.
Proof. intros H. by apply Qpower_le_compat_l. Qed.

Lemma two_lt a b : (a < b)%Z -> 2 ^ a < 2 ^ b.
Proof. intros H. by apply Qpower_lt_compat_l. Qed.

Lemma two_inject k : (0 <= k)%Z -> inject_Z (2 ^ k) == 2 ^ k.
Proof. intros H. by rewrite Zpower_Qpower. Qed.

Lemma scaled_spec x e : scaled x e * 2 ^ e == x.
Proof. unfold scaled. field. pose proof (two_pos e). lra. Qed.

(** *** Rounding to an integer *)

Lemma round_half_even_spec t :
  let m := round_half_even t in
  Qabs (t - inject_Z m) <= 1 # 2
  /\ (Qabs (t - inject_Z m) == 1 # 2 -> Z.even m = true).
Proof.
  unfold round_half_even.
  pose proof (Qfloor_le t) as H1. pose proof (Qlt_floor t) as H2.
  set (f := Qfloor t) in *.
  rewrite inject_Z_plus in H2. change (inject_Z 1) with 1 in H2.
  destruct (Qcompare_spec (t - inject_Z f) (1 # 2)) as [H|H|H].
  - destruct (Z.even f) eqn:E.
    + split; [|done]. rewrite Qabs_pos by lra. lra.
    + split.
      * rewrite inject_Z_plus. change (inject_Z 1) with 1. rewrite Qabs_neg by lra. lra.
      * intros _. rewrite Z.even_add. rewrite E. done.
  - split.
    + rewrite Qabs_pos by lra. lra.
    + rewrite Qabs_pos by lra. intros H'. lra.
  - rewrite inject_Z_plus. change (inject_Z 1) with 1. split.
    + rewrite Qabs_neg by lra. lra.
    + rewrite Qabs_neg by lra. intros H'. lra.
Qed.

Ltac qabs :=
  repeat match goal with
  | |- context [Qabs ?a] => pattern (Qabs a); apply Qabs_case; intro
  end; intros.

(** An integer within a half of [t] is between the integers around [t]. *)
Lemma near_integer_bounds t (m a b : Z) :
  Qabs (t - inject_Z m) <= 1 # 2 ->
  (inject_Z a <= t -> (a <= m)%Z) /\ (t < inject_Z b -> (m <= b)%Z).
Proof.
  intros H. apply Qabs_Qle_condition in H as [H1 H2]. split; intros H3.
  - assert (inject_Z a < inject_Z (m + 1)) as H4
      by (rewrite inject_Z_plus; change (inject_Z 1) with 1; lra).
    rewrite <- Zlt_Qlt in H4. lia.
  - assert (inject_Z m < inject_Z (b + 1)) as H4
      by (rewrite inject_Z_plus; change (inject_Z 1) with 1; lra).
    rewrite <- Zlt_Qlt in H4. lia.
Qed.

(** It is as near to [t] as any integer, and nearer unless [t] is half way. *)
Lemma near_integer t (m k : Z) :
  Qabs (t - inject_Z m) <= 1 # 2 ->
  Qabs (t - inject_Z m) <= Qabs (t - inject_Z k)
  /\ (k <> m -> Qabs (t - inject_Z k) == Qabs (t - inject_Z m) ->
      Qabs (t - inject_Z m) == 1 # 2).
Proof.
  intros H. destruct (Z.eq_dec k m) as [->|Hne]; [split; [lra|done]|].
  assert (inject_Z k <= inject_Z m - 1 \/ inject_Z m + 1 <= inject_Z k) as Hk.
  { destruct (Z_lt_le_dec k m) as [Hlt|Hge].
    - left. assert (k + 1 <= m)%Z as H' by lia. rewrite Zle_Qle in H'.
      rewrite inject_Z_plus in H'. change (inject_Z 1) with 1 in H'. lra.
    - right. assert (m + 1 <= k)%Z as H' by lia. rewrite Zle_Qle in H'.
      rewrite inject_Z_plus in H'. change (inject_Z 1) with 1 in H'. lra. }
  revert H. qabs; split; intros; destruct Hk; lra.
Qed.

(** The same on a grid of step [g]. *)
Lemma near_grid x g t (m k : Z) :
  0 < g -> x == t * g -> Qabs (t - inject_Z m) <= 1 # 2 ->
  Qabs (x - inject_Z m * g) <= Qabs (x - inject_Z k * g)
  /\ (k <> m -> Qabs (x - inject_Z k * g) == Qabs (x - inject_Z m * g) ->
      Qabs (t - inject_Z m) == 1 # 2).
Proof.
  intros Hg Hx Hm.
  assert (Hs : forall j : Z, Qabs (x - inject_Z j * g) == Qabs (t - inject_Z j) * g).
  { intros j. rewrite Hx.
    setoid_replace (t * g - inject_Z j * g) with ((t - inject_Z j) * g)
      using relation Qeq by ring.
    rewrite Qabs_Qmult. rewrite (Qabs_pos g) by lra. reflexivity. }
  destruct (near_integer t m k Hm) as [H1 H2]. rewrite !Hs. split.
  - apply Qmult_le_compat_r; lra.
  - intros Hne Heq. apply H2; [done|].
    apply (Qmult_inj_r _ _ g); [lra|done].
Qed.

(** *** The exponent *)

Lemma scaled_lt x e c : x < c * 2 ^ e <-> scaled x e < c.
Proof.
  pose proof (two_pos e) as Hg. pose proof (scaled_spec x e) as Hs. split; intros H.
  - apply (Qmult_lt_r _ _ (2 ^ e)); [done|]. by rewrite Hs.
  - rewrite <- Hs. by apply Qmult_lt_r.
Qed.

Lemma scaled_le x e c : c * 2 ^ e <= x <-> c <= scaled x e.
Proof.
  pose proof (two_pos e) as Hg. pose proof (scaled_spec x e) as Hs. split; intros H.
  - apply (Qmult_le_r _ _ (2 ^ e)); [done|]. by rewrite Hs.
  - rewrite <- Hs. by apply Qmult_le_r.
Qed.

Lemma log2_bounds (n : Z) :
  (0 < n)%Z -> 2 ^ Z.log2 n <= inject_Z n /\ inject_Z n < 2 ^ (Z.log2 n + 1).
Proof.
  intros Hn. destruct (Z.log2_spec n Hn) as [H1 H2].
  pose proof (Z.log2_nonneg n) as H0.
  rewrite Zle_Qle in H1. rewrite Zlt_Qlt in H2.
  rewrite two_inject in H1 by done. rewrite two_inject in H2 by lia.
  by split.
Qed.

Lemma exponent_spec x :
  0 < x ->
  let e := exponent x in
  (-1074 <= e)%Z /\ scaled x e < 2 ^ 53 /\ ((-1074 < e)%Z -> 2 ^ 52 <= scaled x e).
Proof.
  intros Hx. unfold exponent.
  set (a := Z.log2 (Qnum x)). set (b := Z.log2 (Zpos (Qden x))).
  set (e0 := (a - b - 52)%Z).
  assert (Hn : (0 < Qnum x)%Z).
  { destruct x as [n d]. unfold Qlt in Hx. simpl in *. lia. }
  destruct (log2_bounds (Qnum x) Hn) as [Ha1 Ha2]. fold a in Ha1, Ha2.
  destruct (log2_bounds (Zpos (Qden x)) eq_refl) as [Hb1 Hb2]. fold b in Hb1, Hb2.
  assert (Hxd : x * inject_Z (Zpos (Qden x)) == inject_Z (Qnum x)).
  { destruct x as [n d]. simpl. rewrite (Qmake_Qdiv n d). field.
    intros H. unfold Qeq in H. simpl in H. lia. }
  set (N := inject_Z (Qnum x)) in *. set (Dq := inject_Z (Zpos (Qden x))) in *.
  assert (Hhi : x < 2 ^ 53 * 2 ^ e0).
  { assert (E : 2 ^ 53 * 2 ^ e0 * 2 ^ b == 2 ^ (a + 1)).
    { rewrite <- !two_plus. by replace (53 + e0 + b)%Z with (a + 1)%Z by lia. }
    pose proof (two_pos b). pose proof (two_pos e0).
    apply (Qmult_lt_r _ _ (2 ^ b)); [done|]. rewrite E.
    apply Qle_lt_trans with (x * Dq); [|by rewrite Hxd].
    apply Qmult_le_l; [done|done]. }
  assert (Hlo : 2 ^ 51 * 2 ^ e0 < x).
  { assert (E : 2 ^ 51 * 2 ^ e0 * 2 ^ (b + 1) == 2 ^ a).
    { rewrite <- !two_plus. by replace (51 + e0 + (b + 1))%Z with a by lia. }
    pose proof (two_pos (b + 1)).
    apply (Qmult_lt_r _ _ (2 ^ (b + 1))); [done|]. rewrite E.
    apply Qle_lt_trans with (x * Dq); [by rewrite Hxd|].
    by apply Qmult_lt_l. }
  set (e1 := if Qle_bool (2 ^ 52) (scaled x e0) then e0 else (e0 - 1)%Z).
  assert (H1 : 2 ^ 52 <= scaled x e1 /\ scaled x e1 < 2 ^ 53).
  { unfold e1. destruct (Qle_bool (2 ^ 52) (scaled x e0)) eqn:E.
    - apply Qle_bool_iff in E. split; [done|]. exact (proj1 (scaled_lt x e0 (2 ^ 53)) Hhi).
    - assert (scaled x e0 < 2 ^ 52) as E'.
      { apply Qnot_le_lt. intros H. apply Qle_bool_iff in H. congruence. }
      assert (G : 2 ^ e0 == 2 * 2 ^ (e0 - 1)).
      { rewrite <- two_succ. by replace (e0 - 1 + 1)%Z with e0 by lia. }
      apply (scaled_lt x e0 (2 ^ 52)) in E'.
      assert (T52 : 2 ^ 52 == 2 * 2 ^ 51) by apply (two_succ 51).
      assert (T53 : 2 ^ 53 == 2 * 2 ^ 52) by apply (two_succ 52).
      rewrite G in Hlo, E'. split.
      + apply (scaled_le x (e0 - 1) (2 ^ 52)). rewrite T52.
        set (u := 2 ^ 51) in *. set (v := 2 ^ (e0 - 1)) in *. lra.
      + apply (scaled_lt x (e0 - 1) (2 ^ 53)). rewrite T53.
        set (u := 2 ^ 52) in *. set (v := 2 ^ (e0 - 1)) in *. lra. }
  clearbody e1. destruct H1 as [H1 H2].
  destruct (Z_le_gt_dec (-1074) e1) as [Hle|Hgt].
  - rewrite Z.max_l by done. by split_and!.
  - rewrite Z.max_r by lia. split; [lia|]. split; [|lia].
    apply (scaled_lt x (-1074) (2 ^ 53)). apply (scaled_lt x e1 (2 ^ 53)) in H2.
    assert (2 ^ e1 <= 2 ^ (-1074)) by (apply two_le; lia).
    pose proof (two_pos e1). pose proof (two_pos (-1074)).
    apply Qlt_le_trans with (2 ^ 53 * 2 ^ e1); [done|].
    apply Qmult_le_l; [|done]. reflexivity.
Qed.

(** *** The Number value *)

Lemma binary64_nonneg z : binary64 z -> 0 <= z.
Proof.
  intros (m & e & [Hm _] & _ & ->). pose proof (two_pos e).
  rewrite Zle_Qle in Hm. change (inject_Z 0) with 0 in Hm.
  apply Qmult_le_0_compat; lra.
Qed.

(** A binary64 number with an exponent of at least [e] is on the grid of
    step [2^e]. *)
Lemma binary64_on_grid (m' e' e : Z) :
  (e <= e')%Z -> inject_Z m' * 2 ^ e' == inject_Z (m' * 2 ^ (e' - e)) * 2 ^ e.
Proof.
  intros H. rewrite inject_Z_mult, two_inject by lia.
  rewrite <- Qmult_assoc, <- two_plus. by replace (e' - e + e)%Z with e' by lia.
Qed.

Lemma two_lt_inv a b : 2 ^ a < 2 ^ b -> (a < b)%Z.
Proof. intros H. by apply (Qpower_lt_compat_l_inv 2). Qed.

Theorem round64_nearest x : 0 <= x -> nearest64 x (round64 x).
Proof.
  intros Hx. unfold round64.
  assert (F1 : 2 ^ 971 == 2 * 2 ^ 970) by apply (two_succ 970).
  assert (F2 : 2 ^ 1024 == 2 ^ 53 * 2 ^ 971) by apply (two_plus 53 971).
  assert (F3 : 2 ^ 1024 == 2 ^ 52 * 2 ^ 972) by apply (two_plus 52 972).
  assert (F4 : 2 ^ 53 == 2 * 2 ^ 52) by apply (two_succ 52).
  assert (I53 : inject_Z (2 ^ 53) == 2 ^ 53) by (by apply two_inject).
  assert (I52 : inject_Z (2 ^ 52) == 2 ^ 52) by (by apply two_inject).
  pose proof (two_pos 970) as P970. pose proof (two_pos 52) as P52.
  destruct (Qle_bool x 0) eqn:E0.
  { apply Qle_bool_iff in E0. assert (x == 0) as Hx0 by lra. cbn [nearest64].
    split; [rewrite F2, F1, F4, Hx0; set (u := 2 ^ 970) in *; set (v := 2 ^ 52) in *; nra|].
    split; [exists 0%Z, 0%Z; split; [done|]; split; [lia|reflexivity]|].
    split.
    - intros z Hz. apply binary64_nonneg in Hz. qabs; lra.
    - intros z Hz Hne Htie. apply binary64_nonneg in Hz. exfalso. apply Hne.
      revert Htie. qabs; lra. }
  assert (Hpos : 0 < x).
  { apply Qnot_le_lt. intros H. apply Qle_bool_iff in H. congruence. }
  destruct (exponent_spec x Hpos) as (He & Ht53 & Ht52).
  set (e := exponent x) in *. set (t := scaled x e) in *.
  destruct (round_half_even_spec t) as [Hm Heven].
  set (m := round_half_even t) in *. cbv zeta.
  pose proof (two_pos e) as Pg. pose proof (scaled_spec x e) as Hxt. fold t in Hxt.
  set (g := 2 ^ e) in *.
  assert (Ht0 : 0 < t).
  { apply (Qmult_lt_r _ _ g); [done|]. rewrite Hxt. lra. }
  assert (Hm0 : (0 <= m)%Z).
  { apply (proj1 (near_integer_bounds t m 0 0 Hm)). change (inject_Z 0) with 0. lra. }
  assert (Hm53 : (m <= 2 ^ 53)%Z).
  { apply (proj2 (near_integer_bounds t m 0 (2 ^ 53) Hm)). by rewrite I53. }
  assert (Hm52 : (-1074 < e)%Z -> (2 ^ 52 <= m)%Z).
  { intros H. apply (proj1 (near_integer_bounds t m (2 ^ 52) 0 Hm)). rewrite I52. by apply Ht52. }
  assert (Hm0q : 0 <= inject_Z m) by (by rewrite Zle_Qle in Hm0).
  assert (Hm53q : inject_Z m <= 2 ^ 53) by (rewrite <- I53; by rewrite <- Zle_Qle).
  assert (Hm52q : (-1074 < e)%Z -> 2 ^ 52 <= inject_Z m).
  { intros H. rewrite <- I52. rewrite <- Zle_Qle. by apply Hm52. }
  (* x is within half a step of y *)
  assert (Hnear : inject_Z m * g - g * (1 # 2) <= x /\ x <= inject_Z m * g + g * (1 # 2)).
  { apply Qabs_Qle_condition in Hm as [H1 H2]. rewrite <- Hxt. split; nra. }
  set (y := inject_Z m * g) in *.
  destruct (Qle_bool (2 ^ 1024) y) eqn:Ey.
  { apply Qle_bool_iff in Ey. cbn [nearest64].
    destruct (Z_le_gt_dec e 971) as [Hle|Hgt].
    - assert (g <= 2 ^ 971) by (by apply two_le).
      set (u := 2 ^ 970) in *. set (v := 2 ^ 971) in *. set (w := 2 ^ 1024) in *. lra.
    - assert (2 ^ 972 <= g) by (apply two_le; lia).
      assert (2 ^ 52 <= t) by (apply Ht52; lia).
      pose proof (two_pos 972).
      rewrite <- Hxt, F3.
      set (u := 2 ^ 970) in *. set (v := 2 ^ 972) in *. set (w := 2 ^ 52) in *.
      assert (w * v <= t * g) by (apply Qmult_le_compat_nonneg; split; lra).
      lra. }
  assert (Hy : y < 2 ^ 1024).
  { apply Qnot_le_lt. intros H. apply Qle_bool_iff in H. congruence. }
  clear Ey.
  assert (He971 : (e <= 971)%Z).
  { destruct (Z_le_gt_dec e (-1074)) as [|Hgt]; [lia|].
    assert (2 ^ 52 * g <= y) as H by (apply Qmult_le_compat_r; [apply Hm52q; lia|lra]).
    assert (g < 2 ^ 972) as H'.
    { apply (Qmult_lt_l _ _ (2 ^ 52)); [done|]. rewrite <- F3. lra. }
    apply two_lt_inv in H'. lia. }
  (* the representation of y *)
  assert (Hrep : exists m1 e1,
             (-1074 <= e1 <= 971)%Z
             /\ ((2 ^ 52 <= m1 < 2 ^ 53)%Z \/ (e1 = (-1074)%Z /\ (0 <= m1 < 2 ^ 52)%Z))
             /\ y == inject_Z m1 * 2 ^ e1 /\ Z.even m1 = Z.even m).
  { destruct (Z.eq_dec m (2 ^ 53)%Z) as [Heq|Hne].
    - exists (2 ^ 52)%Z, (e + 1)%Z.
      assert (e < 971)%Z.
      { assert (g < 2 ^ 971) as H'.
        { apply (Qmult_lt_l _ _ (2 ^ 53)); [lra|]. rewrite <- F2.
          unfold y in Hy. rewrite Heq, I53 in Hy. done. }
        by apply two_lt_inv in H'. }
      split; [lia|]. split; [left; lia|]. split.
      + unfold y. rewrite Heq, I53, I52, two_succ. fold g. rewrite F4. ring.
      + by rewrite Heq.
    - exists m, e. split; [lia|]. split; [|done].
      destruct (Z_le_gt_dec e (-1074)) as [Hle|Hgt].
      + destruct (Z_lt_le_dec m (2 ^ 52)%Z); [right; lia|left; lia].
      + left. specialize (Hm52 ltac:(lia)). lia. }
  cbn [nearest64]. split; [|split; [|split]].
  - (* below the threshold *)
    apply Qnot_le_lt. intros Hbig.
    destruct (Z_le_gt_dec e 970) as [Hle|Hgt].
    + assert (g <= 2 ^ 970) by (by apply two_le).
      assert (t * g <= 2 ^ 53 * 2 ^ 970) by (apply Qmult_le_compat_nonneg; split; lra).
      rewrite Hxt in *. rewrite F2, F1 in Hbig.
      set (u := 2 ^ 970) in *. set (v := 2 ^ 53) in *. set (w := 2 ^ 52) in *. nra.
    + assert (Hg971 : g == 2 ^ 971) by (unfold g; by replace e with 971%Z by lia).
      assert (inject_Z m < 2 ^ 53) as Hlt.
      { apply (Qmult_lt_r _ _ g); [done|]. change (y < 2 ^ 53 * g).
        rewrite Hg971, <- F2. exact Hy. }
      assert (2 ^ 53 - (1 # 2) <= t) as Hth.
      { apply (Qmult_le_r _ _ g); [done|]. rewrite Hxt, Hg971.
        rewrite F2, F1 in Hbig. rewrite F1.
        set (u := 2 ^ 970) in *. set (v := 2 ^ 53) in *. lra. }
      assert (m = 2 ^ 53 - 1)%Z as Hmv.
      { assert (inject_Z (2 ^ 53 - 1) <= t) as H.
        { unfold Z.sub. rewrite inject_Z_plus, I53. change (inject_Z (- (1))) with (-1). lra. }
        pose proof (proj1 (near_integer_bounds t m (2 ^ 53 - 1) 0 Hm) H).
        rewrite <- I53 in Hlt. rewrite <- Zlt_Qlt in Hlt. lia. }
      assert (Qabs (t - inject_Z m) == 1 # 2) as Htie.
      { apply Qabs_Qle_condition in Hm as [H1 H2].
        assert (inject_Z m == 2 ^ 53 - 1) as Hq.
        { rewrite Hmv. unfold Z.sub. rewrite inject_Z_plus, I53.
          change (inject_Z (- (1))) with (-1). ring. }
        rewrite Qabs_pos; lra. }
      apply Heven in Htie. rewrite Hmv in Htie. done.
  - destruct Hrep as (m1 & e1 & Hb & Hc & Hyq & _).
    exists m1, e1. rewrite Qred_correct. split; [|by split].
    destruct Hc as [?|[_ ?]]; lia.
  - intros z (m' & e' & Hm' & He' & Hz). rewrite Qred_correct.
    destruct (Z_le_gt_dec e e') as [Hle|Hgt].
    + rewrite Hz, (binary64_on_grid m' e' e Hle). fold g.
      by apply (near_grid x g t m _ Pg (Qeq_sym _ _ Hxt) Hm).
    + assert (z < 2 ^ 52 * g /\ 2 ^ 52 * g <= x /\ Qabs (x - y) <= x - 2 ^ 52 * g)
        as (Hz1 & Hz2 & Hz3).
      { assert (2 ^ 52 <= t) as Ht by (apply Ht52; lia).
        assert (2 ^ e' * 2 <= g) as Hg'.
        { rewrite Qmult_comm, <- two_succ. apply two_le. lia. }
        pose proof (two_pos e') as Pe'.
        assert (inject_Z m' < 2 ^ 53) as Hm'q.
        { rewrite <- I53. rewrite <- Zlt_Qlt. lia. }
        assert (Hx52 : 2 ^ 52 * g <= x).
        { rewrite <- Hxt. apply Qmult_le_compat_r; lra. }
        split; [|split; [done|]].
        - rewrite Hz. apply Qlt_le_trans with (2 ^ 53 * 2 ^ e').
          + apply Qmult_lt_r; done.
          + rewrite F4. set (v := 2 ^ 52) in *. set (u := 2 ^ e') in *. nra.
        - destruct (near_grid x g t m (2 ^ 52) Pg (Qeq_sym _ _ Hxt) Hm) as [H _].
          rewrite I52 in H. fold y in H. rewrite (Qabs_pos (x - 2 ^ 52 * g)) in H by lra.
          done. }
      apply Qle_trans with (x - 2 ^ 52 * g); [done|].
      rewrite (Qabs_pos (x - z)) by lra. lra.
  - intros z (m' & e' & Hm' & He' & Hz) Hne Htie.
    rewrite Qred_correct in Hne, Htie.
    destruct Hrep as (m1 & e1 & Hb & Hc & Hyq & Hev).
    exists m1, e1. rewrite Qred_correct. split; [done|]. split; [done|]. split; [done|].
    rewrite Hev. apply Heven.
    destruct (Z_le_gt_dec e e') as [Hle|Hgt].
    + rewrite Hz, (binary64_on_grid m' e' e Hle) in Hne, Htie. fold g in Hne, Htie.
      apply (proj2 (near_grid x g t m (m' * 2 ^ (e' - e))%Z Pg (Qeq_sym _ _ Hxt) Hm));
        [|done].
      intros Hk. apply Hne. by rewrite Hk.
    + exfalso.
      assert (2 ^ 52 <= t) as Ht by (apply Ht52; lia).
      assert (2 ^ e' * 2 <= g) as Hg'.
      { rewrite Qmult_comm, <- two_succ. apply two_le. lia. }
      pose proof (two_pos e') as Pe'.
      assert (inject_Z m' < 2 ^ 53) as Hm'q.
      { rewrite <- I53. rewrite <- Zlt_Qlt. lia. }
      assert (Hx52 : 2 ^ 52 * g <= x).
      { rewrite <- Hxt. apply Qmult_le_compat_r; lra. }
      assert (Hz1 : z < 2 ^ 52 * g).
      { rewrite Hz. apply Qlt_le_trans with (2 ^ 53 * 2 ^ e').
        - apply Qmult_lt_r; done.
        - rewrite F4. set (v := 2 ^ 52) in *. set (u := 2 ^ e') in *. nra. }
      destruct (near_grid x g t m (2 ^ 52) Pg (Qeq_sym _ _ Hxt) Hm) as [H _].
      rewrite I52 in H. fold y in H. rewrite (Qabs_pos (x - 2 ^ 52 * g)) in H by lra.
      rewrite (Qabs_pos (x - z)) in Htie by lra. lra.
Qed.

Lemma nearest64_wd x x' r : x == x' -> nearest64 x r -> nearest64 x' r.
Proof.
  intros Hx. destruct r as [| | |y]; cbn [nearest64]; try done.
  - intros H. lra.
  - intros (H1 & H2 & H3 & H4). split; [lra|]. split; [done|]. split.
    + intros z Hz. specialize (H3 z Hz).
      assert (E : forall w, Qabs (x' - w) == Qabs (x - w))
        by (intros w; apply Qabs_wd; lra).
      by rewrite !E.
    + intros z Hz Hne Htie. apply (H4 z Hz Hne).
      assert (E : forall w, Qabs (x' - w) == Qabs (x - w))
        by (intros w; apply Qabs_wd; lra).
      by rewrite <- !E.
Qed.

(** A number that binary64 has is its own Number value. *)
Lemma round64_exact x : binary64 x -> round64 x = Fin (Qred x).
Proof.
  intros Hb. pose proof (round64_nearest x (binary64_nonneg x Hb)) as Hn.
  assert (Hmax : x < 2 ^ 1024 - 2 ^ 970).
  { destruct Hb as (m & e & Hm & He & ->).
    assert (F1 : 2 ^ 971 == 2 * 2 ^ 970) by apply (two_succ 970).
    assert (F2 : 2 ^ 1024 == 2 ^ 53 * 2 ^ 971) by apply (two_plus 53 971).
    assert (I53 : inject_Z (2 ^ 53) == 2 ^ 53) by (by apply two_inject).
    assert (inject_Z m <= 2 ^ 53 - 1) as Hm'.
    { assert (m + 1 <= 2 ^ 53)%Z as H by lia. rewrite Zle_Qle, inject_Z_plus, I53 in H.
      change (inject_Z 1) with 1 in H. lra. }
    assert (0 <= inject_Z m) as Hm0 by (rewrite Zle_Qle in Hm; apply Hm).
    assert (2 ^ e <= 2 ^ 971) by (apply two_le; lia).
    pose proof (two_pos e). pose proof (two_pos 970).
    assert (inject_Z m * 2 ^ e <= (2 ^ 53 - 1) * 2 ^ 971)
      by (apply Qmult_le_compat_nonneg; split; lra).
    rewrite F2, F1 in *. set (u := 2 ^ 970) in *. set (v := 2 ^ 53) in *. lra. }
  revert Hn. unfold round64. destruct (Qle_bool x 0) eqn:E0.
  - intros _. apply Qle_bool_iff in E0. pose proof (binary64_nonneg x Hb).
    assert (x == 0) as H0 by lra. f_equal. symmetry. by apply (Qred_complete x 0).
  - cbv zeta. destruct (Qle_bool (2 ^ 1024) _); cbn [nearest64]; [lra|].
    intros (_ & _ & Hnear & _). f_equal. apply Qred_complete.
    specialize (Hnear x Hb). rewrite Qred_correct in Hnear.
    revert Hnear. qabs; lra.
Qed.

Lemma Qred_whole (n : Z) : Qred (inject_Z n) = inject_Z n.
Proof.
  unfold Qred, inject_Z.
  pose proof (Z.ggcd_gcd n 1) as Hg. pose proof (Z.ggcd_correct_divisors n 1) as Hd.
  destruct (Z.ggcd n 1) as (g & a & b). cbn [fst snd] in *.
  rewrite Z.gcd_1_r in Hg. subst g. destruct Hd as [Ha Hb].
  rewrite !Z.mul_1_l in *. by subst.
Qed.

(** A whole number below [2^53] is its own Number value. *)
Lemma round64_whole (n : Z) :
  (0 <= n < 2 ^ 53)%Z -> round64 (inject_Z n) = Fin (inject_Z n).
Proof.
  intros Hn. rewrite round64_exact.
  - f_equal. apply Qred_whole.
  - exists n, 0%Z. split; [done|]. split; [lia|]. change (2 ^ 0) with 1. ring.
Qed.

(** Without a sign the Number value is the rounded one. *)
Lemma number_value_plain q : number_value false q = round64 q.
Proof.
  unfold number_value, round64. destruct (Qle_bool q 0); [done|].
  cbv zeta. by destruct (Qle_bool (2 ^ 1024) _).
Qed.

End Binary64Facts.

(* ----------------------------------------------------------------- *)
(** ** Strings and the matcher *)

Section StringFacts.

Import Js JsString Regex.

(** *** Strings

    [String.append] does not unfold under [simpl]; its two equations are
    used as rewrite rules. *)
Lemma append_cons c (s t : string) : (String c s ++ t)%string = String c (s ++ t).
Proof. reflexivity. Qed.

Lemma append_nil (t : string) : (EmptyString ++ t)%string = t.
Proof. reflexivity. Qed.

Lemma length_append (s t : string) :
  String.length (s ++ t) = (String.length s + String.length t)%nat.
Proof.
  induction s as [|c s IH]; [done|]. rewrite append_cons. simpl. by rewrite IH.
Qed.

Lemma take_append (s t : string) : take (String.length s) (s ++ t) = s.
Proof.
  induction s as [|c s IH]; [by destruct t|]. rewrite append_cons. simpl. by rewrite IH.
Qed.

(** What a group records: the text between two positions. *)
Lemma consumed_append (s t : string) : consumed (s ++ t) t = s.
Proof.
  unfold consumed. rewrite length_append.
  replace (String.length s + String.length t - String.length t)%nat with (String.length s) by lia.
  apply take_append.
Qed.

Lemma append_assoc (s t u : string) : ((s ++ t) ++ u = s ++ (t ++ u))%string.
Proof. induction s as [|c s IH]; [done|]. rewrite !append_cons. by rewrite IH. Qed.

(** *** Repetition

    At a character outside the class nothing is taken. *)
Lemma rep_stops p g k prev s : stops p s = true -> rep p g k prev s = k prev s.
Proof.
  destruct s as [|c s]; [done|]. simpl. intros H. apply negb_true_iff in H.
  by rewrite H.
Qed.

(** A greedy repetition in front of a stretch [w] of its class that ends
    at a character outside the class: if the rest of the pattern succeeds
    after the whole of [w], that is the match, the first choice at every
    character being to go on. *)
Lemma rep_greedy_all p k w : forall prev rest res,
  all_chars p w = true -> stops p rest = true ->
  k (last_char prev w) rest = Some res ->
  rep p true k prev (w ++ rest) = Some res.
Proof.
  induction w as [|c w IH]; intros prev rest res Hall Hstop Hk.
  - rewrite append_nil. by rewrite rep_stops.
  - simpl in Hall. apply andb_true_iff in Hall as [Hc Hall].
    rewrite append_cons. cbn [rep]. rewrite Hc.
    by rewrite (IH (Some c) rest res Hall Hstop Hk).
Qed.

Lemma plus_all ci cs cp prev w rest k res :
  w <> EmptyString ->
  all_chars (cmatch ci cs) w = true -> stops (cmatch ci cs) rest = true ->
  k cp (last_char prev w) rest = Some res ->
  m ci (plus cs) cp prev (w ++ rest) k = Some res.
Proof.
  intros Hne Hall Hstop Hk. destruct w as [|c w]; [done|].
  simpl in Hall. apply andb_true_iff in Hall as [Hc Hall].
  unfold plus. rewrite append_cons. cbn [m]. rewrite Hc.
  by apply rep_greedy_all.
Qed.

Lemma star_all ci cs cp prev w rest k res :
  all_chars (cmatch ci cs) w = true -> stops (cmatch ci cs) rest = true ->
  k cp (last_char prev w) rest = Some res ->
  m ci (star cs) cp prev (w ++ rest) k = Some res.
Proof. intros. unfold star. cbn [m]. by apply rep_greedy_all. Qed.

(** A group around a pattern that takes exactly [w] records [w]. *)
Lemma group_all ci n r cp prev w rest k res :
  (forall k', k' cp (last_char prev w) rest = Some res ->
     m ci r cp prev (w ++ rest) k' = Some res) ->
  k ((n, w) :: cp) (last_char prev w) rest = Some res ->
  m ci (Grp n r) cp prev (w ++ rest) k = Some res.
Proof.
  intros Hr Hk. cbn [m]. apply Hr. by rewrite consumed_append.
Qed.

Lemma take_all (s : string) : take (String.length s) s = s.
Proof. induction s as [|c s IH]; [done|]. simpl. by rewrite IH. Qed.

Lemma consumed_all (s : string) : consumed s EmptyString = s.
Proof. unfold consumed. simpl. rewrite Nat.sub_0_r. apply take_all. Qed.

(** *** Sequences, literals, alternatives *)
Lemma m_seq ci a b cp prev s k :
  m ci (Seq a b) cp prev s k = m ci a cp prev s (fun cp' prev' s' => m ci b cp' prev' s' k).
Proof. done. Qed.

Lemma same_char_refl ci c : same_char ci c c = true.
Proof. unfold same_char. destruct ci; apply Ascii.eqb_refl. Qed.

(** A literal in front of its own text. *)
Lemma m_lit ci w : forall cp prev rest k,
  m ci (lit w) cp prev (w ++ rest) k = k cp (last_char prev w) rest.
Proof.
  induction w as [|c w IH]; intros cp prev rest k; [done|].
  rewrite append_cons. destruct w as [|c' w].
  - cbn [lit m cmatch imatch]. by rewrite same_char_refl.
  - change (lit (String c (String c' w)))
      with (Seq (Chr (COne (IChar c))) (lit (String c' w))).
    cbn [m cmatch imatch]. rewrite same_char_refl. by rewrite IH.
Qed.

Lemma m_alt_left ci a b cp prev s k res :
  m ci a cp prev s k = Some res -> m ci (Alt a b) cp prev s k = Some res.
Proof. intros H. cbn [m]. by rewrite H. Qed.

Lemma last_char_append prev (a b : string) :
  last_char prev (a ++ b) = last_char (last_char prev a) b.
Proof.
  revert prev. induction a as [|c a IH]; intros prev; [done|].
  rewrite append_cons. simpl. apply IH.
Qed.

(** A stretch of class [q] stops every class [p] disjoint from [q]. *)
Lemma stops_append p q (w rest : string) :
  w <> EmptyString -> all_chars q w = true ->
  (forall c, q c = true -> p c = false) ->
  stops p (w ++ rest) = true.
Proof.
  intros Hne Hall Hpq. destruct w as [|c w]; [done|].
  rewrite append_cons. simpl in *. apply andb_true_iff in Hall as [Hc _].
  by rewrite (Hpq c Hc).
Qed.

(** *** Character classes, by inspection of the 256 code units *)
Lemma digit_not_space c : is_digit c = true -> is_space c = false.
Proof. by each_char c. Qed.

Lemma word_not_space c : is_word c = true -> is_space c = false.
Proof. by each_char c. Qed.

Lemma digit_is_word c : is_digit c = true -> is_word c = true.
Proof. by each_char c. Qed.

(** A pattern that starts with [^] does not match after the first
    position. *)
Lemma search_bol ci r s : forall c pos, search ci (Seq Bol r) (Some c) s pos = None.
Proof. induction s as [|d s IH]; intros c pos; [done|]. cbn. apply IH. Qed.

(** *** Case mapping *)
Lemma map_chars_append f (s t : string) :
  map_chars f (s ++ t) = (map_chars f s ++ map_chars f t)%string.
Proof. induction s as [|c s IH]; [done|]. rewrite append_cons. simpl. by rewrite IH. Qed.

Lemma lower_digits s : all_chars is_digit s = true -> toLowerCase s = s.
Proof.
  induction s as [|c s IH]; [done|]. simpl. intros H.
  apply andb_true_iff in H as [Hc H].
  change (String (lower_char c) (toLowerCase s) = String c s).
  rewrite (IH H). f_equal. revert Hc. clear. by each_char c.
Qed.

Lemma lower_word s : all_chars is_word s = true -> all_chars is_word (toLowerCase s) = true.
Proof.
  induction s as [|c s IH]; [done|]. simpl. intros H.
  apply andb_true_iff in H as [Hc H].
  change (is_word (lower_char c) && all_chars is_word (toLowerCase s) = true).
  rewrite (IH H), andb_true_r. revert Hc. clear. by each_char c.
Qed.

Lemma upper_lower_char c : upper_char (lower_char c) = upper_char c.
Proof. by each_char c. Qed.

Lemma upper_lower s : toUpperCase (toLowerCase s) = toUpperCase s.
Proof.
  induction s as [|c s IH]; [done|].
  change (String (upper_char (lower_char c)) (toUpperCase (toLowerCase s))
          = String (upper_char c) (toUpperCase s)).
  by rewrite upper_lower_char, IH.
Qed.

Lemma lower_nonempty s : s <> EmptyString -> toLowerCase s <> EmptyString.
Proof. by destruct s. Qed.

(** *** [parseFloat] on decimal text *)
Lemma span_digits_all ip rest :
  all_chars is_digit ip = true -> stops is_digit rest = true ->
  span_digits (ip ++ rest) = (ip, rest).
Proof.
  intros Hip Hr. induction ip as [|c ip IH].
  - rewrite append_nil. destruct rest as [|r rest]; [done|]. simpl in *.
    apply negb_true_iff in Hr. by rewrite Hr.
  - simpl in Hip. apply andb_true_iff in Hip as [Hc Hip].
    rewrite append_cons. simpl. rewrite Hc. by rewrite (IH Hip).
Qed.

Lemma span_digits_only s :
  all_chars is_digit s = true -> span_digits s = (s, EmptyString).
Proof.
  induction s as [|c s IH]; [done|]. simpl. intros H.
  apply andb_true_iff in H as [-> H]. by rewrite (IH H).
Qed.

Lemma append_empty (s : string) : (s ++ EmptyString)%string = s.
Proof. induction s as [|c s IH]; [done|]. rewrite append_cons. by rewrite IH. Qed.

Lemma read_sign_digit d t :
  is_digit d = true -> read_sign (String d t) = (false, String d t).
Proof.
  intros Hd. destruct d as [[] [] [] [] [] [] [] []];
    first [ discriminate Hd | reflexivity ].
Qed.

Lemma read_sign_digits ip rest :
  ip <> EmptyString -> all_chars is_digit ip = true ->
  read_sign (trimStart (ip ++ rest)) = (false, (ip ++ rest)%string).
Proof.
  intros Hne Hip. destruct ip as [|d ip]; [done|]. simpl in Hip.
  apply andb_true_iff in Hip as [Hd _]. rewrite append_cons.
  cbn [trimStart]. rewrite (digit_not_space d Hd). by apply read_sign_digit.
Qed.

Lemma parseFloat_decimal ip fp :
  ip <> EmptyString -> all_chars is_digit ip = true -> all_chars is_digit fp = true ->
  parseFloat (decimal_text ip fp) = number_value false (decimal_q ip fp).
Proof.
  intros Hne Hip Hfp. unfold parseFloat.
  destruct fp as [|c fp]; cbn [decimal_text].
  - rewrite <- (append_empty ip) at 1. rewrite read_sign_digits by done.
    cbv beta iota. rewrite append_empty, (span_digits_only ip Hip). by destruct ip.
  - rewrite read_sign_digits by done. cbv beta iota.
    rewrite (span_digits_all ip ("." ++ String c fp) Hip eq_refl).
    change ("." ++ String c fp)%string with (String "." (String c fp)). cbv beta iota.
    rewrite (span_digits_only (String c fp) Hfp). cbn [fst]. by destruct ip.
Qed.

(** *** The digit reader against the place values *)
Lemma digit_value c : is_digit c = true -> Z.of_nat (code c - 48) = spec_digit c.
Proof. each_char c. Qed.

Lemma spec_digit_range c : 0 <= spec_digit c <= 9.
Proof. each_char c. Qed.

Lemma spec_numeral_nonneg s : 0 <= spec_numeral s.
Proof.
  induction s as [|c s IH]; [done|]. cbn [spec_numeral].
  pose proof (spec_digit_range c). pose proof (Z.pow_nonneg 10 (Z.of_nat (String.length s))).
  nia.
Qed.

Lemma digits_value_numeral acc s :
  all_chars is_digit s = true ->
  digits_value acc s = acc * 10 ^ Z.of_nat (String.length s) + spec_numeral s.
Proof.
  revert acc. induction s as [|c s IH]; intros acc H.
  - cbn. lia.
  - cbn [all_chars] in H. apply andb_true_iff in H as [Hc H].
    cbn [digits_value spec_numeral String.length]. rewrite (IH _ H), (digit_value c Hc).
    rewrite Nat2Z.inj_succ, Z.pow_succ_r by lia. ring.
Qed.

Lemma digits_value_append acc a b :
  digits_value acc (a ++ b) = digits_value (digits_value acc a) b.
Proof.
  revert acc. induction a as [|c a IH]; intros acc.
  - by rewrite append_nil.
  - rewrite append_cons. cbn [digits_value]. apply IH.
Qed.

Lemma pow10_pos n :
  Zpos (Pos.pow 10 (Pos.of_nat (S n))) = 10 ^ Z.of_nat (S n).
Proof.
  rewrite Pos2Z.inj_pow. f_equal. rewrite <- Pos.of_nat_succ.
  by rewrite Zpos_P_of_succ_nat, Nat2Z.inj_succ.
Qed.

Lemma decimal_q_amount ip fp :
  all_chars is_digit ip = true -> all_chars is_digit fp = true ->
  (decimal_q ip fp == spec_amount ip fp)%Q.
Proof.
  intros Hip Hfp. unfold spec_amount. destruct fp as [|c fp].
  - cbn [decimal_q spec_numeral String.length]. rewrite digits_value_numeral by done.
    change (10 ^ Z.of_nat 0) with 1. rewrite Z.mul_0_l, Z.add_0_l.
    change (inject_Z 0 / inject_Z 1)%Q with 0%Q. ring.
  - cbn [decimal_q]. unfold decimal. rewrite Qmake_Qdiv.
    rewrite digits_value_append, (digits_value_numeral 0 ip Hip), Z.mul_0_l, Z.add_0_l.
    rewrite (digits_value_numeral _ _ Hfp). cbn [String.length]. rewrite pow10_pos.
    set (n := S (String.length fp)).
    pose proof (Z.pow_pos_nonneg 10 (Z.of_nat n)) as Hp.
    rewrite inject_Z_plus, inject_Z_mult. field.
    change 0%Q with (inject_Z 0). rewrite inject_Z_injective. lia.
Qed.

Lemma spec_amount_nonneg ip fp : (0 <= spec_amount ip fp)%Q.
Proof.
  unfold spec_amount.
  pose proof (spec_numeral_nonneg ip) as H1. pose proof (spec_numeral_nonneg fp) as H2.
  pose proof (Z.pow_pos_nonneg 10 (Z.of_nat (String.length fp))) as H3.
  rewrite Zle_Qle in H1, H2. change (inject_Z 0) with 0%Q in *.
  assert (0 < inject_Z (10 ^ Z.of_nat (String.length fp)))%Q as H4.
  { change 0%Q with (inject_Z 0). rewrite <- Zlt_Qlt. lia. }
  assert (0 <= inject_Z (spec_numeral fp) / inject_Z (10 ^ Z.of_nat (String.length fp)))%Q.
  { apply Qle_shift_div_l; [done|]. lra. }
  lra.
Qed.

(** The amount parsed from a decimal text is the Number value of the
    amount written, and that amount itself when it is a binary64 number. *)
Lemma parseFloat_amount ip fp :
  ip <> EmptyString -> all_chars is_digit ip = true -> all_chars is_digit fp = true ->
  nearest64 (spec_amount ip fp) (parseFloat (decimal_text ip fp))
  /\ (binary64 (spec_amount ip fp) ->
      parseFloat (decimal_text ip fp) = Fin (Qred (spec_amount ip fp))).
Proof.
  intros Hne Hip Hfp. rewrite parseFloat_decimal by done.
  rewrite number_value_plain. pose proof (decimal_q_amount ip fp Hip Hfp) as Heq.
  pose proof (spec_amount_nonneg ip fp) as H0. split.
  - apply (nearest64_wd (decimal_q ip fp)); [done|].
    apply round64_nearest. by rewrite Heq.
  - intros Hb. rewrite round64_exact.
    + f_equal. by apply Qred_complete.
    + destruct Hb as (m & e & Hm & He & Hb). exists m, e. by rewrite Heq.
Qed.

End StringFacts.

(* ----------------------------------------------------------------- *)
(** ** The cache *)

Section CacheFacts.

Import SmartCache.

Context {V : Type}.

Implicit Types (h : Heap V) (c : t V) (k : string) (v : V).

(** *** [get] on a bound key *)
Lemma get_hit now k a c e :
  cache c !! k = Some e -> now - timestamp e < a ->
  get now k a c = (Some (data e), {| cache := cache c; stats := hit (stats c) |}).
Proof.
  intros He Hlt. unfold get. rewrite He.
  destruct (Z.ltb_spec (now - timestamp e) a); [done | lia].
Qed.

Lemma get_stale now k a c e :
  cache c !! k = Some e -> a <= now - timestamp e ->
  get now k a c = (None, {| cache := base.delete k (cache c); stats := miss (stats c) |}).
Proof.
  intros He Hge. unfold get. rewrite He.
  destruct (Z.ltb_spec (now - timestamp e) a); [lia | done].
Qed.

Lemma get_fresh_only now k a c v :
  (get now k a c).1 = Some v ->
  exists e, cache c !! k = Some e /\ data e = v /\ now - timestamp e < a.
Proof.
  unfold get. destruct (cache c !! k) as [e|] eqn:He; [|done].
  destruct (Z.ltb_spec (now - timestamp e) a); [|done].
  simpl. intros [= <-]. eauto.
Qed.

Lemma set_lookup now k v l h :
  cache (this (set now k v l h).2) !! k = Some {| data := v; timestamp := now; ttl := l |}.
Proof. simpl. apply lookup_insert_eq. Qed.

(** *** Cleanups

    A patient cleanup leaves a fresh entry where it is. *)
Lemma cleanup_keeps now tm c k e :
  cache c !! k = Some e -> patient k (ttl e) tm -> now - timestamp e < ttl e ->
  cache (cleanup now tm c) !! k = Some e.
Proof.
  intros He Hp Hlt. unfold cleanup.
  destruct (decide (t_key tm = k)) as [Heq|Hne].
  - specialize (Hp Heq). rewrite Heq, He.
    destruct (Z.leb_spec (t_ttl tm) (now - timestamp e)); [lia|done].
  - destruct (cache c !! t_key tm) as [e'|]; [|done].
    destruct (_ <=? _); [|done]. simpl. by rewrite lookup_delete_ne.
Qed.

(** A cleanup changes the cache only by deleting an entry that is as old as
    the [ttl] of its closure. *)
Lemma cleanup_only_expired now tm c :
  cleanup now tm c = c \/
  exists e, cache c !! t_key tm = Some e /\ t_ttl tm <= now - timestamp e
            /\ cache (cleanup now tm c) = base.delete (t_key tm) (cache c).
Proof.
  unfold cleanup. destruct (cache c !! t_key tm) as [e|] eqn:He; [|by left].
  destruct (Z.leb_spec (t_ttl tm) (now - timestamp e)); [|by left].
  right. exists e. done.
Qed.

(** *** The invariant of a run: while the entry is fresh, every operation
    that leaves the key alone keeps it, and a [get] of the key returns its
    data. *)
Lemma exec_holds now o h k e :
  holds k e h -> leaves_alone k (ttl e) o -> now - timestamp e < ttl e ->
  holds k e (exec now o h).2
  /\ (forall a, o = OpGet k a -> (exec now o h).1 = RVal (Some (data e))).
Proof.
  intros [He Hp] Hq Hlt. unfold holds.
  destruct o as [k' a|k' d l|k' a|k'| |i]; simpl in *.
  - destruct (decide (k' = k)) as [->|Hne].
    + destruct Hq as [?|Ha]; [done|].
      rewrite (get_hit now k a (this h) e) by (done || lia). simpl.
      split; [done|]. by intros ? [= ->].
    + split; [|by intros ? [= ?]].
      unfold get. destruct (cache (this h) !! k') as [e'|] eqn:He'; [|done].
      destruct (_ <? _); simpl; [done|]. by rewrite lookup_delete_ne.
  - split; [|done]. simpl. rewrite lookup_insert_ne by done. split; [done|].
    apply Forall_app. split; [done|]. apply Forall_singleton. by intros ?.
  - done.
  - split; [|done]. by rewrite lookup_delete_ne.
  - done.
  - split; [|done].
    destruct (pending h !! i) as [tm|] eqn:Hi; [|done].
    destruct (_ <=? _); [|done]. simpl. split.
    + apply cleanup_keeps; try done.
      eapply Forall_forall in Hp; [exact Hp|]. eapply list_elem_of_lookup_2; eauto.
    + by apply Forall_delete.
Qed.

Lemma run_holds evs : forall h t0 k e,
  monotone t0 evs ->
  Forall (fun ev => leaves_alone k (ttl e) ev.2) evs ->
  holds k e h ->
  forall j now a, evs !! j = Some (now, OpGet k a) ->
    now - timestamp e < ttl e ->
    (run evs h).1 !! j = Some (RVal (Some (data e))).
Proof.
  induction evs as [|[t o] evs IH]; intros h t0 k e Hm Hq Hh j now a Hj Hlt; [done|].
  simpl in Hm. destruct Hm as [Ht0 Hm].
  apply Forall_cons in Hq as [Hq1 Hq]. simpl in Hq1.
  simpl. destruct (exec t o h) as [r h'] eqn:Hex.
  destruct (run evs h') as [rs h''] eqn:Hrun. simpl.
  assert (Hle : t <= now).
  { destruct j as [|j]; simpl in Hj.
    - injection Hj as -> _. lia.
    - clear -Hm Hj. revert t j Hm Hj. induction evs as [|[t' o'] evs IH]; intros t j Hm Hj; [done|].
      simpl in Hm. destruct Hm as [? Hm]. destruct j as [|j]; simpl in Hj.
      + injection Hj as -> _. done.
      + specialize (IH _ _ Hm Hj). lia. }
  destruct (exec_holds t o h k e Hh Hq1 ltac:(lia)) as [Hh' Hget].
  rewrite Hex in Hh', Hget. simpl in *.
  destruct j as [|j]; simpl in *.
  - injection Hj as -> ->. f_equal. by eapply Hget.
  - specialize (IH h' t k e Hm Hq Hh' j now a Hj Hlt). by rewrite Hrun in IH.
Qed.

(** Claim C6, as amended. [set(k, v, ttl)] followed by [get(k, ttl)] before
    [ttl] has elapsed on the clock returns [v]; straight after the [set],
    at the same clock reading, this asks for a positive [ttl].
    [get(k, maxAge)] called once [maxAge] has elapsed since the entry was
    stored reports absence and evicts the entry, whatever the entry's own
    [ttl]. And whenever [get(k, maxAge)] returns data, it is the data of an
    entry stored less than [maxAge] before the call. *)
Theorem cache_set_then_get h k v l a t0 t1 :
  let h1 := (set t0 k v l h).2 in
  (t1 - t0 < l -> (get t1 k l (this h1)).1 = Some v)
  /\ (a <= t1 - t0 ->
        (get t1 k a (this h1)).1 = None
        /\ cache (get t1 k a (this h1)).2 !! k = None)
  /\ (forall c now w, (get now k a c).1 = Some w ->
        exists e, cache c !! k = Some e /\ data e = w /\ now - timestamp e < a).
Proof.
  intros h1. split; [|split].
  - intros Hlt. erewrite get_hit; [|apply set_lookup|simpl; lia]. done.
  - intros Hge. erewrite get_stale; [|apply set_lookup|simpl; lia].
    simpl. split; [done|apply lookup_delete_eq].
  - intros c now w. apply get_fresh_only.
Qed.

(** Claim C7, as amended. After [set(k, v1, ttl)] and then [set(k, v2, ttl)], every
    later [get(k, ttl)] made within [ttl] of the second [set] returns [v2],
    in any run in which nothing else writes or evicts [k] (timers may fire
    at any time, other keys may be used freely) and no cleanup left pending
    for [k] by an earlier [set] holds a shorter [ttl]. The cleanup scheduled
    by the first [set] is still pending after the second one; whenever it
    runs it leaves an entry of [k] that is younger than [ttl] alone, and it
    removes the entry only if [ttl] has elapsed since the entry was stored. *)
Theorem cache_last_write_wins h0 k v1 v2 l t1 t2 evs :
  Forall (patient k l) (pending h0) ->
  monotone t2 evs ->
  Forall (fun ev => leaves_alone k l ev.2) evs ->
  let h1 := (set t1 k v1 l h0).2 in
  let h2 := (set t2 k v2 l h1).2 in
  let first_cleanup := {| t_key := k; t_ttl := l; t_due := t1 + timeout_delay l |} in
  (forall j now, evs !! j = Some (now, OpGet k l) -> now - t2 < l ->
     (run evs h2).1 !! j = Some (RVal (Some v2)))
  /\ first_cleanup ∈ pending h2
  /\ (forall now c e, cache c !! k = Some e ->
        (now - timestamp e < l -> cleanup now first_cleanup c = c)
        /\ (cache (cleanup now first_cleanup c) !! k = None -> l <= now - timestamp e)).
Proof.
  intros Hp Hm Hq h1 h2 tm1. split; [|split].
  - intros j now Hj Hlt.
    apply (run_holds evs h2 t2 k {| data := v2; timestamp := t2; ttl := l |})
      with (now := now) (a := l); try done.
    split; simpl.
    + apply lookup_insert_eq.
    + rewrite !Forall_app, !Forall_singleton. unfold patient in *. simpl. repeat split; [done|lia|lia].
  - simpl. set_solver.
  - intros now c e He. unfold cleanup. simpl. rewrite He.
    destruct (Z.leb_spec l (now - timestamp e)).
    + split; [lia|done].
    + split; [done|]. rewrite He. done.
Qed.

End CacheFacts.

Section CacheExamples.

Import SmartCache.

Lemma cache_set_then_get_witness :
  let h1 := (set 1000 "weather_paris" "sunny" 600000 fresh).2 in
  (31000 - 1000 < 600000
   /\ (get 31000 "weather_paris" 600000 (this h1)).1 = Some "sunny")
  /\ (30000 <= 31000 - 1000
      /\ (get 31000 "weather_paris" 30000 (this h1)).1 = None).
Proof.
  intros h1.
  destruct (cache_set_then_get fresh "weather_paris" "sunny" 600000 30000 1000 31000)
    as (H1 & H2 & _).
  split; (split; [lia|]).
  - apply H1. lia.
  - apply H2. lia.
Defined.

(** With [ttl = 0] the entry is stale at once: [get(k, 0)] straight after
    [set(k, v, 0)], at the same clock reading, reports absence. *)
Lemma cache_zero_ttl_misses :
  (get 1000 "k" 0 (this (set 1000 "k" "v" 0 fresh).2)).1 = None.
Proof. reflexivity. Qed.

Lemma cache_last_write_wins_witness :
  let evs := [(10, OpGet "k" 1000); (1000, OpFire 0); (1004, OpGet "k" 1000)] in
  let h2 := (set 5 "k" "v2" 1000 (set 0 "k" "v1" 1000 fresh).2).2 in
  Forall (patient "k" 1000) (pending (V := string) fresh)
  /\ monotone 5 evs
  /\ Forall (fun ev => leaves_alone "k" 1000 ev.2) evs
  /\ (run evs h2).1 !! 2%nat = Some (RVal (Some "v2")).
Proof.
  intros evs h2.
  assert (Hp : Forall (patient "k" 1000) (pending (V := string) fresh)) by constructor.
  assert (Hm : monotone 5 evs) by (simpl; lia).
  assert (Hq : Forall (fun ev => leaves_alone "k" 1000 ev.2) evs).
  { constructor; [simpl; right; lia|]. constructor; [exact I|].
    constructor; [simpl; right; lia|]. constructor. }
  split; [exact Hp|]. split; [exact Hm|]. split; [exact Hq|].
  apply (proj1 (cache_last_write_wins fresh "k" "v1" "v2" 1000 0 5 evs Hp Hm Hq)
           2%nat 1004); [reflexivity | lia].
Defined.

(** Claim C7, as stated, fails when an earlier [set] of the key left a
    cleanup with a shorter [ttl] pending: the closure of that [set] compares
    the age of the entry it finds with its own [ttl]. The key is set with a
    [ttl] of 10 ms, then twice with 1000 ms; the first timer runs at 12 ms
    and deletes the entry of the last [set], which is 10 ms old; the [get]
    at 13 ms, well within 1000 ms of the last [set], returns [null]. *)
Lemma cache_stale_cleanup_evicts_fresh_entry :
  let h0 := (set 0 "k" "v0" 10 fresh).2 in
  let h2 := (set 2 "k" "v2" 1000 (set 1 "k" "v1" 1000 h0).2).2 in
  let evs := [(12, OpFire 0); (13, OpGet "k" 1000)] in
  monotone 2 evs
  /\ Forall (fun ev => leaves_alone "k" 1000 ev.2) evs
  /\ 13 - 2 < 1000
  /\ (run evs h2).1 !! 1%nat = Some (RVal None)
  /\ ~ Forall (patient "k" 1000) (pending h0).
Proof.
  intros h0 h2 evs. split; [simpl; lia|]. split.
  { constructor; [exact I|]. constructor; [simpl; right; lia|]. constructor. }
  split; [lia|]. split; [reflexivity|].
  intros H. apply Forall_cons in H as [H _]. specialize (H eq_refl). simpl in H. lia.
Qed.

End CacheExamples.

(* ----------------------------------------------------------------- *)
(** ** The result selector *)

Section SelectorFacts.

Import Js WebSearch.

(** *** The order on numbers *)
Lemma truthy_not_nan x : truthy x = true -> x <> NaN.
Proof. by destruct x. Qed.

Lemma positive_sub_lt a b :
  a <> NaN -> b <> NaN -> positive (sub b a) = true <-> lt a b.
Proof.
  intros Ha Hb. destruct a as [| | |x], b as [| | |y]; simpl; try done.
  rewrite negb_true_iff. split.
  - intros H. apply Qnot_le_lt. intros Hle.
    assert (Qle_bool (y - x) 0 = true) as E; [|congruence].
    apply Qle_bool_iff. lra.
  - intros H. destruct (Qle_bool (y - x) 0) eqn:E; [|done].
    apply Qle_bool_iff in E. lra.
Qed.

Lemma lt_irrefl a : ~ lt a a.
Proof. destruct a; simpl; try tauto. apply Qlt_irrefl. Qed.

Lemma lt_trans a b c : lt a b -> lt b c -> lt a c.
Proof.
  destruct a, b, c; simpl; try tauto. apply Qlt_trans.
Qed.

(** The order is total on the numbers that are not NaN. *)
(** The order is total on the numbers that are not NaN. *)
Lemma lt_cotrans a b c : b <> NaN -> lt a c -> lt a b \/ lt b c.
Proof.
  intros Hb. destruct a as [| | |x], b as [| | |y], c as [| | |z]; simpl; try tauto.
  intros H. destruct (Qlt_le_dec x y); [by left|right; lra].
Qed.

(** *** The head of the sorted list is the first maximum *)
Lemma head_insert_sorted x l :
  head (insert_sorted by_confidence x l) =
  match head l with
  | Some y => if better y x then Some y else Some x
  | None => Some x
  end.
Proof. destruct l as [|y l]; [done|]. simpl. unfold better. by destruct (positive _). Qed.

Lemma head_sort l : head (sort by_confidence l) = first_max l.
Proof.
  induction l as [|x l IH]; [done|]. simpl. by rewrite head_insert_sorted, IH.
Qed.

(** The first maximum: strictly above what precedes it, not below what
    follows it. *)
Lemma first_max_spec l :
  Forall rated l ->
  match first_max l with
  | None => l = []
  | Some best =>
      exists before after, l = before ++ best :: after
        /\ Forall (fun r => lt (confidence r) (confidence best)) before
        /\ Forall (fun r => le (confidence r) (confidence best)) after
  end.
Proof.
  induction l as [|x l IH]; [done|]. intros Hr.
  apply Forall_cons in Hr as [Hx Hr]. specialize (IH Hr). simpl.
  destruct (first_max l) as [y|].
  - destruct IH as (before & after & -> & Hb & Ha).
    assert (Hy : rated y) by (apply Forall_app in Hr as [_ Hr]; by apply Forall_cons in Hr as [? _]).
    unfold better, by_confidence. destruct (positive _) eqn:E.
    + apply positive_sub_lt in E; [|done..].
      exists (x :: before), after. split; [done|]. split; [|done]. by constructor.
    + exists [], (before ++ y :: after). split; [done|]. split; [done|].
      assert (Hxy : ~ lt (confidence x) (confidence y)).
      { intros H. apply positive_sub_lt in H; [congruence|done..]. }
      apply Forall_app. split; [|constructor].
      * eapply Forall_impl; [exact Hb|]. intros r Hlt Hxr. simpl in *.
        apply Hxy. by eapply lt_trans.
      * done.
      * eapply Forall_impl; [exact Ha|]. intros r Hle Hxr. simpl in *.
        destruct (lt_cotrans _ (confidence y) _ Hy Hxr); [done|]. by apply Hle.
  - subst l. exists [], []. done.
Qed.

Lemma usable_rated l : Forall rated (omap usable l).
Proof.
  induction l as [|[r|] l IH]; simpl; [done| |done].
  unfold usable at 1. destruct (truthy (confidence r)) eqn:E; [|done].
  constructor; [|done]. by apply truthy_not_nan.
Qed.

Lemma format_answer_keeps best :
  type (format_answer best) = type best
  /\ source (format_answer best) = source best
  /\ confidence (format_answer best) = confidence best.
Proof.
  unfold format_answer. repeat (destruct (_ : bool)); done.
Qed.

(** Claim C1, as amended. Among the collected results that are not null
    and whose confidence is truthy, the selector picks one of greatest
    confidence, and among several of that confidence the one that comes
    first in the list it is given; the answer it returns carries the type,
    source and confidence of the picked result; it returns null exactly
    when no result is usable. In particular a confidence-0.9 dictionary
    result is picked over a confidence-0.6 related-topics result, in either
    order. *)
Theorem best_answer_by_confidence :
  (forall results_ : list (option SourceResult),
     let kept := omap usable results_ in
     match determineBestAnswer results_ with
     | None => kept = []
     | Some picked =>
         exists before best after,
           kept = before ++ best :: after
           /\ Forall (fun r => lt (confidence r) (confidence best)) before
           /\ Forall (fun r => le (confidence r) (confidence best)) after
           /\ picked = format_answer best
           /\ type picked = type best /\ source picked = source best
           /\ confidence picked = confidence best
     end)
  /\ (let dict := sample "dictionary" "Free Dictionary" (9 # 10) in
      let rel := sample "related" "DuckDuckGo Related" (6 # 10) in
      determineBestAnswer [Some rel; Some dict] = Some (format_answer dict)
      /\ determineBestAnswer [Some dict; Some rel] = Some (format_answer dict)).
Proof.
  split; [|split; reflexivity].
  intros results_ kept. pose proof (first_max_spec kept (usable_rated results_)) as H.
  rewrite <- head_sort in H. unfold determineBestAnswer. fold kept.
  destruct results_ as [|r0 rs]; [done|].
  destruct (sort by_confidence kept) as [|best sorted]; [done|]. simpl in H.
  destruct H as (before & after & ? & ? & ?).
  exists before, best, after. pose proof (format_answer_keeps best) as (? & ? & ?).
  split_all; done.
Qed.

(** Two results of equal confidence: the one that comes first is picked,
    also when the source-priority order of the spec puts the other one
    first. The second pair is one that [performWebSearch] can produce. *)
Lemma best_answer_ignores_source_priority :
  let dict := sample "dictionary" "Free Dictionary" (9 # 10) in
  let ency := sample "encyclopedia" "Wikipedia" (9 # 10) in
  let hits := sample "search_results" "Wikipedia Search" (7 # 10) in
  let ques := sample "stackoverflow_question" "Stack Overflow" (7 # 10) in
  (spec_source_rank "encyclopedia" < spec_source_rank "dictionary")%nat
  /\ determineBestAnswer [Some dict; Some ency] = Some (format_answer dict)
  /\ (spec_source_rank "stackoverflow_question" < spec_source_rank "search_results")%nat
  /\ determineBestAnswer [Some hits; Some ques] = Some (format_answer hits).
Proof. repeat split; try reflexivity; vm_compute; lia. Qed.

End SelectorFacts.

(* ----------------------------------------------------------------- *)
(** ** The fallback chain *)

Section ChainFacts.

Import Js Promise WebSearch.

(** An awaited call: its answer, one more entry in the log, the clock
    moved by its latency. *)
Lemma await_call_eq c w st :
  await_call c w st =
  (respond w (calls st) c,
   {| calls := calls st ++ [c]; clock := clock st + latency w (calls st) c; store := store st |}).
Proof. reflexivity. Qed.

(** Claim C5. When the direct-answer source answers the query with a
    result of type [instant_answer] or [abstract], [smartSearch] returns
    [found = true] with that very result, and the only call it has made is
    the one to the direct-answer source: no encyclopedia, dictionary,
    technical Q&A or full search. *)
Theorem smartSearch_short_circuit (w : World) (st : State) (query : string) (r : SourceResult) :
  respond w (calls st) (searchDuckDuckGo query) = Fulfilled (Some r) ->
  is_direct r = true ->
  exists st',
    smartSearch query w st = (Fulfilled (found_by r false), st')
    /\ found (found_by r false) = true
    /\ result (found_by r false) = Some r
    /\ calls st' = calls st ++ [searchDuckDuckGo query].
Proof.
  intros Hddg Hdirect. eexists. unfold smartSearch, bind.
  rewrite await_call_eq, Hddg, Hdirect. simpl. done.
Qed.

Lemma smartSearch_short_circuit_witness :
  let r := sample "instant_answer" "DuckDuckGo Instant Answer" (95 # 100) in
  respond sample_world (calls sample_state) (searchDuckDuckGo "capital of france")
    = Fulfilled (Some r)
  /\ is_direct r = true
  /\ exists st',
       smartSearch "capital of france" sample_world sample_state
         = (Fulfilled (found_by r false), st')
       /\ found (found_by r false) = true
       /\ result (found_by r false) = Some r
       /\ calls st' = calls sample_state ++ [searchDuckDuckGo "capital of france"].
Proof.
  intros r. split; [reflexivity|]. split; [reflexivity|].
  apply (smartSearch_short_circuit sample_world sample_state "capital of france" r);
    reflexivity.
Defined.

End ChainFacts.

(* ----------------------------------------------------------------- *)
(** ** The calculator *)

Section CalculatorFacts.

Import Js MathService.

Lemma evaluateMathExpression_normal call_function toS toF expression :
  exists r, evaluateMathExpression call_function toS toF expression = Normal r
    /\ match r with
       | None => True
       | Some res => isFinite (result res) = true
       end.
Proof.
  unfold evaluateMathExpression, try_block.
  destruct (call_function _) as [[x|ty]|e]; [|by eexists..].
  destruct (isFinite x) eqn:E; simpl; by eexists.
Qed.

(** Claim C10. Whatever the engine does with the sanitized text, and for
    every input string, [evaluateMathExpression] ends normally: it returns
    null, or a record whose [result] is a finite number. An exception of
    the evaluation, a value that is not a number and a number that is not
    finite all give null. *)
Theorem evaluateMathExpression_never_throws
    (call_function : string -> Completion JsValue)
    (toS : JsNumber -> string) (toF : JsNumber -> nat -> string)
    (expression : string) :
  (exists r, evaluateMathExpression call_function toS toF expression = Normal r
     /\ match r with
        | None => True
        | Some res => isFinite (result res) = true
        end)
  /\ match call_function (function_body (sanitize expression)) with
     | Abrupt _ | Normal (VOther _) =>
         evaluateMathExpression call_function toS toF expression = Normal None
     | Normal (VNumber x) =>
         if isFinite x
         then exists res,
                evaluateMathExpression call_function toS toF expression = Normal (Some res)
                /\ result res = x /\ MathService.expression res = expression
         else evaluateMathExpression call_function toS toF expression = Normal None
     end.
Proof.
  split; [apply evaluateMathExpression_normal|].
  unfold evaluateMathExpression, try_block.
  destruct (call_function _) as [[x|ty]|e]; try done.
  destruct (isFinite x); simpl; [by eexists|done].
Qed.

End CalculatorFacts.

(* ----------------------------------------------------------------- *)
(** ** The orchestrator *)

Section ServerFacts.

Import Js Promise QueryAnalyzer Server.

Context {D : Type} (dateInfo : D).
Context (call_function : string -> MathService.Completion MathService.JsValue).
Context (toS : JsNumber -> string) (toF : JsNumber -> nat -> string).

Abbreviation gather := (gatherKnowledge dateInfo call_function toS toF).
Abbreviation back := (returned dateInfo call_function toS toF).
Abbreviation begin := (start dateInfo call_function toS toF).
Abbreviation stp := (@step D).
Abbreviation rn := (@run D).

Implicit Types (st : State D) (ev : Event D) (evs : list (Event D)).

(** *** Phases

    After the race the function is at the fallback search or has returned. *)
Lemma after_race_phase message a st :
  phase (after_race message a st) = Returned
  \/ exists q, phase (after_race message a st) = Searching q.
Proof. unfold after_race. destruct (_ && _); simpl; eauto. Qed.

Lemma after_race_results message a st :
  results (after_race message a st) = results st.
Proof. unfold after_race. by destruct (_ && _). Qed.

Lemma after_race_waiting message a st :
  waiting (after_race message a st) = waiting st.
Proof. unfold after_race. by destruct (_ && _). Qed.

(** The synchronous part does not throw. *)
Lemma immediate_normal a :
  exists r, immediate dateInfo call_function toS toF a = MathService.Normal r.
Proof.
  unfold immediate. destruct (_ && _); [|by eexists].
  destruct (evaluateMathExpression_normal call_function toS toF (text (mathExpression a)))
    as (r & -> & _).
  destruct r; by eexists.
Qed.

Lemma start_not_failed message : ~ failed (begin message).
Proof.
  unfold start. destruct (immediate_normal (analyzeQuery message)) as [r ->].
  intros [e He]. destruct (issued _); simpl in He; [|done].
  destruct (after_race_phase message (analyzeQuery message)
    {| results := r; waiting := List.seq 0%nat (List.length (@nil (@Fetch))); phase := Racing |})
    as [H|[q H]]; simpl in *; congruence.
Qed.

(** The promise that [.catch(...)] yields is fulfilled, unless the handler
    reads the message of [null] or [undefined]. *)
Lemma catch_of_cases (f : @Fetch) q :
  catch_of f q = Fulfilled tt
  \/ (q = Rejected Nullish /\ catch_of f q = Rejected type_error).
Proof. destruct f, q as [[]|[m|]]; simpl; auto. Qed.

Lemma then_store_rejected key (p : Settled (option D)) r :
  (then_store key p r).1 = Rejected Nullish -> p = Rejected Nullish.
Proof. destruct p as [[d|]|e]; simpl; congruence. Qed.

(** The phase moves forward only: from the race to the search or the
    return, from the search to the return; or the function is left by the
    [TypeError] of a rejection with [null] or [undefined]. *)
Lemma step_phase message st ev :
  phase (stp message st ev) = phase st
  \/ (phase st = Racing
      /\ (phase (stp message st ev) = Returned
          \/ exists q, phase (stp message st ev) = Searching q))
  \/ (exists q, phase st = Searching q /\ phase (stp message st ev) = Returned)
  \/ (phase (stp message st ev) = Failed type_error /\ reasoned ev = false
      /\ (phase st = Racing \/ exists q, phase st = Searching q)).
Proof.
  unfold step. destruct ev as [i p| |p].
  - destruct (issued _ !! i) as [f|]; [|by left].
    destruct (existsb _ _); [|by left].
    destruct (then_store _ _ _) as [q r'] eqn:Hq.
    destruct (catch_of_cases f q) as [->|[-> ->]].
    + remember (phase st) as ph eqn:Hp. destruct ph; simpl; try by left.
      destruct (remove_index _ _); [|by left].
      right; left. split; [done|]. apply after_race_phase.
    + assert (p = Rejected Nullish) as ->
        by (apply (then_store_rejected (key_of f) p (results st)); by rewrite Hq).
      remember (phase st) as ph eqn:Hp. destruct ph; simpl; try by left.
      right; right; right. split; [done|]. split; [done|]. by left.
  - remember (phase st) as ph eqn:Hp. destruct ph; try by left.
    right; left. split; [done|]. apply after_race_phase.
  - remember (phase st) as ph eqn:Hp. destruct ph; try by left.
    destruct p as [o|[m|]]; [destruct (WebSearch.found o)| |]; simpl.
    + right; right; left. by eexists.
    + right; right; left. by eexists.
    + right; right; left. by eexists.
    + right; right; right. split; [done|]. split; [done|]. right. by eexists.
Qed.

Lemma step_not_failed message st ev :
  reasoned ev = true -> ~ failed st -> ~ failed (stp message st ev).
Proof.
  intros Hev Hst [e He]. apply Hst.
  destruct (step_phase message st ev) as [H|[[_ [H|[q H]]]|[[q [_ H]]|[_ [H _]]]]];
    rewrite ?H in He; try done; [by exists e|congruence].
Qed.

Lemma step_not_racing message st ev : ~ racing st -> ~ racing (stp message st ev).
Proof.
  unfold racing. intros Hst He.
  destruct (step_phase message st ev) as [H|[[? _]|[[q [_ H]]|[H _]]]]; congruence.
Qed.

Lemma step_returned message st ev :
  phase st = Returned -> phase (stp message st ev) = Returned.
Proof.
  intros Hst.
  destruct (step_phase message st ev) as [H|[[? _]|[[q [? _]]|[_ [_ [?|[q ?]]]]]]];
    congruence.
Qed.

(** The function does not come back from a failure. *)
Lemma step_failed message st ev e :
  phase st = Failed e -> phase (stp message st ev) = Failed e.
Proof.
  intros Hst.
  destruct (step_phase message st ev) as [H|[[? _]|[[q [? _]]|[_ [_ [?|[q ?]]]]]]];
    congruence.
Qed.

Lemma run_snoc message evs ev st :
  rn message (evs ++ [ev]) st = stp message (rn message evs st) ev.
Proof. unfold run. by rewrite fold_left_app. Qed.

Lemma run_app message evs1 evs2 st :
  rn message (evs1 ++ evs2) st = rn message evs2 (rn message evs1 st).
Proof. unfold run. by rewrite fold_left_app. Qed.

(** A property kept by every event is kept by a schedule. *)
Lemma run_invariant (P : State D -> Prop) message :
  (forall st ev, P st -> P (stp message st ev)) ->
  forall evs st, P st -> P (rn message evs st).
Proof.
  intros Hstep evs. induction evs as [|ev evs IH]; intros st Hst; [done|].
  simpl. apply IH, Hstep, Hst.
Qed.

Lemma run_not_failed message evs : forall st,
  Forall (fun ev => reasoned ev = true) evs -> ~ failed st -> ~ failed (rn message evs st).
Proof.
  induction evs as [|ev evs IH]; intros st Hall Hst; [done|].
  apply Forall_cons in Hall as [Hev Hall]. simpl. apply IH; [done|].
  by apply step_not_failed.
Qed.

Lemma gather_not_failed message evs :
  Forall (fun ev => reasoned ev = true) evs -> ~ failed (gather message evs).
Proof. intros Hall. apply run_not_failed; [done|apply start_not_failed]. Qed.

Lemma timeout_ends_race message st : ~ racing (stp message st Timeout).
Proof.
  unfold racing. simpl. remember (phase st) as ph eqn:Hp.
  destruct ph; try congruence.
  destruct (after_race_phase message (analyzeQuery message) st) as [H|[q H]]; congruence.
Qed.

Lemma run_timeout_not_racing message evs st :
  In Timeout evs -> ~ racing (rn message evs st).
Proof.
  intros Hin. apply in_split in Hin as (evs1 & evs2 & ->).
  rewrite run_app. simpl.
  apply (run_invariant (fun st => ~ racing st)).
  - intros ? ?. apply step_not_racing.
  - apply timeout_ends_race.
Qed.

(** Rejections are absorbed *)
(** *** Rejections

    A rejected call and a call fulfilled with null give the same state. *)
Lemma step_absorbed message st ev :
  reasoned ev = true -> stp message st (absorbed ev) = stp message st ev.
Proof.
  destruct ev as [i [v|[m|]]| |p]; try done. intros _. simpl.
  destruct (issued _ !! i) as [f|]; [|done]. by destruct f.
Qed.

Lemma run_absorbed message evs : forall st,
  Forall (fun ev => reasoned ev = true) evs ->
  rn message (List.map absorbed evs) st = rn message evs st.
Proof.
  induction evs as [|ev evs IH]; intros st Hall; [done|].
  apply Forall_cons in Hall as [Hev Hall]. simpl. by rewrite step_absorbed, IH.
Qed.

Lemma returned_from_absorbed message evs : forall st,
  Forall (fun ev => reasoned ev = true) evs ->
  returned_from message (List.map absorbed evs) st = returned_from message evs st.
Proof.
  induction evs as [|ev evs IH]; intros st Hall; [done|].
  apply Forall_cons in Hall as [Hev Hall].
  simpl. destruct (has_returned st); [done|]. by rewrite step_absorbed, IH.
Qed.

(** *** The properties that the handlers assign are pairwise distinct *)
Lemma when_key (b : bool) (f : @Fetch) : key_of <$> when b [f] `sublist_of` [key_of f].
Proof. destruct b; simpl; [done|]. apply sublist_nil_l. Qed.

Lemma keys_segment (l rest : list (@Fetch)) k ks :
  key_of <$> l `sublist_of` [k] -> key_of <$> rest `sublist_of` ks ->
  key_of <$> (l ++ rest) `sublist_of` k :: ks.
Proof. intros H1 H2. rewrite fmap_app. by apply (sublist_app _ [k] _ ks). Qed.

Lemma when_keys (b : bool) (f : @Fetch) k :
  key_of f = k -> key_of <$> when b [f] `sublist_of` [k].
Proof. intros <-. apply when_key. Qed.

Lemma issued_keys a : key_of <$> issued a `sublist_of` fetch_keys.
Proof.
  unfold issued, fetch_keys.
  repeat (apply keys_segment;
          [try (destruct (first_term a); [|apply sublist_nil_l]);
           apply when_keys; try done; by destruct (_ : bool)|]).
  destruct (first_term a); [|apply sublist_nil_l]. by apply when_keys.
Qed.

Lemma fetch_keys_nodup : NoDup fetch_keys.
Proof. apply (bool_decide_unpack _). by vm_compute. Qed.

Lemma issued_nodup a : NoDup (key_of <$> issued a).
Proof. eapply sublist_NoDup; [apply fetch_keys_nodup|apply issued_keys]. Qed.

Lemma issued_key_inj a i j f g :
  issued a !! i = Some f -> issued a !! j = Some g -> key_of f = key_of g -> i = j.
Proof.
  intros Hi Hj Hk. eapply NoDup_lookup; [apply (issued_nodup a)| |].
  - rewrite list_lookup_fmap, Hi. done.
  - rewrite list_lookup_fmap, Hj. simpl. by rewrite Hk.
Qed.

Lemma issued_key_in a i f : issued a !! i = Some f -> key_of f ∈ fetch_keys.
Proof.
  intros Hi. eapply elem_of_sublist; [|apply issued_keys].
  apply list_elem_of_fmap. exists f. split; [done|]. by eapply list_elem_of_lookup_2.
Qed.

Lemma fetch_key_fresh k :
  k ∈ fetch_keys -> k <> "date" /\ k <> "math" /\ k <> "webSearch".
Proof.
  unfold fetch_keys. intros Hk. repeat (apply elem_of_cons in Hk as [->|Hk]; [done|]).
  by apply elem_of_nil in Hk.
Qed.

Lemma immediate_no_fetch_key a r k :
  immediate dateInfo call_function toS toF a = MathService.Normal r ->
  k ∈ fetch_keys -> r !! k = None.
Proof.
  intros Hr Hk. apply fetch_key_fresh in Hk as (Hd & Hm & _).
  unfold immediate in Hr.
  assert (Hbase : (if needsDate a then ({[ "date" := FromService dateInfo ]} : gmap string (Item D)) else ∅) !! k = None).
  { destruct (needsDate a); [by rewrite lookup_singleton_ne|apply lookup_empty]. }
  destruct (_ && _).
  - destruct (MathService.evaluateMathExpression _ _ _ _) as [[res|]|e]; simplify_eq.
    + by rewrite lookup_insert_ne.
    + done.
  - by simplify_eq.
Qed.

Lemma start_no_fetch_key message k :
  k ∈ fetch_keys -> results (begin message) !! k = None.
Proof.
  intros Hk. unfold start.
  destruct (immediate _ _ _ _ _) as [r|e] eqn:Hr; [|apply lookup_empty].
  destruct (issued _); [rewrite after_race_results|]; simpl;
    by eapply immediate_no_fetch_key.
Qed.

Lemma start_waiting message j f :
  issued (analyzeQuery message) !! j = Some f ->
  existsb (Nat.eqb j) (waiting (begin message)) = true.
Proof.
  intros Hj. unfold start.
  destruct (immediate_normal (analyzeQuery message)) as [r ->].
  assert (existsb (Nat.eqb j) (List.seq 0%nat (List.length (issued (analyzeQuery message)))) = true).
  { apply existsb_exists. exists j. split; [|apply Nat.eqb_refl].
    apply in_seq. apply lookup_lt_Some in Hj. lia. }
  destruct (issued _) eqn:E; [done|]. done.
Qed.

(** What one event does to a property of [results] and to [waiting]. *)
(** *** What one event does to [results] and to [waiting] *)
Lemma step_settle message st i p f :
  issued (analyzeQuery message) !! i = Some f ->
  existsb (Nat.eqb i) (waiting st) = true ->
  results (stp message st (Settle i p)) =
    match p with
    | Fulfilled (Some d) => <[ key_of f := FromService d ]> (results st)
    | _ => results st
    end
  /\ waiting (stp message st (Settle i p)) = remove_index i (waiting st).
Proof.
  intros Hi Hw. simpl. rewrite Hi, Hw.
  destruct (then_store _ _ _) as [q r'] eqn:Hq.
  assert (r' = match p with
               | Fulfilled (Some d) => <[ key_of f := FromService d ]> (results st)
               | _ => results st
               end) as ->.
  { destruct p as [[d|]|e]; simpl in Hq; by simplify_eq. }
  destruct (catch_of_cases f q) as [->|[_ ->]]; destruct (phase st); simpl; try done.
  destruct (remove_index _ _); [|done].
  by rewrite after_race_results, after_race_waiting.
Qed.

Lemma step_settle_idle message st i p :
  existsb (Nat.eqb i) (waiting st) = false -> stp message st (Settle i p) = st.
Proof. intros Hw. simpl. rewrite Hw. by destruct (issued _ !! i). Qed.

Lemma remove_index_self i l : existsb (Nat.eqb i) (remove_index i l) = false.
Proof.
  induction l as [|x l IH]; [done|]. simpl.
  destruct (Nat.eqb i x) eqn:E; simpl; [done|]. by rewrite E.
Qed.

Lemma remove_index_other i j l :
  i <> j -> existsb (Nat.eqb j) (remove_index i l) = existsb (Nat.eqb j) l.
Proof.
  intros Hne. induction l as [|x l IH]; [done|]. simpl.
  destruct (Nat.eqb i x) eqn:E; simpl; [|by rewrite IH].
  apply Nat.eqb_eq in E. subst x.
  destruct (Nat.eqb j i) eqn:E'; [apply Nat.eqb_eq in E'; congruence|done].
Qed.

Lemma step_waiting_other message st ev j :
  settles j ev = false ->
  existsb (Nat.eqb j) (waiting (stp message st ev)) = existsb (Nat.eqb j) (waiting st).
Proof.
  intros Hev. destruct ev as [i p| |p].
  - simpl in Hev. apply Nat.eqb_neq in Hev.
    destruct (existsb (Nat.eqb i) (waiting st)) eqn:Hw;
      [|by rewrite step_settle_idle].
    destruct (issued (analyzeQuery message) !! i) as [f|] eqn:Hi.
    + destruct (step_settle message st i p f Hi Hw) as [_ ->].
      apply remove_index_other. congruence.
    + simpl. by rewrite Hi.
  - simpl. destruct (phase st); try done. by rewrite after_race_waiting.
  - simpl. destruct (phase st); try done.
    destruct p as [o|[m|]]; [destruct (WebSearch.found o)| |]; done.
Qed.

Lemma step_results_other message st ev k :
  k ∈ fetch_keys ->
  (forall i p f, ev = Settle i p -> issued (analyzeQuery message) !! i = Some f ->
     existsb (Nat.eqb i) (waiting st) = true -> key_of f <> k) ->
  results (stp message st ev) !! k = results st !! k.
Proof.
  intros Hk Hev. destruct ev as [i p| |p].
  - destruct (existsb (Nat.eqb i) (waiting st)) eqn:Hw;
      [|by rewrite step_settle_idle].
    destruct (issued (analyzeQuery message) !! i) as [f|] eqn:Hi.
    + destruct (step_settle message st i p f Hi Hw) as [-> _].
      destruct p as [[d|]|e]; try done.
      rewrite lookup_insert_ne; [done|]. by eapply Hev.
    + simpl. by rewrite Hi.
  - simpl. destruct (phase st); try done. by rewrite after_race_results.
  - simpl. destruct (phase st); try done.
    destruct p as [o|[m|]]; [destruct (WebSearch.found o)| |]; try done.
    simpl. rewrite lookup_insert_ne; [done|].
    apply fetch_key_fresh in Hk as (_ & _ & Hk). congruence.
Qed.

(** A call that has not settled has written nothing. *)
(** A call that has not settled has written nothing. *)
Lemma run_unsettled message evs : forall st j f,
  issued (analyzeQuery message) !! j = Some f ->
  existsb (settles j) evs = false ->
  results (rn message evs st) !! key_of f = results st !! key_of f
  /\ existsb (Nat.eqb j) (waiting (rn message evs st)) = existsb (Nat.eqb j) (waiting st).
Proof.
  induction evs as [|ev evs IH]; intros st j f Hj Hevs; [done|].
  simpl in Hevs. apply orb_false_elim in Hevs as [Hev Hevs].
  simpl. destruct (IH (stp message st ev) j f Hj Hevs) as [-> ->].
  split; [|by apply step_waiting_other].
  apply step_results_other; [by eapply issued_key_in|].
  intros i p g -> Hi _ Hk. simpl in Hev. apply Nat.eqb_neq in Hev.
  apply Hev. symmetry. by eapply issued_key_inj.
Qed.

(** Once a call has settled with data, the data stays. *)
Lemma step_kept message st ev j f v :
  issued (analyzeQuery message) !! j = Some f ->
  kept j (key_of f) v st -> kept j (key_of f) v (stp message st ev).
Proof.
  intros Hj [Hw Hr]. split.
  - destruct (settles j ev) eqn:E.
    + destruct ev as [i p| |p]; try done. simpl in E. apply Nat.eqb_eq in E. subst i.
      by rewrite step_settle_idle.
    + by rewrite step_waiting_other.
  - rewrite step_results_other; [done|by eapply issued_key_in|].
    intros i p g -> Hi Hwi Hk.
    assert (i = j) as -> by (by eapply issued_key_inj). congruence.
Qed.

Lemma settle_kept message st j f d :
  issued (analyzeQuery message) !! j = Some f ->
  existsb (Nat.eqb j) (waiting st) = true ->
  kept j (key_of f) (FromService d) (stp message st (Settle j (Fulfilled (Some d)))).
Proof.
  intros Hj Hw. destruct (step_settle message st j (Fulfilled (Some d)) f Hj Hw) as [Hr Hw'].
  split.
  - rewrite Hw'. apply remove_index_self.
  - rewrite Hr. apply lookup_insert_eq.
Qed.

(** The value returned *)
(** *** The map at the moment of the return *)
Lemma returned_from_prefix message evs : forall st r,
  returned_from message evs st = Some r ->
  exists n, r = results (rn message (take n evs) st)
            /\ phase (rn message (take n evs) st) = Returned.
Proof.
  induction evs as [|ev evs IH]; intros st r; simpl.
  - unfold has_returned. destruct (phase st) eqn:Hp; try done.
    intros [= <-]. by exists 0%nat.
  - unfold has_returned. destruct (phase st) eqn:Hp;
      try (intros H; apply IH in H as (n & -> & Hn); by exists (S n)).
    intros [= <-]. by exists 0%nat.
Qed.

Lemma returned_from_stable message evs1 evs2 : forall st r,
  returned_from message evs1 st = Some r ->
  returned_from message (evs1 ++ evs2) st = Some r.
Proof.
  induction evs1 as [|ev evs1 IH]; intros st r; simpl.
  - destruct (has_returned st) eqn:E; [|done]. intros [= <-].
    destruct evs2; simpl; by rewrite E.
  - destruct (has_returned st); [done|]. apply IH.
Qed.

Lemma returned_from_later message evs1 evs2 : forall st,
  returned_from message evs1 st = None ->
  returned_from message (evs1 ++ evs2) st = returned_from message evs2 (rn message evs1 st).
Proof.
  induction evs1 as [|ev evs1 IH]; intros st; simpl.
  - destruct (has_returned st) eqn:E; [done|]. intros _.
    destruct evs2; simpl; by rewrite E.
  - destruct (has_returned st); [done|]. apply IH.
Qed.

Lemma existsb_take {A} (f : A -> bool) n (l : list A) :
  existsb f l = false -> existsb f (take n l) = false.
Proof.
  revert n. induction l as [|x l IH]; intros [|n]; simpl; try done.
  intros H. apply orb_false_elim in H as [-> H]. simpl. by apply IH.
Qed.

(** A function that has returned has returned a map; one that has failed
    never does. *)
Lemma returned_from_reached message evs : forall st,
  phase (rn message evs st) = Returned -> exists r, returned_from message evs st = Some r.
Proof.
  induction evs as [|ev evs IH]; intros st H; simpl.
  - unfold has_returned. simpl in H. rewrite H. by eexists.
  - destruct (has_returned st); [by eexists|]. by apply IH.
Qed.

Lemma failed_never_returns message evs : forall st e,
  phase st = Failed e -> returned_from message evs st = None.
Proof.
  induction evs as [|ev evs IH]; intros st e H; simpl; unfold has_returned; rewrite H;
    [done|]. eapply IH. by apply step_failed.
Qed.

(** *** When every call has settled *)
Lemma step_waiting_shrinks message st ev j :
  existsb (Nat.eqb j) (waiting st) = false ->
  existsb (Nat.eqb j) (waiting (stp message st ev)) = false.
Proof.
  intros Hw. destruct (settles j ev) eqn:E.
  - destruct ev as [i p| |p]; try done. simpl in E. apply Nat.eqb_eq in E. subst i.
    by rewrite step_settle_idle.
  - by rewrite step_waiting_other.
Qed.

Lemma run_settled message evs : forall st j f,
  issued (analyzeQuery message) !! j = Some f ->
  existsb (settles j) evs = true ->
  existsb (Nat.eqb j) (waiting (rn message evs st)) = false.
Proof.
  induction evs as [|ev evs IH]; intros st j f Hj Hevs; [done|].
  simpl in Hevs. simpl. destruct (settles j ev) eqn:E.
  - apply (run_invariant (fun st => existsb (Nat.eqb j) (waiting st) = false)).
    + intros st' ev'. apply step_waiting_shrinks.
    + destruct ev as [i p| |p]; try done. simpl in E. apply Nat.eqb_eq in E. subst i.
      destruct (existsb (Nat.eqb j) (waiting st)) eqn:Hw.
      * destruct (step_settle message st j p f Hj Hw) as [_ ->]. apply remove_index_self.
      * by rewrite step_settle_idle.
  - by eapply IH.
Qed.

(** While the function is at the race, it waits for a call that it has
    made. *)
Lemma step_race_waits message st ev :
  (phase st = Racing -> exists j, j ∈ waiting st) ->
  phase (stp message st ev) = Racing -> exists j, j ∈ waiting (stp message st ev).
Proof.
  intros Hst. unfold step. destruct ev as [i p| |p].
  - destruct (issued _ !! i) as [f|]; [|exact Hst].
    destruct (existsb _ _); [|exact Hst].
    destruct (then_store _ _ _) as [q r'].
    destruct (catch_of f q); destruct (phase st) eqn:Hp; simpl; try done.
    destruct (remove_index i (waiting st)) as [|j l]; simpl.
    + intros H. destruct (after_race_phase message (analyzeQuery message)
        {| results := r'; waiting := []; phase := Racing |}) as [H'|[q' H']]; congruence.
    + intros _. exists j. left.
  - destruct (phase st) eqn:Hp; try (by rewrite Hp). intros H.
    destruct (after_race_phase message (analyzeQuery message) st) as [H'|[q' H']]; congruence.
  - destruct (phase st) eqn:Hp; try (by rewrite Hp).
    destruct p as [o|[m|]]; [destruct (WebSearch.found o)| |]; done.
Qed.

Lemma step_waiting_issued message st ev :
  Forall (fun j => is_Some (issued (analyzeQuery message) !! j)) (waiting st) ->
  Forall (fun j => is_Some (issued (analyzeQuery message) !! j)) (waiting (stp message st ev)).
Proof.
  intros Hst. rewrite Forall_forall in *. intros j Hj. apply Hst.
  destruct (existsb (Nat.eqb j) (waiting st)) eqn:E.
  - apply existsb_exists in E as (x & Hx & E). apply Nat.eqb_eq in E. subst x.
    by apply list_elem_of_In.
  - apply (step_waiting_shrinks message st ev) in E.
    assert (existsb (Nat.eqb j) (waiting (stp message st ev)) = true); [|congruence].
    apply existsb_exists. exists j. split; [by apply list_elem_of_In|apply Nat.eqb_refl].
Qed.

Lemma start_race_waits message :
  (phase (begin message) = Racing -> exists j, j ∈ waiting (begin message))
  /\ Forall (fun j => is_Some (issued (analyzeQuery message) !! j)) (waiting (begin message)).
Proof.
  unfold start. destruct (immediate_normal (analyzeQuery message)) as [r ->].
  destruct (issued (analyzeQuery message)) as [|f l] eqn:E.
  - split; [|rewrite after_race_waiting; constructor].
    intros H. destruct (after_race_phase message (analyzeQuery message)
      {| results := r; waiting := List.seq 0%nat (List.length (@nil (@Fetch)));
         phase := Racing |}) as [H'|[q' H']]; congruence.
  - split; [intros _; exists 0%nat; left|]. cbn [waiting].
    rewrite Forall_forall. intros j Hj. apply list_elem_of_In, in_seq in Hj.
    apply lookup_lt_is_Some. lia.
Qed.

Lemma all_settled_not_racing message evs :
  (forall j f, issued (analyzeQuery message) !! j = Some f -> existsb (settles j) evs = true) ->
  phase (gather message evs) <> Racing.
Proof.
  intros Hall Hr. destruct (start_race_waits message) as [H1 H2].
  assert (H3 : exists j, j ∈ waiting (gather message evs)).
  { revert Hr. apply (run_invariant (fun st => phase st = Racing -> exists j, j ∈ waiting st));
      [|done]. intros st ev. apply step_race_waits. }
  assert (H4 : Forall (fun j => is_Some (issued (analyzeQuery message) !! j))
                 (waiting (gather message evs))).
  { apply (run_invariant (fun st => Forall (fun j => is_Some (issued (analyzeQuery message) !! j))
                                      (waiting st))); [|done].
    intros st ev. apply step_waiting_issued. }
  destruct H3 as [j Hj]. rewrite Forall_forall in H4. destruct (H4 j Hj) as [f Hf].
  pose proof (run_settled message evs (begin message) j f Hf (Hall j f Hf)) as Hw.
  assert (existsb (Nat.eqb j) (waiting (gather message evs)) = true); [|unfold gatherKnowledge in *; congruence].
  apply existsb_exists. exists j. split; [by apply list_elem_of_In|apply Nat.eqb_refl].
Qed.

(** Claim C2, as amended. For every query and every schedule, once the
    six-second timer has fired [gatherKnowledge] is no longer waiting for
    its service calls, even if some of them never complete. A call that has
    not settled contributes no entry to [results], and none to the map as
    it is when the function returns; events that come after the return do
    not change what was returned at that moment. (A call that settles after
    the timer is not discarded: its handler still writes into [results].) *)
Theorem fan_out_wait_is_bounded message evs :
  (In Timeout evs -> phase (gather message evs) <> Racing)
  /\ (forall j f, issued (analyzeQuery message) !! j = Some f ->
        existsb (settles j) evs = false ->
        results (gather message evs) !! key_of f = None
        /\ forall r, back message evs = Some r -> r !! key_of f = None)
  /\ (forall evs' r, back message evs = Some r -> back message (evs ++ evs') = Some r).
Proof.
  split; [|split].
  - intros Hin. by apply run_timeout_not_racing.
  - intros j f Hj Hevs. split.
    + unfold gatherKnowledge. destruct (run_unsettled message evs (begin message) j f Hj Hevs) as [-> _].
      apply start_no_fetch_key. by eapply issued_key_in.
    + intros r Hr. apply returned_from_prefix in Hr as (n & -> & _).
      destruct (run_unsettled message (take n evs) (begin message) j f Hj) as [-> _].
      * by apply existsb_take.
      * apply start_no_fetch_key. by eapply issued_key_in.
  - intros evs' r. apply returned_from_stable.
Qed.


End ServerFacts.

Section ServerExamples.

Import Js Promise QueryAnalyzer Server.

Abbreviation gatherS := (gatherKnowledge "2026-11-02" no_engine no_format no_fixed).
Abbreviation returnedS := (returned "2026-11-02" no_engine no_format no_fixed).

Lemma fan_out_wait_is_bounded_witness :
  In Timeout [@Timeout string]
  /\ phase (gatherS "define foo" [Timeout]) <> Racing.
Proof.
  split; [by left|].
  apply (proj1 (fan_out_wait_is_bounded "2026-11-02" no_engine no_format no_fixed
                  "define foo" [Timeout])).
  by left.
Defined.



(** A call that settles after the timer still reaches the map. For
    "define foo" the dictionary call is the only one; the timer fires, the
    fallback search starts, the dictionary call settles, the search finds
    nothing: the map that is returned holds the dictionary entry. For the
    time query nothing awaits after the timer: the function returns an
    empty map, and the late answer is then written into that same object. *)
Lemma late_results_are_not_discarded :
  let entry := Settle 0 (Fulfilled (Some "entry of foo")) in
  let noon := Settle 0 (Fulfilled (Some "noon")) in
  (* the dictionary call settles after the timer, during the fallback search *)
  returnedS "define foo" [Timeout] = None
  /\ returnedS "define foo" [Timeout; entry; SearchSettled (Fulfilled nothing_found)]
       ≫= (.!! "dictionary") = Some (FromService "entry of foo")
  (* the time call settles after the function has returned *)
  /\ returnedS "what time is it in tokyo?" [Timeout] ≫= (.!! "time") = None
  /\ phase (gatherS "what time is it in tokyo?" [Timeout]) = Returned
  /\ results (gatherS "what time is it in tokyo?" [Timeout; noon]) !! "time"
     = Some (FromService "noon").
Proof. repeat split; by vm_compute. Qed.

End ServerExamples.

(* ----------------------------------------------------------------- *)
(** ** The analyzer *)

Section AnalyzerFacts.

Import Js JsString Regex QueryAnalyzer.

Ltac by_cases a :=
  unfold settled_flags, verdict, claims, forces, keeps_time, keeps_currency, claim_intent;
  let Hp := fresh "Hp" in
  destruct (primaryIntent a) eqn:Hp; cbn; rewrite ?Hp; cbn;
  intros; split_all; intros;
  first [ done | tauto | congruence | idtac ].

(** *** The verdict after each rule group *)
Lemma verdict_claim i c a :
  verdict (claim_intent i c a) = claims true i c (verdict a).
Proof.
  unfold claim_intent, verdict, claims. simpl.
  destruct (primaryIntent a) eqn:E; simpl; by rewrite ?E.
Qed.

Lemma test_exec re s : test re s = match exec re s with Some _ => true | None => false end.
Proof. done. Qed.

(** One turn of the time loop: the capture is accepted, or the loop goes
    on. *)
Lemma time_loop_cons p ps lower a :
  (captured_location p lower = false
   /\ time_loop (p :: ps) lower a = time_loop ps lower a)
  \/ (captured_location p lower = true
      /\ exists loc, acceptable_location loc = true
                     /\ time_loop (p :: ps) lower a = accept_time loc a).
Proof.
  unfold captured_location. cbn [time_loop].
  destruct (exec p lower) as [mt|]; [|by left].
  destruct (group 1 mt) as [g1|]; [|by left].
  destruct (nonempty g1); [|by left]. cbn [andb].
  destruct (acceptable_location (clean_location g1)) eqn:E; [|by left].
  right. split; [done|]. by exists (clean_location g1).
Qed.

Lemma time_loop_spec ps lower a :
  (existsb (fun p => captured_location p lower) ps = false
   /\ time_loop ps lower a = a)
  \/ (existsb (fun p => captured_location p lower) ps = true
      /\ exists loc, acceptable_location loc = true
                     /\ time_loop ps lower a = accept_time loc a).
Proof.
  induction ps as [|p ps IH]; [by left|]. cbn [existsb].
  destruct (time_loop_cons p ps lower a) as [[-> ->]|[-> H]]; [exact IH|by right].
Qed.

Lemma weather_loop_cons p ps lower a :
  weather_loop (p :: ps) lower a =
  match exec p lower with
  | Some mt => claim_intent weather c095
                 (set_weatherLocation (Some (weather_location mt)) (set_needsWeather true a))
  | None => weather_loop ps lower a
  end.
Proof. done. Qed.

Lemma weather_loop_spec ps lower a :
  (existsb (fun p => test p lower) ps = false /\ weather_loop ps lower a = a)
  \/ (existsb (fun p => test p lower) ps = true
      /\ exists loc, weather_loop ps lower a =
           claim_intent weather c095
             (set_weatherLocation (Some loc) (set_needsWeather true a))).
Proof.
  induction ps as [|p ps IH]; [by left|]. cbn [existsb].
  rewrite weather_loop_cons, test_exec.
  destruct (exec p lower) as [mt|]; [|exact IH].
  right. split; [done|]. by eexists.
Qed.

Lemma crypto_loop_spec ns lower a :
  (existsb (fun c => includes c lower) ns = false /\ crypto_loop ns lower a = a)
  \/ (existsb (fun c => includes c lower) ns = true
      /\ exists name, crypto_loop ns lower a =
           claim_intent crypto c09
             (set_cryptoName (Some name) (set_needsCrypto true a))).
Proof.
  induction ns as [|n ns IH]; [by left|]. cbn [existsb crypto_loop].
  destruct (includes n lower); [|exact IH].
  right. split; [done|]. by eexists.
Qed.

(** The guarded groups. *)
Lemma date_guarded lower :
  guarded (step_date lower) (test date_pattern lower) date c09.
Proof.
  intros a. unfold step_date. destruct (test date_pattern lower); by_cases a.
Qed.

Lemma weather_guarded lower :
  guarded (step_weather lower) (weather_fires lower) weather c095.
Proof.
  intros a. unfold step_weather, weather_fires.
  destruct (weather_loop_spec weatherPatterns lower a) as [[-> ->]|[-> [loc ->]]]; by_cases a.
Qed.

Lemma rate_guarded lower :
  guarded (step_currency_rate lower) (test rate_pattern lower) currency c085.
Proof.
  intros a. unfold step_currency_rate. destruct (test rate_pattern lower); by_cases a.
Qed.

Lemma crypto_name_guarded lower :
  guarded (step_crypto_name lower) (crypto_fires lower) crypto c09.
Proof.
  intros a. unfold step_crypto_name, crypto_fires.
  destruct (crypto_loop_spec cryptoNames lower a) as [[-> ->]|[-> [name ->]]]; by_cases a.
Qed.

Lemma crypto_market_guarded lower :
  guarded (step_crypto_market lower) (test crypto_market_pattern lower) crypto c085.
Proof.
  intros a. unfold step_crypto_market. destruct (test crypto_market_pattern lower); by_cases a.
Qed.

Lemma dictionary_guarded lower :
  guarded (step_dictionary lower) (test dict_pattern lower) dictionary c095.
Proof.
  intros a. unfold step_dictionary. rewrite test_exec.
  destruct (exec dict_pattern lower); by_cases a.
Qed.

Lemma math_guarded lower :
  guarded (step_math lower) (math_fires lower) math c09.
Proof.
  intros a. unfold step_math, math_fires.
  destruct (exec math_pattern lower) as [mt|]; [|by_cases a].
  destruct (test math_symbol _); by_cases a.
Qed.

Lemma quote_guarded lower :
  guarded (step_quote lower) (test quote_pattern lower) quote c085.
Proof.
  intros a. unfold step_quote. destruct (test quote_pattern lower); by_cases a.
Qed.

Lemma joke_guarded lower :
  guarded (step_joke lower) (test joke_pattern lower) joke c09.
Proof.
  intros a. unfold step_joke. destruct (test joke_pattern lower); by_cases a.
Qed.

Lemma trivia_guarded lower :
  guarded (step_trivia lower) (test trivia_pattern lower) trivia c085.
Proof.
  intros a. unfold step_trivia. destruct (test trivia_pattern lower); by_cases a.
Qed.

Lemma knowledge_guarded lower :
  guarded (step_knowledge lower) (knowledge_fires lower) knowledge c08.
Proof.
  intros a Ha. unfold step_knowledge. fold (knowledge_fires lower).
  destruct (knowledge_fires lower); [|revert Ha; by_cases a].
  cbn [andb].
  destruct (primaryIntent a) eqn:Hp.
  - destruct (negb (needsTime a) && negb (needsWeather a) && negb (needsMath a));
      [|revert Ha; by_cases a].
    destruct (exec search_pattern lower); revert Ha;
      unfold settled_flags, verdict, claims, keeps_time, keeps_currency, claim_intent;
      cbn; rewrite ?Hp; cbn; rewrite ?Hp; intros; split_all; intros; done.
  - destruct (Ha Hp) as (-> & -> & ->). cbn [negb andb].
    destruct (exec search_pattern lower);
      unfold settled_flags, verdict, claims, keeps_time, keeps_currency, claim_intent;
      cbn; rewrite ?Hp; cbn; split_all; intros; done.
Qed.

Lemma web_search_guarded message :
  guarded (step_web_search message) (3 <? length (trim message))%nat web_search c05.
Proof.
  intros a. unfold step_web_search, is_none.
  destruct (3 <? length (trim message))%nat; by_cases a.
Qed.

Lemma question_guarded message :
  guarded (step_question message) (test ends_with_question (trim message)) question c06.
Proof.
  intros a. unfold step_question, is_none.
  destruct (test ends_with_question (trim message)); [|by_cases a].
  destruct (nonempty _); by_cases a.
Qed.

(** The two groups that assign the intent without looking at it. *)
Lemma convert_forcing lower :
  forcing (step_currency_convert lower) (test convert_pattern lower) currency_convert c095.
Proof.
  intros a. unfold step_currency_convert. rewrite test_exec.
  destruct (exec convert_pattern lower); by_cases a.
Qed.

Lemma direct_math_forcing lower :
  forcing (step_direct_math lower) (test direct_math_pattern lower) math c095.
Proof.
  intros a. unfold step_direct_math. rewrite test_exec.
  destruct (exec direct_math_pattern lower); by_cases a.
Qed.

(** The time group, which comes first. *)
(** The time group, which comes first. *)
Lemma time_group lower :
  let a := step_general_time lower (step_time lower initial) in
  settled_flags a
  /\ verdict a = claims (test general_time lower) time c08
                   (claims (time_fires lower) time c095 (verdict initial))
  /\ match timeLocation a with
     | None => needsTime a = false
     | Some loc => needsTime a = true /\ (loc = "UTC" \/ acceptable_location loc = true)
     end.
Proof.
  unfold step_time, time_fires, step_general_time.
  destruct (time_loop_spec timePatterns lower initial) as [[-> ->]|[-> [loc [Hloc ->]]]].
  - simpl. destruct (test general_time lower); simpl; split_all; try done. by left.
  - simpl. destruct (test general_time lower); simpl; split_all; try done; by right.
Qed.

(** *** First match, and the two overrides *)
Lemma claims_some f i c j x : claims f i c (Some j, x) = (Some j, x).
Proof. unfold claims. by destruct f. Qed.

Lemma forces_false i c v : forces false i c v = v.
Proof. done. Qed.

Lemma claims_false i c v : claims false i c v = v.
Proof. done. Qed.

(** The verdict of [analyzeQuery] is the verdict of the groups taken in
    order; the time fields are those left by the time group; the currency
    fields are those left by the conversion group unless the query is bare
    arithmetic. *)
Lemma analyze_verdict message :
  let lower := toLowerCase message in
  verdict (analyzeQuery message) =
    claims (test ends_with_question (trim message)) question c06
    (claims (3 <? length (trim message))%nat web_search c05
    (claims (knowledge_fires lower) knowledge c08
    (claims (test trivia_pattern lower) trivia c085
    (claims (test joke_pattern lower) joke c09
    (claims (test quote_pattern lower) quote c085
    (forces (test direct_math_pattern lower) math c095
    (claims (math_fires lower) math c09
    (claims (test dict_pattern lower) dictionary c095
    (claims (test crypto_market_pattern lower) crypto c085
    (claims (crypto_fires lower) crypto c09
    (claims (test rate_pattern lower) currency c085
    (forces (test convert_pattern lower) currency_convert c095
    (claims (weather_fires lower) weather c095
    (claims (test date_pattern lower) date c09
    (claims (test general_time lower) time c08
    (claims (time_fires lower) time c095 (verdict initial)))))))))))))))))
  /\ match timeLocation (analyzeQuery message) with
     | None => needsTime (analyzeQuery message) = false
     | Some loc => needsTime (analyzeQuery message) = true
                   /\ (loc = "UTC" \/ acceptable_location loc = true)
     end
  /\ (test direct_math_pattern lower = false ->
      keeps_currency
        (step_currency_convert lower
          (step_weather lower (step_date lower
            (step_general_time lower (step_time lower initial)))))
        (analyzeQuery message)).
Proof.
  intros lower. unfold analyzeQuery. fold lower.
  destruct (time_group lower) as (H0 & V0 & T0).
  set (a0 := step_general_time lower (step_time lower initial)) in *.
  destruct (date_guarded lower a0 H0) as (H1 & V1 & [N1 L1] & _).
  set (a1 := step_date lower a0) in *.
  destruct (weather_guarded lower a1 H1) as (H2 & V2 & [N2 L2] & _).
  set (a2 := step_weather lower a1) in *.
  destruct (convert_forcing lower a2 H2) as (H3 & V3 & [N3 L3]).
  set (a3 := step_currency_convert lower a2) in *.
  destruct (rate_guarded lower a3 H3) as (H4 & V4 & [N4 L4] & C4).
  set (a4 := step_currency_rate lower a3) in *.
  destruct (crypto_name_guarded lower a4 H4) as (H5 & V5 & [N5 L5] & C5).
  set (a5 := step_crypto_name lower a4) in *.
  destruct (crypto_market_guarded lower a5 H5) as (H6 & V6 & [N6 L6] & C6).
  set (a6 := step_crypto_market lower a5) in *.
  destruct (dictionary_guarded lower a6 H6) as (H7 & V7 & [N7 L7] & C7).
  set (a7 := step_dictionary lower a6) in *.
  destruct (math_guarded lower a7 H7) as (H8 & V8 & [N8 L8] & C8).
  set (a8 := step_math lower a7) in *.
  destruct (direct_math_forcing lower a8 H8) as (H9 & V9 & [N9 L9]).
  set (a9 := step_direct_math lower a8) in *.
  destruct (quote_guarded lower a9 H9) as (H10 & V10 & [N10 L10] & C10).
  set (a10 := step_quote lower a9) in *.
  destruct (joke_guarded lower a10 H10) as (H11 & V11 & [N11 L11] & C11).
  set (a11 := step_joke lower a10) in *.
  destruct (trivia_guarded lower a11 H11) as (H12 & V12 & [N12 L12] & C12).
  set (a12 := step_trivia lower a11) in *.
  destruct (knowledge_guarded lower a12 H12) as (H13 & V13 & [N13 L13] & C13).
  set (a13 := step_knowledge lower a12) in *.
  destruct (web_search_guarded message a13 H13) as (H14 & V14 & [N14 L14] & C14).
  set (a14 := step_web_search message a13) in *.
  destruct (question_guarded message a14 H14) as (H15 & V15 & [N15 L15] & C15).
  split; [|split].
  - rewrite V15, V14, V13, V12, V11, V10, V9, V8, V7, V6, V5, V4, V3, V2, V1, V0. done.
  - rewrite L15, L14, L13, L12, L11, L10, L9, L8, L7, L6, L5, L4, L3, L2, L1.
    rewrite N15, N14, N13, N12, N11, N10, N9, N8, N7, N6, N5, N4, N3, N2, N1. exact T0.
  - intros Hd.
    assert (E9 : a9 = a8).
    { unfold a9, step_direct_math. rewrite test_exec in Hd.
      by destruct (exec direct_math_pattern lower). }
    rewrite E9 in *. clear -C4 C5 C6 C7 C8 C10 C11 C12 C13 C14 C15.
    unfold keeps_currency in *.
    destruct C4 as (?&?&?&?), C5 as (?&?&?&?), C6 as (?&?&?&?), C7 as (?&?&?&?),
      C8 as (?&?&?&?), C10 as (?&?&?&?), C11 as (?&?&?&?), C12 as (?&?&?&?),
      C13 as (?&?&?&?), C14 as (?&?&?&?), C15 as (?&?&?&?).
    split_all; [congruence..|tauto].
Qed.

Lemma verdict_precedence message :
  let lower := toLowerCase message in
  verdict (analyzeQuery message) =
    if test direct_math_pattern lower then (Some math, c095)
    else if test convert_pattern lower then (Some currency_convert, c095)
    else first_match (claim_rules message).
Proof.
  intros lower. destruct (analyze_verdict message) as (-> & _ & _). fold lower.
  unfold first_match, claim_rules. fold lower.
  destruct (test direct_math_pattern lower).
  { unfold forces at 1. by rewrite !claims_some. }
  rewrite forces_false.
  destruct (test convert_pattern lower).
  { unfold forces at 1. by rewrite !claims_some. }
  rewrite forces_false. cbn [List.find fst].
  repeat match goal with
  | |- context [claims ?f _ _ (verdict initial)] =>
      destruct f; [cbn [claims fst verdict initial primaryIntent]; by rewrite ?claims_some|
                   rewrite claims_false]
  end.
  done.
Qed.

(** The amount: digits, then perhaps a fraction *)
(** *** The conversion pattern on a conversion query

    The amount: digits, then perhaps a fraction. *)
Lemma m_amount ip fp rest cp prev k res :
  ip <> EmptyString -> all_chars is_digit ip = true -> all_chars is_digit fp = true ->
  stops is_digit rest = true -> stops (Ascii.eqb ".") rest = true ->
  k cp (last_char prev (decimal_text ip fp)) rest = Some res ->
  m true (seq [plus digit; opt (seq [lit "."; plus digit])]) cp prev
    (decimal_text ip fp ++ rest) k = Some res.
Proof.
  intros Hne Hip Hfp Hd Hdot Hk. cbn [seq]. rewrite m_seq.
  destruct fp as [|c fp]; cbn [decimal_text] in *.
  - apply plus_all; [done|done|done|]. cbv beta.
    unfold opt. cbn [m]. destruct rest as [|r rest].
    + cbn [m lit]. exact Hk.
    + simpl in Hdot. apply negb_true_iff in Hdot.
      cbn [m lit cmatch imatch same_char].
      replace (Ascii.eqb (upper_char ".") (upper_char r)) with false; [exact Hk|].
      symmetry. revert Hdot. clear. by each_char r.
  - rewrite !append_assoc. apply plus_all; [done|done|done|]. cbv beta.
    unfold opt. apply m_alt_left. rewrite m_seq, m_lit.
    apply plus_all; [done|done|done|].
    rewrite !last_char_append in Hk. exact Hk.
Qed.

(** On [convert <amount> <from> to <to>] the pattern matches at the start
    and captures the three parts. *)
Lemma exec_convert ip fp from to :
  ip <> EmptyString -> all_chars is_digit ip = true -> all_chars is_digit fp = true ->
  from <> EmptyString -> all_chars is_word from = true ->
  to <> EmptyString -> all_chars is_word to = true ->
  let lower := ("convert " ++ decimal_text ip fp ++ " " ++ from ++ " to " ++ to)%string in
  exec convert_pattern lower =
    Some {| index := 0; whole := lower;
            groups := [(3%nat, to); (2%nat, from); (1%nat, decimal_text ip fp)];
            after := EmptyString |}.
Proof.
  intros Hip Dip Dfp Hfrom Wfrom Hto Wto lower.
  assert (Hm : match_here true (source convert_pattern) None lower
               = Some ([(3%nat, to); (2%nat, from); (1%nat, decimal_text ip fp)], EmptyString)).
  { unfold match_here, lower. cbn [source convert_pattern re_i seq].
    change "convert " with ("convert" ++ " ")%string. rewrite !append_assoc.
    rewrite m_seq, m_lit. rewrite m_seq.
    change (" " ++ decimal_text ip fp ++ " " ++ from ++ " to " ++ to)%string
      with (" " ++ (decimal_text ip fp ++ " " ++ from ++ " to " ++ to))%string.
    apply plus_all; [done|done| |].
    { destruct fp; cbn [decimal_text]; rewrite ?append_assoc;
        by apply (stops_append _ is_digit); [| |apply digit_not_space]. }
    cbv beta. rewrite m_seq.
    apply group_all.
    { intros k' Hk'. apply m_amount; done. }
    rewrite m_seq.
    apply (star_all true space _ _ " " (from ++ " to " ++ to)); [done| |].
    { by apply (stops_append _ is_word); [| |apply word_not_space]. }
    rewrite m_seq. apply group_all.
    { intros k' Hk'. by apply plus_all. }
    rewrite m_seq.
    change (" to " ++ to)%string with (" " ++ ("to" ++ (" " ++ to)))%string.
    apply plus_all; [done|done|done|]. cbv beta.
    rewrite m_seq, m_lit.
    rewrite m_seq. apply plus_all; [done|done| |].
    { rewrite <- (append_nil to) at 1.
      destruct to as [|c t]; [done|]. simpl in Wto. apply andb_true_iff in Wto as [Hc _].
      simpl. by rewrite (word_not_space c Hc). }
    cbv beta.
    rewrite <- (append_nil to) at 2.
    assert (to = (to ++ EmptyString)%string) as Hto'.
    { clear. induction to as [|c t IH]; [done|]. rewrite append_cons. by rewrite <- IH. }
    rewrite Hto' at 1.
    apply group_all; [|done].
    intros k' Hk'. by apply plus_all. }
  unfold exec. generalize dependent lower. intros lower Hm.
  destruct lower; cbn [search]; cbn [ignoreCase convert_pattern re_i] in *;
    rewrite Hm; by rewrite consumed_all.
Qed.

(** Text that starts with a character outside the arithmetic class is not
    bare arithmetic. *)
Lemma direct_math_needs_symbols c s :
  cmatch false direct_math_class c = false ->
  exec direct_math_pattern (String c s) = None.
Proof.
  intros Hc. unfold exec. cbn [search ignoreCase source direct_math_pattern re seq].
  unfold match_here, plus. cbn [m]. rewrite Hc. apply search_bol.
Qed.

(** Claim C4, as amended. For every query, [primaryIntent] and [confidence]
    are those of the first rule group, in the analyzer's evaluation order,
    that matches, and a later-matching group does not overwrite them, with
    two exceptions that set both whenever they match: the bare-arithmetic
    group and the explicit currency-conversion group. *)
Theorem primary_intent_precedence message :
  let lower := toLowerCase message in
  verdict (analyzeQuery message) =
    if test direct_math_pattern lower then (Some math, c095)
    else if test convert_pattern lower then (Some currency_convert, c095)
    else first_match (claim_rules message).
Proof. exact (verdict_precedence message). Qed.

(** The weather group matches first and sets its flag and the intent; the
    conversion group, which comes later, then replaces the intent. *)
Lemma convert_overrides_weather :
  let message := "weather in Paris convert 5 usd to eur" in
  first_match (spec_rules message) = (Some weather, c095)
  /\ needsWeather (analyzeQuery message) = true
  /\ verdict (analyzeQuery message) = (Some currency_convert, c095).
Proof. repeat split; by vm_compute. Qed.

(** Claim C8. For every query of the form [convert <amount> <FROM> to <TO>],
    in any letter case, where the amount is digits with an optional
    fraction and FROM and TO are words, the analysis has
    [needsCurrency = true], [currencyAmount] equal to the parsed amount,
    [currencyFrom] and [currencyTo] equal to FROM and TO in capitals,
    [primaryIntent = currency_convert] and [confidence = 0.95]. The parsed
    amount is the Number value of the amount written: the binary64 number
    nearest to it, the even one of two equally near, [Infinity] when the
    amount is too large; it is the amount written itself whenever that is a
    binary64 number. *)
Theorem convert_query_is_understood (message kw ip fp FROM kt TO : string) :
  message = (kw ++ " " ++ decimal_text ip fp ++ " " ++ FROM ++ " " ++ kt ++ " " ++ TO)%string ->
  toLowerCase kw = "convert" -> toLowerCase kt = "to" ->
  ip <> EmptyString -> all_chars is_digit ip = true -> all_chars is_digit fp = true ->
  FROM <> EmptyString -> all_chars is_word FROM = true ->
  TO <> EmptyString -> all_chars is_word TO = true ->
  let a := analyzeQuery message in
  needsCurrency a = true
  /\ currencyAmount a = Some (parseFloat (decimal_text ip fp))
  /\ nearest64 (spec_amount ip fp) (parseFloat (decimal_text ip fp))
  /\ (binary64 (spec_amount ip fp) ->
      currencyAmount a = Some (Fin (Qred (spec_amount ip fp))))
  /\ currencyFrom a = Some (toUpperCase FROM)
  /\ currencyTo a = Some (toUpperCase TO)
  /\ primaryIntent a = Some currency_convert
  /\ confidence a = c095.
Proof.
  intros -> Hkw Hkt Hip Dip Dfp Hfrom Wfrom Hto Wto a.
  set (message := (kw ++ " " ++ decimal_text ip fp ++ " " ++ FROM ++ " " ++ kt ++ " " ++ TO)%string) in *.
  assert (Hlower : toLowerCase message =
    ("convert " ++ decimal_text ip fp ++ " " ++ toLowerCase FROM ++ " to " ++ toLowerCase TO)%string).
  { unfold message, toLowerCase. rewrite !map_chars_append.
    fold toLowerCase. rewrite Hkw, Hkt.
    assert (toLowerCase (decimal_text ip fp) = decimal_text ip fp) as ->; [|done].
    destruct fp as [|c fp]; cbn [decimal_text]; [by apply lower_digits|].
    unfold toLowerCase. rewrite !map_chars_append. fold toLowerCase.
    by rewrite (lower_digits ip Dip), (lower_digits _ Dfp). }
  pose proof (exec_convert ip fp (toLowerCase FROM) (toLowerCase TO) Hip Dip Dfp
                (lower_nonempty _ Hfrom) (lower_word _ Wfrom)
                (lower_nonempty _ Hto) (lower_word _ Wto)) as Hexec.
  cbv zeta in Hexec. rewrite <- Hlower in Hexec.
  assert (Hdirect : test direct_math_pattern (toLowerCase message) = false).
  { rewrite test_exec, Hlower.
    change ("convert " ++ ?x)%string with (String "c" ("onvert " ++ x)).
    by rewrite direct_math_needs_symbols. }
  destruct (analyze_verdict message) as (_ & _ & Hkeep).
  specialize (Hkeep Hdirect). fold a in Hkeep.
  pose proof (verdict_precedence message) as Hv. cbv zeta in Hv.
  rewrite Hdirect in Hv. rewrite (test_exec convert_pattern), Hexec in Hv.
  fold a in Hv. unfold verdict in Hv. injection Hv as Hp Hc.
  unfold step_currency_convert in Hkeep. rewrite Hexec in Hkeep.
  destruct Hkeep as (Ka & Kf & Kt & Kn).
  cbn in Ka, Kf, Kt, Kn. rewrite upper_lower in Kf, Kt.
  destruct (parseFloat_amount ip fp Hip Dip Dfp) as [Hnear Hexact].
  split_all; try done.
  - by apply Kn.
  - intros Hb. by rewrite Ka, (Hexact Hb).
Qed.

Lemma convert_query_is_understood_witness :
  let message := "Convert 100 USD to EUR" in
  let a := analyzeQuery message in
  (message = ("Convert" ++ " " ++ decimal_text "100" EmptyString ++ " " ++ "USD"
              ++ " " ++ "to" ++ " " ++ "EUR")%string
   /\ toLowerCase "Convert" = "convert" /\ toLowerCase "to" = "to"
   /\ all_chars is_digit "100" = true
   /\ all_chars is_word "USD" = true /\ all_chars is_word "EUR" = true)
  /\ binary64 (spec_amount "100" EmptyString)
  /\ needsCurrency a = true
  /\ currencyAmount a = Some (Fin 100)
  /\ nearest64 (spec_amount "100" EmptyString) (Fin 100)
  /\ currencyFrom a = Some "USD"
  /\ currencyTo a = Some "EUR"
  /\ primaryIntent a = Some currency_convert
  /\ confidence a = c095.
Proof.
  intros message a. split; [split_all; reflexivity|].
  assert (Hb : binary64 (spec_amount "100" EmptyString)).
  { exists 100, 0. split; [lia|]. split; [lia|]. reflexivity. }
  split; [exact Hb|].
  destruct (convert_query_is_understood message "Convert" "100" EmptyString "USD" "to" "EUR"
              eq_refl eq_refl eq_refl ltac:(discriminate) eq_refl eq_refl
              ltac:(discriminate) eq_refl ltac:(discriminate) eq_refl)
    as (H1 & H2 & H3 & H4 & H5 & H6 & H7 & H8).
  split; [exact H1|]. split; [exact (H4 Hb)|]. split.
  { assert (E : parseFloat (decimal_text "100" EmptyString) = Fin 100)
      by (vm_compute; reflexivity).
    rewrite <- E. exact H3. }
  split; [exact H5|]. split; [exact H6|]. split; [exact H7|exact H8].
Defined.

(** *** The stoplist *)
Lemma stop_words_rejected : Forall (fun w => acceptable_location w = false) stop_words.
Proof. repeat constructor. Qed.

Lemma acceptable_not_stop_word loc :
  acceptable_location loc = true ->
  (1 < length loc)%nat /\ test stoplist loc = false /\ ~ In loc stop_words.
Proof.
  intros H. split_all.
  - unfold acceptable_location in H. apply andb_true_iff in H as [H _].
    apply andb_true_iff in H as [_ H]. by apply Nat.ltb_lt in H.
  - unfold acceptable_location in H. apply andb_true_iff in H as [_ H].
    by apply negb_true_iff in H.
  - intros Hin. pose proof stop_words_rejected as Hall.
    rewrite Forall_forall in Hall. apply list_elem_of_In in Hin.
    specialize (Hall loc Hin). simpl in Hall. congruence.
Qed.

(** Claim C9, as amended. The capture of a time pattern is rejected when,
    once cleaned, it is empty, a single character or exactly one of the
    words what, the, is, it, me, you, a, an: the loop then goes on to the
    next pattern, so that for every query [timeLocation] is either left
    unset with [needsTime] false, or "UTC", or a text of two characters or
    more that the stoplist does not match and that is none of these words,
    with [needsTime] true. (A capture of several words, such as "is a", is
    not rejected.) *)
Theorem time_location_guard message :
  match timeLocation (analyzeQuery message) with
  | None => needsTime (analyzeQuery message) = false
  | Some loc =>
      needsTime (analyzeQuery message) = true
      /\ (loc = "UTC"
          \/ ((1 < length loc)%nat /\ test stoplist loc = false /\ ~ In loc stop_words))
  end
  /\ (forall p ps lower a,
        time_loop (p :: ps) lower a =
        if captured_location p lower then time_loop [p] lower a
        else time_loop ps lower a)
  /\ Forall (fun w => acceptable_location w = false) stop_words.
Proof.
  split_all.
  - destruct (analyze_verdict message) as (_ & H & _).
    destruct (timeLocation (analyzeQuery message)) as [loc|]; [|done].
    destruct H as [Hn [->|Hacc]]; (split; [done|]); [by left|right].
    by apply acceptable_not_stop_word.
  - intros p ps lower a. unfold captured_location. cbn [time_loop].
    destruct (exec p lower) as [mt|]; [|done].
    destruct (group 1 mt) as [g1|]; [|done].
    destruct (nonempty g1); [|done]. cbn [andb].
    by destruct (acceptable_location (clean_location g1)).
  - apply stop_words_rejected.
Qed.

(** The query "is a time?": the fifth time pattern captures "is a", which
    passes the stoplist and becomes the location. *)
Lemma function_words_pass_the_stoplist :
  (group 1 <$> (nth_error timePatterns 4 ≫= fun p => exec p "is a time?")) = Some (Some "is a")
  /\ test stoplist "is a" = false
  /\ acceptable_location "is a" = true
  /\ timeLocation (analyzeQuery "is a time?") = Some "is a"
  /\ needsTime (analyzeQuery "is a time?") = true
  /\ verdict (analyzeQuery "is a time?") = (Some time, c095).
Proof. repeat split; by vm_compute. Qed.

End AnalyzerFacts.

(* ----------------------------------------------------------------- *)
(** ** The embedding at work *)

Section Examples.

Import Js JsString Regex QueryAnalyzer.

(** A lazy capture stops at the first place where the rest of the pattern
    matches; a greedy one runs to the end and gives back. *)
Example lazy_capture :
  (exec (re (seq [Grp 1 (plus_lazy CAny); lit " time"])) "is a time of a time"
     ≫= group 1) = Some "is a".
Proof. reflexivity. Qed.

Example greedy_capture :
  (exec (re (seq [Grp 1 (plus CAny); lit " time"])) "is a time of a time"
     ≫= group 1) = Some "is a time of a".
Proof. reflexivity. Qed.

Example word_boundary :
  test quote_pattern "a quote please" = true /\ test quote_pattern "misquoted" = false.
Proof. split; reflexivity. Qed.

Example replace_every_match :
  replace filler_words EmptyString "london right now please" = "london  ".
Proof. reflexivity. Qed.

Example sanitized_expression : MathService.sanitize "2^3 + abc" = "2**3 + ".
Proof. reflexivity. Qed.

Example parse_amount : parseFloat "5.25" = Fin (21 # 4).
Proof. by vm_compute. Qed.

(** Amounts that are not binary64 numbers are rounded: the nearest number
    to [0.1], the even neighbour of [2^53 + 1], zero and [Infinity] at the
    two ends. *)
Example parse_amount_rounds :
  parseFloat "0.1" = Fin (3602879701896397 # 36028797018963968)
  /\ parseFloat "9007199254740993" = Fin 9007199254740992
  /\ parseFloat ("0." ++ string_of_list_ascii (List.repeat "0"%char 400) ++ "1") = Fin 0
  /\ parseFloat (String "1" (string_of_list_ascii (List.repeat "0"%char 400))) = PosInf.
Proof. split_all; by vm_compute. Qed.

(** Bare arithmetic. *)
Example analyze_bare_arithmetic :
  let a := analyzeQuery "(3*4)/2" in
  needsMath a = true /\ mathExpression a = Some "(3*4)/2"
  /\ verdict a = (Some math, c095).
Proof. repeat split; by vm_compute. Qed.

Example analyze_time_in_tokyo :
  let a := analyzeQuery "What time is it in Tokyo?" in
  needsTime a = true /\ timeLocation a = Some "tokyo" /\ verdict a = (Some time, c095).
Proof. repeat split; by vm_compute. Qed.

(** The capture "what" of the fifth time pattern is on the stoplist; the
    general time rule then answers with UTC. *)
Example analyze_what_time :
  let a := analyzeQuery "what time?" in
  needsTime a = true /\ timeLocation a = Some "UTC" /\ verdict a = (Some time, c08).
Proof. repeat split; by vm_compute. Qed.

(** A query that is both about the weather and about the time of day. *)
Example analyze_two_categories :
  let a := analyzeQuery "time in rome and weather in paris" in
  needsTime a = true /\ needsWeather a = true /\ verdict a = (Some time, c095).
Proof. repeat split; by vm_compute. Qed.

Example analyze_unrecognized :
  let a := analyzeQuery "hello there friend" in
  needsWebSearch a = true /\ searchTerms a = ["hello there friend"]
  /\ verdict a = (Some web_search, c05).
Proof. repeat split; by vm_compute. Qed.

End Examples.

(* ================================================================= *)
(** ** The cache: counters, cleanups, eviction *)

Section CacheAuditFacts.

Import SmartCache CacheAudit.

Context {V : Type}.

Implicit Types (h : Heap V) (c : t V) (k : string) (v : V).

(** The counters after one operation. *)
Lemma exec_stats now o h :
  let s := stats (this h) in
  let s' := stats (this (exec now o h).2) in
  let r := (exec now o h).1 in
  hits s' = (hits s + (if returned_data o r then 1 else 0))%nat
  /\ misses s' = (misses s + (if returned_null o r then 1 else 0))%nat
  /\ sets s' = (sets s + (if is_set o then 1 else 0))%nat.
Proof.
  destruct o as [k a|k d l|k a|k| |i]; simpl; try lia.
  - unfold get. destruct (cache (this h) !! k) as [e|]; [|simpl; lia].
    destruct (_ <? _); simpl; lia.
  - destruct (pending h !! i) as [tm|]; [|simpl; lia].
    destruct (_ <=? _); [|simpl; lia]. simpl. unfold cleanup.
    destruct (cache (this h) !! t_key tm) as [e|]; [|lia].
    destruct (_ <=? _); simpl; lia.
Qed.

Lemma run_stats evs : forall h,
  let s := stats (this h) in
  let s' := stats (this (run evs h).2) in
  let rs := (run evs h).1 in
  hits s' = (hits s + answered returned_data evs rs)%nat
  /\ misses s' = (misses s + answered returned_null evs rs)%nat
  /\ sets s' = (sets s + count is_set evs)%nat.
Proof.
  induction evs as [|[now o] evs IH]; intros h; [unfold count; simpl; lia|].
  cbn [run]. pose proof (exec_stats now o h) as H1. cbv zeta in H1.
  destruct (exec now o h) as [r h'] eqn:Hex.
  specialize (IH h'). cbv zeta in IH. destruct (run evs h') as [rs h''] eqn:Hrun.
  cbn [fst snd answered] in *. unfold count in *. cbn [List.filter snd].
  destruct H1 as (H1 & H2 & H3). destruct IH as (I1 & I2 & I3).
  rewrite I1, I2, I3, H1, H2, H3.
  destruct (is_set o); cbn [List.length]; lia.
Qed.

Lemma served_or_not evs : forall (rs : list (Ret V)),
  List.length rs = List.length evs ->
  (answered returned_data evs rs + answered returned_null evs rs = count is_get evs)%nat.
Proof.
  induction evs as [|[now o] evs IH]; intros rs Hlen; [by destruct rs|].
  destruct rs as [|r rs]; [done|]. simpl in Hlen.
  specialize (IH rs ltac:(lia)). unfold count in *. cbn [answered List.filter snd].
  destruct o as [k a|k d l|k a|k| |i]; cbn [returned_data returned_null is_get List.length];
    try lia.
  destruct r as [[w|]| |]; lia.
Qed.

Lemma run_length evs : forall h, List.length (run evs h).1 = List.length evs.
Proof.
  induction evs as [|[now o] evs IH]; intros h; [done|].
  simpl. destruct (exec now o h) as [r h']. specialize (IH h').
  destruct (run evs h') as [rs h'']. simpl in *. by rewrite IH.
Qed.


(** *** Cleanups *)

(** A timer other than the one that runs stays pending. *)
Lemma elem_of_delete_other {A} (l : list A) i x y :
  x ∈ l -> l !! i = Some y -> x <> y -> x ∈ base.delete i l.
Proof.
  revert i. induction l as [|z l IH]; intros i Hx Hi Hne; [by apply elem_of_nil in Hx|].
  destruct i as [|i]; simpl in *.
  - injection Hi as ->. apply elem_of_cons in Hx as [->|Hx]; done.
  - apply elem_of_cons in Hx as [->|Hx]; [left|right]. by eapply IH.
Qed.

(** The cleanup of an entry removes it when it runs on time. *)
Lemma cleanup_of_removes now c k (e : Entry V) :
  cache c !! k = Some e -> ttl e <= max_delay ->
  t_due (cleanup_of k e) <= now ->
  cache (cleanup now (cleanup_of k e) c) !! k = None.
Proof.
  intros He Hmax Hdue. unfold cleanup, cleanup_of in *. simpl in *. rewrite He.
  unfold timeout_delay, max_delay in *.
  destruct (Z.leb_spec (ttl e) (now - timestamp e)) as [_|Hlt].
  - simpl. apply lookup_delete_eq.
  - exfalso. destruct (Z.ltb_spec (ttl e) 1), (Z.ltb_spec 2147483647 (ttl e)); simpl in Hdue; lia.
Qed.

Lemma exec_awaited now o h : awaited h -> awaited (exec now o h).2.
Proof.
  intros Hinv. destruct o as [k' a|k' d l|k' a|k'| |i]; simpl.
  - intros k e. unfold get. destruct (cache (this h) !! k') as [e'|] eqn:He'; simpl.
    + destruct (_ <? _); simpl; [apply Hinv|].
      intros He. apply lookup_delete_Some in He as [_ He]. by apply Hinv.
    + apply Hinv.
  - intros k e He Hmax. simpl in *.
    destruct (decide (k' = k)) as [->|Hne].
    + rewrite lookup_insert_eq in He. injection He as <-.
      apply elem_of_app. right. by apply list_elem_of_singleton.
    + rewrite lookup_insert_ne in He by done.
      apply elem_of_app. left. by apply Hinv.
  - done.
  - intros k e He. simpl in *. apply lookup_delete_Some in He as [_ He]. by apply Hinv.
  - intros k e He. by simpl in He.
  - destruct (pending h !! i) as [tm|] eqn:Hi; [|done].
    destruct (Z.leb_spec (t_due tm) now) as [Hdue|]; [|done].
    intros k e He Hmax. simpl in *.
    assert (He0 : cache (this h) !! k = Some e).
    { destruct (cleanup_only_expired now tm (this h)) as [Heq|(e0 & _ & _ & Heq)].
      - by rewrite Heq in He.
      - rewrite Heq in He. by apply lookup_delete_Some in He as [_ He]. }
    apply (elem_of_delete_other _ i _ tm); [by apply Hinv|done|].
    intros <-. rewrite cleanup_of_removes in He; done.
Qed.

Lemma run_awaited evs : forall h, awaited h -> awaited (run evs h).2.
Proof.
  induction evs as [|[now o] evs IH]; intros h Hinv; [done|].
  simpl. pose proof (exec_awaited now o h Hinv) as H1.
  destruct (exec now o h) as [r h']. specialize (IH h' H1).
  by destruct (run evs h') as [rs h''].
Qed.

(** X2. No entry is left without its cleanup. In every state that the
    cache reaches from its construction, whatever the operations and the
    order in which timers fire, an entry stored with a [ttl] that
    [setTimeout] honours (at most 2^31-1 ms) still has the timer of the
    [set] that stored it pending; and when that timer runs, which is never
    before it is due, the entry is removed. *)
Theorem cache_entries_await_their_cleanup evs k (e : Entry V) :
  let h := (run evs fresh).2 in
  cache (this h) !! k = Some e -> ttl e <= max_delay ->
  cleanup_of k e ∈ pending h
  /\ forall now, t_due (cleanup_of k e) <= now ->
       cache (cleanup now (cleanup_of k e) (this h)) !! k = None.
Proof.
  intros h He Hmax. split.
  - apply (run_awaited evs fresh); [|done..]. intros k' e' He'. by simpl in He'.
  - intros now Hdue. by apply cleanup_of_removes.
Qed.

(** X3. [get] with a window shorter than the age of an entry evicts the
    entry for every caller, also for one that would accept that age;
    [has] with the same arguments answers the same but leaves the entry,
    so the caller with the longer window still gets the data. [has]
    answers true exactly when [get] would return data. *)
Theorem cache_short_window_get_evicts now k a a' c (e : Entry V) :
  cache c !! k = Some e -> a <= now - timestamp e -> now - timestamp e < a' ->
  has now k a c = false
  /\ (get now k a c).1 = None
  /\ (get now k a' c).1 = Some (data e)
  /\ (get now k a' (get now k a c).2).1 = None
  /\ forall now' b c', has now' k b c' = bool_decide (is_Some (get now' k b c').1).
Proof.
  intros He Hold Hyoung. split; [|split; [|split; [|split]]].
  - unfold has. rewrite He. by apply Z.ltb_ge.
  - by erewrite get_stale.
  - by erewrite get_hit.
  - erewrite (get_stale now k a c e) by done. simpl.
    unfold get. simpl. by rewrite lookup_delete_eq.
  - intros now' b c'. unfold has, get.
    destruct (cache c' !! k) as [e'|]; [|done]. by destruct (_ <? _).
Qed.

(** X4. [delete(key)] tells whether the key was stored, fresh or not;
    afterwards [get] and [has] of that key find nothing, whatever the
    window and the clock, while every other key answers as before; the
    counters are not touched. After [clear()] no key is found. *)
Theorem cache_delete_forgets_one_key k c :
  let c' := (delete k c).2 in
  (delete k c).1 = bool_decide (is_Some (cache c !! k))
  /\ stats c' = stats c
  /\ (forall now a, (get now k a c').1 = None /\ has now k a c' = false)
  /\ (forall now a k', k' <> k ->
        (get now k' a c').1 = (get now k' a c).1 /\ has now k' a c' = has now k' a c)
  /\ (forall now a k', (get now k' a (clear c).2).1 = None).
Proof.
  intros c'. split; [done|]. split; [done|]. split; [|split].
  - intros now a. unfold get, has, c'. simpl. by rewrite lookup_delete_eq.
  - intros now a k' Hne. unfold get, has, c'. simpl. rewrite lookup_delete_ne by done.
    split; [|done]. destruct (cache c !! k') as [e|]; [|done]. by destruct (_ <? _).
  - intros now a k'. unfold get. simpl. by rewrite lookup_empty.
Qed.

End CacheAuditFacts.

Section CacheAuditExamples.

Import SmartCache CacheAudit.

Lemma cache_entries_await_their_cleanup_witness :
  let evs := [(0, OpSet "weather_paris" 21%nat 600000); (5, OpGet "time_rome" 30000)] in
  let e := {| data := 21%nat; timestamp := 0; ttl := 600000 |} in
  let h := (run evs fresh).2 in
  cache (this h) !! "weather_paris" = Some e /\ ttl e <= max_delay
  /\ cleanup_of "weather_paris" e ∈ pending h
  /\ forall now, t_due (cleanup_of "weather_paris" e) <= now ->
       cache (cleanup now (cleanup_of "weather_paris" e) (this h)) !! "weather_paris" = None.
Proof.
  intros evs e h.
  assert (H1 : cache (this h) !! "weather_paris" = Some e) by reflexivity.
  assert (H2 : ttl e <= max_delay) by (vm_compute; discriminate).
  split; [exact H1|]. split; [exact H2|].
  exact (cache_entries_await_their_cleanup evs "weather_paris" e H1 H2).
Defined.

Lemma cache_short_window_get_evicts_witness :
  let c := this (set 0 "aqi_delhi" 152%nat 1800000 fresh).2 in
  let e := {| data := 152%nat; timestamp := 0; ttl := 1800000 |} in
  cache c !! "aqi_delhi" = Some e /\ 30000 <= 40000 - timestamp e
  /\ 40000 - timestamp e < 1800000
  /\ has 40000 "aqi_delhi" 30000 c = false
  /\ (get 40000 "aqi_delhi" 30000 c).1 = None
  /\ (get 40000 "aqi_delhi" 1800000 c).1 = Some 152%nat
  /\ (get 40000 "aqi_delhi" 1800000 (get 40000 "aqi_delhi" 30000 c).2).1 = None.
Proof.
  intros c e.
  assert (H1 : cache c !! "aqi_delhi" = Some e) by reflexivity.
  assert (H2 : 30000 <= 40000 - timestamp e) by (simpl; lia).
  assert (H3 : 40000 - timestamp e < 1800000) by (simpl; lia).
  destruct (cache_short_window_get_evicts 40000 "aqi_delhi" 30000 1800000 c e H1 H2 H3)
    as (H4 & H5 & H6 & H7 & _).
  repeat split; assumption.
Defined.

End CacheAuditExamples.

(* ================================================================= *)
(** ** The calculator's input filter *)

Section SanitizeFacts.

Import JsString Regex MathService Calculator.

(** Replacing every match of a one-character pattern. *)
Lemma replace_from_chr ci cs by_ s : forall prev,
  replace_from ci (Chr cs) by_ prev s 0 =
  match s with
  | EmptyString => EmptyString
  | String c s' =>
      ((if cmatch ci cs c then by_ else String c EmptyString)
       ++ replace_from ci (Chr cs) by_ (Some c) s' 0)%string
  end.
Proof.
  destruct s as [|c s]; intros prev; [done|].
  simpl. unfold match_here. simpl. destruct (cmatch ci cs c).
  - by replace (S (String.length s) - String.length s)%nat with 1%nat by lia.
  - by rewrite append_cons, append_nil.
Qed.

Lemma all_chars_append p s1 s2 :
  all_chars p (s1 ++ s2)%string = all_chars p s1 && all_chars p s2.
Proof.
  induction s1 as [|c s1 IH]; [done|].
  rewrite append_cons. simpl. by rewrite IH, andb_assoc.
Qed.

(** After the first replacement only arithmetic characters and carets are
    left ... *)
Lemma not_arithmetic_removed s : forall prev,
  all_chars (fun c => arithmetic_char c || Ascii.eqb c "^")
    (replace_from false (Regex.source not_arithmetic) EmptyString prev s 0) = true.
Proof.
  induction s as [|c s IH]; intros prev; [done|].
  unfold not_arithmetic, re_g, Regex.source. rewrite replace_from_chr.
  rewrite all_chars_append. rewrite andb_true_iff. split; [|apply IH].
  clear. by each_char c.
Qed.

(** ... and after the second one no caret. *)
Lemma caret_replaced s : forall prev,
  all_chars (fun c => arithmetic_char c || Ascii.eqb c "^") s = true ->
  all_chars arithmetic_char (replace_from false (Regex.source caret) "**" prev s 0) = true.
Proof.
  induction s as [|c s IH]; intros prev H; [done|].
  simpl in H. apply andb_true_iff in H as [Hc H].
  unfold caret, re_g, Regex.source, lit. rewrite replace_from_chr.
  rewrite all_chars_append. rewrite andb_true_iff. split; [|by apply IH].
  revert Hc. clear. by each_char c.
Qed.

(** Both replacements leave a string of arithmetic characters alone. *)
Lemma not_arithmetic_keeps s : forall prev,
  all_chars arithmetic_char s = true ->
  replace_from false (Regex.source not_arithmetic) EmptyString prev s 0 = s.
Proof.
  induction s as [|c s IH]; intros prev H; [done|].
  simpl in H. apply andb_true_iff in H as [Hc H].
  unfold not_arithmetic, re_g, Regex.source. rewrite replace_from_chr.
  fold (Regex.source not_arithmetic). unfold not_arithmetic, re_g, Regex.source in IH.
  rewrite (IH _ H). revert Hc. clear. by each_char c.
Qed.

Lemma caret_keeps s : forall prev,
  all_chars arithmetic_char s = true ->
  replace_from false (Regex.source caret) "**" prev s 0 = s.
Proof.
  induction s as [|c s IH]; intros prev H; [done|].
  simpl in H. apply andb_true_iff in H as [Hc H].
  unfold caret, re_g, Regex.source, lit. rewrite replace_from_chr.
  unfold caret, re_g, Regex.source, lit in IH.
  rewrite (IH _ H). revert Hc. clear. by each_char c.
Qed.

(** X5. Whatever text [evaluateMathExpression] is given, the expression it
    hands to the [Function] constructor holds nothing but digits, the
    operators [+ - * / %], parentheses, dots and white space: no letter, no
    quote, no caret (each caret has become [**]). An expression that is
    already made of such characters is handed over unchanged. *)
Theorem sanitize_leaves_arithmetic_only expression :
  all_chars arithmetic_char (sanitize expression) = true
  /\ (all_chars arithmetic_char expression = true -> sanitize expression = expression).
Proof.
  unfold sanitize, replace. simpl. split.
  - apply caret_replaced, not_arithmetic_removed.
  - intros H. change (Chr (COne (IChar "^"))) with (Regex.source caret).
    change (Chr (CSet true _)) with (Regex.source not_arithmetic).
    rewrite not_arithmetic_keeps by done. by apply caret_keeps.
Qed.

Lemma sanitize_leaves_arithmetic_only_witness :
  all_chars arithmetic_char "(12.5 + 3) * 4 % 5" = true
  /\ all_chars arithmetic_char (sanitize "(12.5 + 3) * 4 % 5") = true
  /\ sanitize "(12.5 + 3) * 4 % 5" = "(12.5 + 3) * 4 % 5".
Proof.
  assert (H : all_chars arithmetic_char "(12.5 + 3) * 4 % 5" = true) by reflexivity.
  destruct (sanitize_leaves_arithmetic_only "(12.5 + 3) * 4 % 5") as [H1 H2].
  split; [exact H|]. split; [exact H1|exact (H2 H)].
Defined.

End SanitizeFacts.

(* ================================================================= *)
(** ** The multi-source search and its cache *)

Section SearchFacts.

Import Js JsString Regex Promise WebSearch SearchChain.

(** [performWebSearch] on a cached query ... *)
Lemma performWebSearch_hit query w st hit :
  (SmartCache.get (clock st) (cache_key query) 1800000 (SmartCache.this (store st))).1 = Some hit ->
  exists st', performWebSearch query w st = (Fulfilled hit, st')
    /\ calls st' = calls st /\ clock st' = clock st.
Proof.
  intros H. unfold performWebSearch, bind, cache_get. fold (cache_key query).
  destruct (SmartCache.get _ _ _ _) as [v c]. simpl in H. subst v. simpl.
  eexists. split; [reflexivity|]. done.
Qed.

(** ... and on one that is not. *)
Lemma performWebSearch_miss query w st :
  (SmartCache.get (clock st) (cache_key query) 1800000 (SmartCache.this (store st))).1 = None ->
  exists r st', performWebSearch query w st = (Fulfilled r, st')
    /\ calls st' = calls st ++ asked query
    /\ clock st' = clock st + slowest w (calls st) (asked query)
    /\ ws_query r = query
    /\ allResults r = collect (answers w (calls st) (asked query))
    /\ bestAnswer r = determineBestAnswer (List.map Some (allResults r))
    /\ sources r = List.map WebSearch.source (allResults r)
    /\ searchedAt r = clock st
    /\ SmartCache.cache (SmartCache.this (store st')) !! cache_key query =
         match allResults r with
         | [] => None
         | _ => Some {| SmartCache.data := r; SmartCache.timestamp := clock st';
                        SmartCache.ttl := 1800000 |}
         end.
Proof.
  intros H. unfold performWebSearch, bind, cache_get. fold (cache_key query).
  destruct (SmartCache.get _ _ _ _) as [v c] eqn:Hget. simpl in H. subst v.
  cbn [now start_all bind ret start allSettled wait List.map fst snd calls clock store].
  assert (Hc : SmartCache.cache c !! cache_key query = None).
  { revert Hget. unfold SmartCache.get.
    destruct (SmartCache.cache _ !! _) as [e|] eqn:He; [|by intros [= <-]].
    destruct (_ <? _); [done|]. intros [= <-]. simpl. apply lookup_delete_eq. }
  cbn [foldr].
  change (collect _) with (collect (answers w (calls st) (asked query))).
  change (Z.max _ _) with (slowest w (calls st) (asked query)).
  remember (collect (answers w (calls st) (asked query))) as all eqn:Hall.
  assert (Hcalls : forall a b c d e : Call,
            ((((calls st ++ [a]) ++ [b]) ++ [c]) ++ [d]) ++ [e] = calls st ++ [a; b; c; d; e]).
  { intros. by rewrite <- !app_assoc. }
  destruct all as [|x all'].
  - eexists. eexists. split; [reflexivity|]. simpl.
    split; [apply Hcalls|]. by split_all.
  - set (res := {| ws_query := query; sources := List.map WebSearch.source (x :: all');
                   bestAnswer := determineBestAnswer (List.map Some (x :: all'));
                   allResults := x :: all'; searchedAt := clock st |}).
    exists res. destruct (bestAnswer res) as [best|] eqn:Hbest.
    + eexists. split; [reflexivity|]. simpl.
      split; [apply Hcalls|]. split_all; try done. by rewrite lookup_insert_eq.
    + eexists. split; [reflexivity|]. simpl.
      split; [apply Hcalls|]. split_all; try done. by rewrite lookup_insert_eq.
Qed.

(** X6. [performWebSearch] never throws: whatever the five sources do,
    rejections included, it returns a result object. When the cache holds
    a result for the query's key that is less than thirty minutes old, that
    object is returned, no source is asked and no time passes. Otherwise
    the five sources are asked once each, in the order of the source text;
    the function waits for the slowest of them; the result lists exactly
    what the sources that were fulfilled with a value answered, in that
    order, with the best answer among that and the clock reading of the
    start; and the result is cached under the query's key when at least one
    source answered, and only then. *)
Theorem performWebSearch_never_throws query w st :
  exists r st',
    performWebSearch query w st = (Fulfilled r, st')
    /\ match (SmartCache.get (clock st) (cache_key query) 1800000
                (SmartCache.this (store st))).1 with
       | Some hit => r = hit /\ calls st' = calls st /\ clock st' = clock st
       | None =>
           calls st' = calls st ++ asked query
           /\ clock st' = clock st + slowest w (calls st) (asked query)
           /\ ws_query r = query
           /\ allResults r = collect (answers w (calls st) (asked query))
           /\ bestAnswer r = determineBestAnswer (List.map Some (allResults r))
           /\ sources r = List.map WebSearch.source (allResults r)
           /\ searchedAt r = clock st
           /\ SmartCache.cache (SmartCache.this (store st')) !! cache_key query =
                match allResults r with
                | [] => None
                | _ => Some {| SmartCache.data := r; SmartCache.timestamp := clock st';
                               SmartCache.ttl := 1800000 |}
                end
       end.
Proof.
  destruct ((SmartCache.get (clock st) (cache_key query) 1800000
               (SmartCache.this (store st))).1) as [hit|] eqn:Hget.
  - destruct (performWebSearch_hit query w st hit Hget) as (st' & -> & Hc & Ht).
    by exists hit, st'.
  - destruct (performWebSearch_miss query w st Hget) as (r & st' & -> & Hrest).
    by exists r, st'.
Qed.

(** X7. A search that asked the sources and found something is served from
    the cache when it is repeated within thirty minutes: by any query with
    the same key (the key ignores letter case and the length of runs of
    white space), whatever the sources would answer now, the same result
    object comes back and no source is asked. *)
Theorem performWebSearch_repeat_is_cached query query' w w' st r st1 ms more :
  performWebSearch query w st = (Fulfilled r, st1) ->
  calls st1 <> calls st ->
  allResults r <> [] ->
  cache_key query' = cache_key query ->
  0 <= ms < 1800000 ->
  exists st2,
    performWebSearch query' w' (later ms more st1) = (Fulfilled r, st2)
    /\ calls st2 = calls (later ms more st1).
Proof.
  intros Hfirst Hasked Hfound Hkey Hms.
  destruct ((SmartCache.get (clock st) (cache_key query) 1800000
               (SmartCache.this (store st))).1) as [hit|] eqn:Hget.
  { destruct (performWebSearch_hit query w st hit Hget) as (st' & Heq & Hc & _).
    rewrite Heq in Hfirst. injection Hfirst as _ <-. done. }
  destruct (performWebSearch_miss query w st Hget)
    as (r0 & st' & Heq & _ & _ & _ & _ & _ & _ & _ & Hstore).
  rewrite Heq in Hfirst. injection Hfirst as <- <-.
  destruct (allResults r0) as [|x l] eqn:Hall; [done|].
  destruct (performWebSearch_hit query' w' (later ms more st') r0) as (st2 & -> & Hc & _).
  - rewrite Hkey. simpl. rewrite (get_hit _ _ _ _ _ Hstore) by (simpl; lia). reflexivity.
  - by exists st2.
Qed.

(** *** The chain of [smartSearch] *)

Lemma follows_more cs cs' st res :
  follows cs st res -> follows (cs ++ cs') st res.
Proof.
  intros [[n Hn] Hs]. split; [|done].
  exists (n `min` List.length cs)%nat. rewrite Hn. f_equal.
  rewrite firstn_app.
  replace (n `min` List.length cs - List.length cs)%nat with 0%nat by lia.
  simpl. rewrite app_nil_r.
  destruct (Nat.le_gt_cases n (List.length cs)).
  - by rewrite Nat.min_l.
  - rewrite Nat.min_r by lia. by rewrite !firstn_all2 by lia.
Qed.

Lemma follows_after c cs st st1 res :
  calls st1 = calls st ++ [c] ->
  follows cs st1 res -> follows (c :: cs) st res.
Proof.
  intros Hc [[n Hn] Hs]. split; [|done].
  exists (S n). rewrite Hn, Hc. simpl. by rewrite <- app_assoc.
Qed.

Lemma follows_stop c cs st st1 o :
  calls st1 = calls st ++ [c] -> shaped o ->
  follows (c :: cs) st (Fulfilled o, st1).
Proof. intros Hc Ho. split; [by exists 1%nat|done]. Qed.

Lemma follows_throw c cs st st1 e :
  calls st1 = calls st ++ [c] ->
  follows (c :: cs) st (@Rejected SearchOutcome e, st1).
Proof. intros Hc. split; [by exists 1%nat|done]. Qed.

Lemma shaped_found r b : shaped (found_by r b).
Proof. left. split; [done|by eexists]. Qed.

Lemma full_search_follows query w st :
  follows (asked query) st (full_search query w st).
Proof.
  unfold full_search, bind.
  assert (H : exists r st', performWebSearch query w st = (Fulfilled r, st')
                /\ exists n, calls st' = calls st ++ firstn n (asked query)).
  { destruct ((SmartCache.get (clock st) (cache_key query) 1800000
                 (SmartCache.this (store st))).1) as [hit|] eqn:Hget.
    - destruct (performWebSearch_hit query w st hit Hget) as (st' & Heq & Hc & _).
      exists hit, st'. split; [done|]. exists 0%nat. simpl. by rewrite app_nil_r.
    - destruct (performWebSearch_miss query w st Hget) as (r & st' & Heq & Hc & _).
      exists r, st'. split; [done|]. by exists 5%nat. }
  destruct H as (r & st' & -> & Hn).
  destruct (bestAnswer r) as [best|] eqn:Hbest; [|destruct (allResults r)].
  - split; [done|]. left. simpl. split; [done|by eexists].
  - split; [done|]. right. simpl. split; [done|]. split; [done|by eexists].
  - split; [done|]. right. simpl. split; [done|]. split; [done|by eexists].
Qed.

Lemma from_stack_follows query w st :
  follows ([searchStackExchange query] ++ asked query) st (from_stack query w st).
Proof.
  unfold from_stack, bind. rewrite await_call_eq.
  destruct (respond w (calls st) (searchStackExchange query)) as [[r|]|e].
  - apply follows_stop; [done|apply shaped_found].
  - eapply follows_after; [|apply full_search_follows]. done.
  - by apply follows_throw.
Qed.

Lemma from_dictionary_follows query w st :
  follows (dictionary_step query ++ [searchStackExchange query] ++ asked query) st
    (from_dictionary query w st).
Proof.
  unfold from_dictionary, dictionary_step.
  destruct (exec definition_query (toLowerCase query)) as [words|]; [|apply from_stack_follows].
  unfold bind. rewrite await_call_eq.
  destruct (respond w (calls st) _) as [[r|]|e].
  - apply follows_stop; [done|apply shaped_found].
  - eapply follows_after; [|apply from_stack_follows]. done.
  - by apply follows_throw.
Qed.

Lemma from_wikipedia_follows query w st :
  follows ([searchWikipedia query] ++ dictionary_step query
           ++ [searchStackExchange query] ++ asked query) st
    (from_wikipedia query w st).
Proof.
  unfold from_wikipedia, bind. rewrite await_call_eq.
  destruct (respond w (calls st) (searchWikipedia query)) as [[r|]|e].
  - destruct (truthy_value (answer r)).
    + apply follows_stop; [done|apply shaped_found].
    + eapply follows_after; [|apply from_dictionary_follows]. done.
  - eapply follows_after; [|apply from_dictionary_follows]. done.
  - by apply follows_throw.
Qed.

(** X8. Whatever the sources answer, [smartSearch] asks them in one fixed
    order and stops at some point of it: the direct-answer source, the
    encyclopedia, the dictionary (only for a definition query), the
    technical Q&A source, then the five sources of the full search; no
    call is made out of that order and none twice, except by the full
    search. What it returns either has [found = true] and a result, or
    [found = false], no result and a message. *)
Theorem smartSearch_follows_the_chain query w st :
  follows (chain query) st (smartSearch query w st).
Proof.
  unfold smartSearch, bind, chain. rewrite await_call_eq.
  destruct (respond w (calls st) (searchDuckDuckGo query)) as [[r|]|e].
  - destruct (is_direct r).
    + apply follows_stop; [done|apply shaped_found].
    + eapply follows_after; [|apply from_wikipedia_follows]. done.
  - eapply follows_after; [|apply from_wikipedia_follows]. done.
  - by apply follows_throw.
Qed.

End SearchFacts.

Section SearchExamples.

Import Js JsString Regex Promise WebSearch SearchChain.

Lemma performWebSearch_repeat_is_cached_witness :
  let answer_ := sample "instant_answer" "DuckDuckGo Instant Answer" (95 # 100) in
  let r := {| ws_query := "Speed of  Light";
              sources := ["DuckDuckGo Instant Answer"];
              bestAnswer := Some (format_answer answer_);
              allResults := [answer_];
              searchedAt := 0 |} in
  let st1 := (performWebSearch "Speed of  Light" sample_world sample_state).2 in
  performWebSearch "Speed of  Light" sample_world sample_state = (Fulfilled r, st1)
  /\ calls st1 <> calls sample_state
  /\ allResults r <> []
  /\ cache_key "speed of light" = cache_key "Speed of  Light"
  /\ 0 <= 60000 < 1800000
  /\ exists st2,
       performWebSearch "speed of light" sample_world (later 60000 [] st1) = (Fulfilled r, st2)
       /\ calls st2 = calls (later 60000 [] st1).
Proof.
  intros answer_ r st1.
  assert (H1 : performWebSearch "Speed of  Light" sample_world sample_state = (Fulfilled r, st1))
    by reflexivity.
  assert (H2 : calls st1 <> calls sample_state) by (vm_compute; discriminate).
  assert (H3 : allResults r <> []) by discriminate.
  assert (H4 : cache_key "speed of light" = cache_key "Speed of  Light") by reflexivity.
  assert (H5 : 0 <= 60000 < 1800000) by lia.
  repeat (split; [assumption|]).
  exact (performWebSearch_repeat_is_cached "Speed of  Light" "speed of light"
           sample_world sample_world sample_state r st1 60000 [] H1 H2 H3 H4 H5).
Defined.

End SearchExamples.

(* ================================================================= *)
(** ** What the analyzer asks for *)

Section RequestFacts.

Import Js JsString Regex QueryAnalyzer Requests.

Ltac clash :=
  match goal with
  | H1 : ?x = true, H2 : ?x = false |- _ => rewrite H1 in H2; discriminate H2
  | H1 : ?x = Some _, H2 : ?x = None |- _ => rewrite H1 in H2; discriminate H2
  end.

Ltac orderly_cases a :=
  unfold orderly, unsearched, exclusive, equipped, idle, keeps_math,
    claim_intent, force_intent, accept_time;
  let Hp := fresh "Hp" in
  destruct (primaryIntent a) eqn:Hp; cbn; rewrite ?Hp; cbn;
  intros;
  repeat match goal with
    | H : _ /\ _ |- _ => destruct H
    | H : ?x = ?x -> _ |- _ => specialize (H eq_refl)
    | H : Some _ = None -> _ |- _ => clear H
    end;
  split_all; intros; try clash; split_all; first [done | clash | by auto | tauto].

(** *** Replacing single characters *)

Lemma replace_from_map ci r (b : ascii) (p : ascii -> bool) :
  (forall prev, match_here ci r prev EmptyString = None) ->
  (forall prev c s, match_here ci r prev (String c s) = if p c then Some ([], s) else None) ->
  forall s prev,
    replace_from ci r (String b EmptyString) prev s 0 = map_chars (fun c => if p c then b else c) s.
Proof.
  intros H0 H1. induction s as [|c s IH]; intros prev.
  - simpl. by rewrite H0.
  - cbn [replace_from map_chars]. rewrite H1. destruct (p c).
    + replace (String.length (String c s) - String.length s)%nat with 1%nat by (simpl; lia).
      by rewrite IH.
    + by rewrite IH.
Qed.

Lemma to_operators_map s : to_operators s = map_chars operator_char s.
Proof.
  unfold to_operators, replace.
  cbn [global times_pattern division_pattern re_g ignoreCase Regex.source lit].
  rewrite (replace_from_map false _ "*"%char
             (fun c => cmatch false (COne (IChar "x")) c
                       || cmatch false (COne (IChar times_sign)) c)).
  2: done.
  2: { intros prev c t. unfold match_here. cbn [m].
       by destruct (cmatch false (COne (IChar "x")) c),
                   (cmatch false (COne (IChar times_sign)) c). }
  rewrite (replace_from_map false _ "/"%char (cmatch false (COne (IChar division_sign)))).
  2: done.
  2: { intros prev c t. unfold match_here. cbn [m].
       by destruct (cmatch false (COne (IChar division_sign)) c). }
  induction s as [|c s IH]; [done|]. cbn [map_chars]. rewrite IH. f_equal.
  clear. by each_char c.
Qed.

Lemma map_chars_present f s : nonempty s = true -> present (Some (map_chars f s)) = true.
Proof. by destruct s. Qed.

Lemma acceptable_present loc : acceptable_location loc = true -> present (Some loc) = true.
Proof. unfold acceptable_location. by destruct loc. Qed.

Lemma weather_location_present mt : present (Some (weather_location mt)) = true.
Proof.
  unfold weather_location. destruct (group 1 mt) as [g1|]; [|done].
  by destruct (trim g1).
Qed.

Lemma weather_loop_present ps lower a :
  weather_loop ps lower a = a
  \/ exists loc, present (Some loc) = true
       /\ weather_loop ps lower a =
            claim_intent weather c095
              (set_weatherLocation (Some loc) (set_needsWeather true a)).
Proof.
  induction ps as [|p ps IH]; [by left|]. rewrite weather_loop_cons.
  destruct (exec p lower) as [mt|]; [|exact IH].
  right. exists (weather_location mt). split; [apply weather_location_present|done].
Qed.

(** A text in which the class of arithmetic symbols matches is not empty. *)
Lemma math_symbol_nonempty s : test math_symbol s = true -> nonempty s = true.
Proof. by destruct s. Qed.

Lemma direct_math_nonempty s : test direct_math_pattern s = true -> nonempty s = true.
Proof. by destruct s. Qed.

(** *** The rule groups, one by one *)

Lemma time_orderly lower a : orderly a /\ unsearched a ->
  orderly (step_time lower a) /\ unsearched (step_time lower a).
Proof.
  unfold step_time.
  destruct (time_loop_spec timePatterns lower a) as [[_ ->]|[_ [loc [Hloc ->]]]]; [done|].
  apply acceptable_present in Hloc. revert Hloc. orderly_cases a.
Qed.

Lemma general_time_orderly lower a : orderly a /\ unsearched a ->
  orderly (step_general_time lower a) /\ unsearched (step_general_time lower a).
Proof.
  unfold step_general_time. destruct (negb (needsTime a) && test general_time lower); [|done].
  orderly_cases a.
Qed.

Lemma date_orderly lower a : orderly a /\ unsearched a ->
  orderly (step_date lower a) /\ unsearched (step_date lower a).
Proof. unfold step_date. destruct (test date_pattern lower); orderly_cases a. Qed.

Lemma weather_orderly lower a : orderly a /\ unsearched a ->
  orderly (step_weather lower a) /\ unsearched (step_weather lower a).
Proof.
  unfold step_weather.
  destruct (weather_loop_present weatherPatterns lower a) as [->|[loc [Hloc ->]]]; [done|].
  revert Hloc. orderly_cases a.
Qed.

Lemma convert_orderly lower a : orderly a /\ unsearched a ->
  orderly (step_currency_convert lower a) /\ unsearched (step_currency_convert lower a).
Proof.
  unfold step_currency_convert. destruct (exec convert_pattern lower); orderly_cases a.
Qed.

Lemma rate_orderly lower a : orderly a /\ unsearched a ->
  orderly (step_currency_rate lower a) /\ unsearched (step_currency_rate lower a).
Proof. unfold step_currency_rate. destruct (test rate_pattern lower); orderly_cases a. Qed.

Lemma crypto_name_orderly lower a : orderly a /\ unsearched a ->
  orderly (step_crypto_name lower a) /\ unsearched (step_crypto_name lower a).
Proof.
  unfold step_crypto_name.
  destruct (crypto_loop_spec cryptoNames lower a) as [[_ ->]|[_ [name ->]]]; [done|].
  orderly_cases a.
Qed.

Lemma crypto_market_orderly lower a : orderly a /\ unsearched a ->
  orderly (step_crypto_market lower a) /\ unsearched (step_crypto_market lower a).
Proof.
  unfold step_crypto_market. destruct (test crypto_market_pattern lower); orderly_cases a.
Qed.

Lemma dictionary_orderly lower a : orderly a /\ unsearched a ->
  orderly (step_dictionary lower a) /\ unsearched (step_dictionary lower a).
Proof.
  unfold step_dictionary. destruct (exec dict_pattern lower); orderly_cases a.
Qed.

Lemma math_orderly lower a : orderly a /\ unsearched a ->
  orderly (step_math lower a) /\ unsearched (step_math lower a).
Proof.
  unfold step_math. destruct (exec math_pattern lower) as [mt|]; [|done].
  destruct (test math_symbol _) eqn:Hsym; [|done].
  apply math_symbol_nonempty in Hsym.
  pose proof (map_chars_present operator_char _ Hsym) as Hp'.
  rewrite <- to_operators_map in Hp'. revert Hp'. orderly_cases a.
Qed.

Lemma direct_math_orderly lower a : orderly a /\ unsearched a ->
  orderly (step_direct_math lower a) /\ unsearched (step_direct_math lower a).
Proof.
  unfold step_direct_math. pose proof (direct_math_nonempty lower) as Hne.
  rewrite test_exec in Hne.
  destruct (exec direct_math_pattern lower) as [mt|]; [|done].
  pose proof (map_chars_present operator_char _ (Hne eq_refl)) as Hp'.
  rewrite <- to_operators_map in Hp'. revert Hp'. clear Hne. orderly_cases a.
Qed.

Lemma quote_orderly lower a : orderly a /\ unsearched a ->
  orderly (step_quote lower a) /\ unsearched (step_quote lower a).
Proof. unfold step_quote. destruct (test quote_pattern lower); orderly_cases a. Qed.

Lemma joke_orderly lower a : orderly a /\ unsearched a ->
  orderly (step_joke lower a) /\ unsearched (step_joke lower a).
Proof. unfold step_joke. destruct (test joke_pattern lower); orderly_cases a. Qed.

Lemma trivia_orderly lower a : orderly a /\ unsearched a ->
  orderly (step_trivia lower a) /\ unsearched (step_trivia lower a).
Proof. unfold step_trivia. destruct (test trivia_pattern lower); orderly_cases a. Qed.

Lemma knowledge_orderly lower a : orderly a /\ unsearched a ->
  orderly (step_knowledge lower a) /\ exclusive (step_knowledge lower a).
Proof.
  unfold step_knowledge. destruct (existsb _ knowledgePatterns); cbn [andb]; [|orderly_cases a].
  destruct (needsTime a) eqn:Ht; cbn [negb andb]; [revert Ht; orderly_cases a|].
  destruct (needsWeather a) eqn:Hw; cbn [negb andb]; [revert Ht Hw; orderly_cases a|].
  destruct (needsMath a) eqn:Hm; cbn [negb andb]; [revert Ht Hw Hm; orderly_cases a|].
  destruct (exec search_pattern lower); revert Ht Hw Hm; orderly_cases a.
Qed.

Lemma web_search_orderly message a : orderly a /\ exclusive a ->
  orderly (step_web_search message a) /\ exclusive (step_web_search message a).
Proof.
  unfold step_web_search, is_none.
  destruct (3 <? length (trim message))%nat; orderly_cases a.
Qed.

Lemma question_orderly message a : orderly a /\ exclusive a ->
  orderly (step_question message a) /\ exclusive (step_question message a).
Proof.
  unfold step_question, is_none.
  destruct (test ends_with_question (trim message)); [|orderly_cases a].
  destruct (nonempty _); orderly_cases a.
Qed.

Lemma analyze_orderly message :
  orderly (analyzeQuery message) /\ exclusive (analyzeQuery message).
Proof.
  unfold analyzeQuery.
  apply question_orderly, web_search_orderly, knowledge_orderly, trivia_orderly,
    joke_orderly, quote_orderly, direct_math_orderly, math_orderly, dictionary_orderly,
    crypto_market_orderly, crypto_name_orderly, rate_orderly, convert_orderly,
    weather_orderly, date_orderly, general_time_orderly, time_orderly.
  unfold orderly, unsearched, equipped, idle. cbn. by split_all.
Qed.

(** X9. Every analysis is ready for the calls that [gatherKnowledge]
    makes from it: a time request comes with a location, a weather request
    with a location ("New York" when the captured one is blank), an
    arithmetic request with an expression, each of them a non-empty string.
    And no analysis ever asks for news or for a country: the analyzer has
    no rule that sets these two flags. *)
Theorem analysis_is_equipped message :
  let a := analyzeQuery message in
  (needsTime a = true -> present (timeLocation a) = true)
  /\ (needsWeather a = true -> present (weatherLocation a) = true)
  /\ (needsMath a = true -> present (mathExpression a) = true)
  /\ needsNews a = false /\ needsCountry a = false.
Proof.
  intros a. destruct (analyze_orderly message) as [(He & Hn & Hc & _) _].
  destruct He as (H1 & H2 & H3). by split_all.
Qed.

(** X10. The encyclopedia is never asked about a query that was recognised
    as a time, weather or arithmetic query: whenever [needsWikipedia] is
    set, [needsTime], [needsWeather] and [needsMath] are not. *)
Theorem wikipedia_excludes_time_weather_math message :
  let a := analyzeQuery message in
  needsWikipedia a = true ->
  needsTime a = false /\ needsWeather a = false /\ needsMath a = false.
Proof. intros a. by destruct (analyze_orderly message) as [_ H]. Qed.

(** *** No intent *)

Lemma idle_asks_nothing a : idle a -> asks_nothing a.
Proof.
  unfold idle, asks_nothing, flags. intros H.
  repeat match goal with H : _ /\ _ |- _ => destruct H end.
  split; [|done]. by repeat (constructor; [done|]).
Qed.

Lemma long_message_has_intent message :
  (3 < length (trim message))%nat -> primaryIntent (analyzeQuery message) <> None.
Proof.
  intros Hlen. apply Nat.ltb_lt in Hlen.
  pose proof (verdict_precedence message) as Hv. cbv zeta in Hv.
  change (primaryIntent (analyzeQuery message)) with (fst (verdict (analyzeQuery message))).
  rewrite Hv. clear Hv.
  destruct (test direct_math_pattern _); [done|].
  destruct (test convert_pattern _); [done|].
  unfold first_match, claim_rules. rewrite Hlen. cbn [List.find fst].
  repeat match goal with
  | |- context [if ?b then _ else _] => destruct b; [done|]
  end.
  done.
Qed.

(** X11. An analysis without an intent asks for nothing: no category flag
    is set and there is no search term. Every message of more than three
    characters (ends trimmed) gets an intent. *)
Theorem no_intent_asks_nothing message :
  let a := analyzeQuery message in
  (primaryIntent a = None -> asks_nothing a /\ (length (trim message) <= 3)%nat)
  /\ ((3 < length (trim message))%nat -> primaryIntent a <> None).
Proof.
  intros a. split; [|apply long_message_has_intent].
  intros Hnone. split.
  - destruct (analyze_orderly message) as [(_ & _ & _ & H) _]. by apply idle_asks_nothing, H.
  - destruct (Nat.le_gt_cases (length (trim message)) 3) as [|Hlt]; [done|].
    by apply long_message_has_intent in Hlt.
Qed.

(** *** Bare arithmetic *)

Lemma direct_math_matches s :
  s <> EmptyString -> arithmetic_text s = true ->
  exec direct_math_pattern s =
    Some {| index := 0; whole := s; groups := []; after := EmptyString |}.
Proof.
  intros Hne Hall.
  assert (Hm : match_here false (Regex.source direct_math_pattern) None s = Some ([], EmptyString)).
  { unfold match_here. cbn [Regex.source direct_math_pattern re seq].
    rewrite m_seq. change (m false Bol [] None s ?k) with (k [] None s). cbv beta.
    rewrite <- (append_empty s) at 1. rewrite m_seq. by apply plus_all. }
  unfold exec. destruct s; cbn [search]; cbn [ignoreCase direct_math_pattern re] in *;
    rewrite Hm; by rewrite consumed_all.
Qed.

Lemma quote_keeps_math lower a : keeps_math a (step_quote lower a).
Proof. unfold step_quote. destruct (test quote_pattern lower); orderly_cases a. Qed.

Lemma joke_keeps_math lower a : keeps_math a (step_joke lower a).
Proof. unfold step_joke. destruct (test joke_pattern lower); orderly_cases a. Qed.

Lemma trivia_keeps_math lower a : keeps_math a (step_trivia lower a).
Proof. unfold step_trivia. destruct (test trivia_pattern lower); orderly_cases a. Qed.

Lemma knowledge_keeps_math lower a : keeps_math a (step_knowledge lower a).
Proof.
  unfold step_knowledge. destruct (_ && _); [|orderly_cases a].
  destruct (exec search_pattern lower); orderly_cases a.
Qed.

Lemma web_search_keeps_math message a : keeps_math a (step_web_search message a).
Proof. unfold step_web_search. destruct (_ && _); orderly_cases a. Qed.

Lemma question_keeps_math message a : keeps_math a (step_question message a).
Proof.
  unfold step_question. destruct (_ && _); [|orderly_cases a].
  destruct (nonempty _); orderly_cases a.
Qed.

(** The groups after the bare-arithmetic one do not touch what it set. *)
Lemma after_direct_math lower message a :
  keeps_math a
    (step_question message (step_web_search message (step_knowledge lower
      (step_trivia lower (step_joke lower (step_quote lower a)))))).
Proof.
  unfold keeps_math.
  destruct (question_keeps_math message
    (step_web_search message (step_knowledge lower
      (step_trivia lower (step_joke lower (step_quote lower a)))))) as [-> ->].
  destruct (web_search_keeps_math message
    (step_knowledge lower (step_trivia lower (step_joke lower (step_quote lower a)))))
    as [-> ->].
  destruct (knowledge_keeps_math lower
    (step_trivia lower (step_joke lower (step_quote lower a)))) as [-> ->].
  destruct (trivia_keeps_math lower (step_joke lower (step_quote lower a))) as [-> ->].
  destruct (joke_keeps_math lower (step_quote lower a)) as [-> ->].
  by destruct (quote_keeps_math lower a) as [-> ->].
Qed.

(** X12. A message made only of digits, white space, the operators
    [+ - * / ^], parentheses, dots, the letter x and the multiplication and
    division signs is an arithmetic request, whatever else it may look
    like: the intent is [math] with confidence 0.95 and the expression is
    the lower-cased message in which every x and multiplication sign has
    become [*] and every division sign [/]. *)
Theorem bare_arithmetic_is_math message :
  message <> EmptyString -> arithmetic_text (toLowerCase message) = true ->
  let a := analyzeQuery message in
  needsMath a = true
  /\ mathExpression a = Some (map_chars operator_char (toLowerCase message))
  /\ verdict a = (Some math, c095).
Proof.
  intros Hne Hall a.
  pose proof (direct_math_matches (toLowerCase message) (lower_nonempty _ Hne) Hall) as Hex.
  assert (Ht : test direct_math_pattern (toLowerCase message) = true)
    by (by rewrite test_exec, Hex).
  assert (Hv : verdict a = (Some math, c095)).
  { unfold a. pose proof (verdict_precedence message) as Hv. cbv zeta in Hv.
    by rewrite Hv, Ht. }
  split; [|split; [|exact Hv]]; unfold a, analyzeQuery;
    match goal with |- context [step_direct_math ?l ?x] =>
      let H1 := fresh in let H2 := fresh in
      destruct (after_direct_math l message (step_direct_math l x)) as [H1 H2];
      rewrite ?H1, ?H2; unfold step_direct_math
    end;
    rewrite Hex;
    cbn [needsMath mathExpression set_confidence set_primaryIntent set_mathExpression
         set_needsMath];
    by rewrite ?to_operators_map.
Qed.

End RequestFacts.

Section RequestExamples.

Import Js JsString Regex QueryAnalyzer Requests.

Lemma analysis_is_equipped_witness :
  let a := analyzeQuery "weather    " in
  needsWeather a = true /\ weatherLocation a = Some "New York"
  /\ present (weatherLocation a) = true.
Proof.
  intros a. assert (H : needsWeather a = true) by (by vm_compute).
  split; [exact H|]. split; [by vm_compute|].
  destruct (analysis_is_equipped "weather    ") as (_ & Hw & _). exact (Hw H).
Defined.

Lemma wikipedia_excludes_time_weather_math_witness :
  let a := analyzeQuery "who is Ada Lovelace" in
  needsWikipedia a = true
  /\ needsTime a = false /\ needsWeather a = false /\ needsMath a = false.
Proof.
  intros a. assert (H : needsWikipedia a = true) by (by vm_compute).
  split; [exact H|]. exact (wikipedia_excludes_time_weather_math "who is Ada Lovelace" H).
Defined.

Lemma no_intent_asks_nothing_witness :
  let a := analyzeQuery "ok" in
  primaryIntent a = None
  /\ asks_nothing a /\ (length (trim "ok") <= 3)%nat.
Proof.
  intros a. assert (H : primaryIntent a = None) by (by vm_compute).
  split; [exact H|].
  destruct (no_intent_asks_nothing "ok") as [H1 _]. exact (H1 H).
Defined.

Lemma bare_arithmetic_is_math_witness :
  let message := "12 X (3 + 4)" in
  message <> EmptyString /\ arithmetic_text (toLowerCase message) = true
  /\ needsMath (analyzeQuery message) = true
  /\ mathExpression (analyzeQuery message) = Some "12 * (3 + 4)"
  /\ verdict (analyzeQuery message) = (Some math, c095).
Proof.
  intros message.
  assert (H1 : message <> EmptyString) by discriminate.
  assert (H2 : arithmetic_text (toLowerCase message) = true) by (by vm_compute).
  split; [exact H1|]. split; [exact H2|].
  exact (bare_arithmetic_is_math message H1 H2).
Defined.

End RequestExamples.

(* ================================================================= *)
(** ** The orchestrator: what is asked, what is kept, when it searches *)

Section GatherFacts.

Import Js Promise QueryAnalyzer Server Requests Gathering.

Context {D : Type} (dateInfo : D).
Context (call_function : string -> MathService.Completion MathService.JsValue).
Context (toS : JsNumber -> string) (toF : JsNumber -> nat -> string).

Abbreviation gather' := (gatherKnowledge dateInfo call_function toS toF).
Abbreviation back' := (returned dateInfo call_function toS toF).
Abbreviation begin' := (start dateInfo call_function toS toF).
Abbreviation now' := (immediate dateInfo call_function toS toF).

Implicit Types (st : State D) (ev : Event D) (evs : list (Event D)).

(** An event leaves alone every property that is neither [webSearch] nor
    the property of one of the calls made. *)
Lemma step_results_frame message st ev k :
  k <> "webSearch" ->
  (forall i f, issued (analyzeQuery message) !! i = Some f -> key_of f <> k) ->
  results (step message st ev) !! k = results st !! k.
Proof.
  intros Hk Hf. destruct ev as [i p| |p].
  - destruct (existsb (Nat.eqb i) (waiting st)) eqn:Hw;
      [|by rewrite step_settle_idle].
    destruct (issued (analyzeQuery message) !! i) as [f|] eqn:Hi.
    + destruct (step_settle message st i p f Hi Hw) as [-> _].
      destruct p as [[d|]|e]; try done.
      rewrite lookup_insert_ne; [done|]. by eapply Hf.
    + simpl. by rewrite Hi.
  - simpl. destruct (phase st); try done. by rewrite after_race_results.
  - simpl. destruct (phase st); try done.
    destruct p as [o|[m|]]; [destruct (WebSearch.found o)| |]; try done.
    simpl. by rewrite lookup_insert_ne.
Qed.

Lemma run_results_frame message evs k : forall st,
  k <> "webSearch" ->
  (forall i f, issued (analyzeQuery message) !! i = Some f -> key_of f <> k) ->
  results (run message evs st) !! k = results st !! k.
Proof.
  induction evs as [|ev evs IH]; intros st Hk Hf; [done|].
  simpl. rewrite IH by done. by apply step_results_frame.
Qed.

(** What is read at the return was in [results] at some point of the
    schedule. *)
Lemma back_frame message evs k r :
  k <> "webSearch" ->
  (forall i f, issued (analyzeQuery message) !! i = Some f -> key_of f <> k) ->
  back' message evs = Some r -> r !! k = results (begin' message) !! k.
Proof.
  intros Hk Hf Hr. apply returned_from_prefix in Hr as (n & -> & _).
  by apply run_results_frame.
Qed.

Lemma start_results message r0 :
  now' (analyzeQuery message) = MathService.Normal r0 ->
  results (begin' message) = r0.
Proof.
  intros H0. unfold start. rewrite H0.
  destruct (issued _); [by rewrite after_race_results|done].
Qed.

(** The synchronous part writes [date] and [math] only. *)
Lemma immediate_keys a r0 k v :
  now' a = MathService.Normal r0 -> r0 !! k = Some v -> k = "date" \/ k = "math".
Proof.
  unfold immediate. intros H0 Hk.
  assert (Hbase : forall w, (if needsDate a then ({[ "date" := FromService dateInfo ]} : gmap string (Item D)) else ∅) !! k = Some w -> k = "date").
  { intros w. destruct (needsDate a); [|by rewrite lookup_empty].
    intros Hw. apply lookup_singleton_Some in Hw as [<- _]. done. }
  destruct (_ && _).
  - destruct (MathService.evaluateMathExpression _ _ _ _) as [[res|]|e]; simplify_eq.
    + destruct (decide (k = "math")) as [->|Hne]; [by right|].
      rewrite lookup_insert_ne in Hk by done. left. by eapply Hbase.
    + left. by eapply Hbase.
  - simplify_eq. left. by eapply Hbase.
Qed.

Lemma sync_key_fresh message k :
  k = "date" \/ k = "math" ->
  k <> "webSearch"
  /\ forall i f, issued (analyzeQuery message) !! i = Some f -> key_of f <> k.
Proof.
  intros Hk. split; [by destruct Hk as [->| ->]|].
  intros i f Hi Heq. apply issued_key_in in Hi. rewrite Heq in Hi.
  apply fetch_key_fresh in Hi as (? & ? & _). by destruct Hk.
Qed.

(** X13. What [gatherKnowledge] computes itself, without waiting, is never
    lost: the date information of a date query and the result of a
    calculation are in [results] from the start, no handler overwrites
    them whatever the schedule, and they are in the object that the caller
    reads at the return. *)
Theorem synchronous_results_are_kept message evs r0 k v :
  now' (analyzeQuery message) = MathService.Normal r0 ->
  r0 !! k = Some v ->
  (k = "date" \/ k = "math")
  /\ results (gather' message evs) !! k = Some v
  /\ (forall r, back' message evs = Some r -> r !! k = Some v)
  /\ (needsDate (analyzeQuery message) = true -> r0 !! "date" = Some (FromService dateInfo)).
Proof.
  intros H0 Hk. pose proof (immediate_keys _ _ _ _ H0 Hk) as Hdm.
  destruct (sync_key_fresh message k Hdm) as [Hw Hf].
  split; [done|]. split; [|split].
  - unfold gatherKnowledge. rewrite run_results_frame by done.
    by rewrite (start_results message r0).
  - intros r Hr. rewrite (back_frame message evs k r) by done.
    by rewrite (start_results message r0).
  - intros Hd. unfold immediate in H0. rewrite Hd in H0.
    destruct (_ && _).
    + destruct (MathService.evaluateMathExpression _ _ _ _) as [[res|]|e]; simplify_eq.
      * rewrite lookup_insert_ne by done. apply lookup_singleton_eq.
      * apply lookup_singleton_eq.
    + simplify_eq. apply lookup_singleton_eq.
Qed.

(** *** News and countries *)

Lemma issued_no_news message i f :
  issued (analyzeQuery message) !! i = Some f ->
  key_of f <> "news" /\ key_of f <> "country".
Proof.
  destruct (analyze_orderly message) as [(_ & Hn & Hc & _) _].
  intros Hi. apply list_elem_of_lookup_2 in Hi. revert Hi.
  unfold issued. rewrite Hn, Hc. cbn [when].
  rewrite !elem_of_app.
  assert (Hnil : forall o : option string,
            f ∈ match o with Some _ => @nil (@Fetch) | None => [] end -> False).
  { intros [t|] H; by apply elem_of_nil in H. }
  intros H.
  repeat match goal with
  | H : _ \/ _ |- _ => destruct H as [H|H]
  | H : f ∈ when ?b _ |- _ => destruct b; cbn [when] in H
  | H : f ∈ [] |- _ => by apply elem_of_nil in H
  | H : f ∈ [_] |- _ => apply list_elem_of_singleton in H; subst f
  | H : f ∈ match first_term ?a with _ => _ end |- _ => destruct (first_term a)
  end; try done; try (by destruct (_ && _)); try (by destruct (String.eqb _ _)).
Qed.

(** X14. [gatherKnowledge] never asks the news service nor the country
    service, and [results] never has a [news] or a [country] property,
    whatever the message and the schedule: the two branches that would
    make these calls test flags that [analyzeQuery] never sets. *)
Theorem news_and_country_are_never_fetched message evs :
  (forall i f, issued (analyzeQuery message) !! i = Some f ->
     forall x, f <> getNews x /\ f <> getCountryInfo x)
  /\ results (gather' message evs) !! "news" = None
  /\ results (gather' message evs) !! "country" = None
  /\ (forall r, back' message evs = Some r -> r !! "news" = None /\ r !! "country" = None).
Proof.
  assert (Hs : results (begin' message) !! "news" = None
               /\ results (begin' message) !! "country" = None).
  { split; apply start_no_fetch_key; unfold fetch_keys; set_solver. }
  assert (Hf : forall k, k = "news" \/ k = "country" ->
            k <> "webSearch"
            /\ forall i f, issued (analyzeQuery message) !! i = Some f -> key_of f <> k).
  { intros k Hk. split; [by destruct Hk as [->| ->]|].
    intros i f Hi. destruct (issued_no_news message i f Hi). by destruct Hk as [->| ->]. }
  destruct Hs as [Hs1 Hs2].
  destruct (Hf "news" (or_introl eq_refl)) as [Hn1 Hn2].
  destruct (Hf "country" (or_intror eq_refl)) as [Hc1 Hc2].
  split; [|split; [|split]].
  - intros i f Hi x. destruct (issued_no_news message i f Hi) as [H1 H2].
    split; intros ->; simpl in *; congruence.
  - unfold gatherKnowledge. by rewrite run_results_frame.
  - unfold gatherKnowledge. by rewrite run_results_frame.
  - intros r Hr. split.
    + by rewrite (back_frame message evs "news" r).
    + by rewrite (back_frame message evs "country" r).
Qed.

(** *** The fallback search *)

Lemma fallback_iff_empty (r : gmap string (Item D)) :
  needsWebSearchFallback r = true <-> r = ∅.
Proof.
  unfold needsWebSearchFallback. rewrite negb_true_iff.
  destruct (map_to_list r) as [|[k v] l] eqn:E; simpl.
  - apply map_to_list_empty_iff in E. by split.
  - split; [done|]. intros ->. by rewrite map_to_list_empty in E.
Qed.

Lemma after_race_served message a st :
  results st <> ∅ -> phase (after_race message a st) = Returned.
Proof.
  intros Hne. unfold after_race.
  destruct (needsWebSearchFallback (results st)) eqn:E; [|done].
  by apply fallback_iff_empty in E.
Qed.

Lemma step_served message st ev : served st -> served (step message st ev).
Proof.
  intros (Hne & Hph & Hws). unfold served.
  assert (Hgrow : results (step message st ev) <> ∅
                  /\ results (step message st ev) !! "webSearch" = None).
  { destruct ev as [i p| |p].
    - destruct (existsb (Nat.eqb i) (waiting st)) eqn:Hw;
        [|by rewrite step_settle_idle].
      destruct (issued (analyzeQuery message) !! i) as [f|] eqn:Hi;
        [|simpl; by rewrite Hi].
      destruct (step_settle message st i p f Hi Hw) as [-> _].
      destruct p as [[d|]|e]; try done. split; [apply insert_non_empty|].
      rewrite lookup_insert_ne; [done|].
      apply issued_key_in, fetch_key_fresh in Hi as (_ & _ & Hi). congruence.
    - simpl. destruct (phase st); try done. by rewrite after_race_results.
    - simpl. destruct (phase st) eqn:E; try done. by destruct (Hph searchQuery). }
  destruct Hgrow as [H1 H2]. split; [done|]. split; [|done].
  intros q Hq.
  destruct (step_phase message st ev) as [H|[[Hr [H|[q' H]]]|[[q' [H _]]|[H _]]]].
  - rewrite H in Hq. by destruct (Hph q).
  - congruence.
  - destruct ev as [i p| |p]; simpl in H, Hq.
    + destruct (issued (analyzeQuery message) !! i) as [f|] eqn:Hi; [|by destruct (Hph q)].
      destruct (existsb (Nat.eqb i) (waiting st)) eqn:Hw; [|by destruct (Hph q)].
      destruct (then_store _ _ _) as [x r'] eqn:Hst.
      rewrite Hr in Hq. destruct (catch_of f x); [|done].
      destruct (remove_index i (waiting st)); [|done].
      rewrite after_race_served in Hq; [done|]. simpl.
      destruct p as [[d|]|e]; simpl in Hst; simplify_eq; try done.
      apply insert_non_empty.
    + rewrite Hr in Hq. by rewrite after_race_served in Hq.
    + rewrite Hr in Hq. simpl in Hq. congruence.
  - by destruct (Hph q').
  - congruence.
Qed.

(** X15. The fallback web search is for queries that got nothing at all:
    when the synchronous part has produced a result (the date, or a
    calculation), no schedule makes [gatherKnowledge] start the search,
    and [results] never gets a [webSearch] property, also if every service
    call fails or times out. *)
Theorem no_fallback_after_a_synchronous_result message evs r0 :
  now' (analyzeQuery message) = MathService.Normal r0 ->
  r0 <> ∅ ->
  (forall q, phase (gather' message evs) <> Searching q)
  /\ results (gather' message evs) !! "webSearch" = None
  /\ (forall r, back' message evs = Some r -> r !! "webSearch" = None).
Proof.
  intros H0 Hne.
  assert (Hstart : served (begin' message)).
  { unfold served. rewrite (start_results message r0 H0). split; [done|]. split.
    - intros q. unfold start. rewrite H0.
      destruct (issued _); [|done]. by rewrite after_race_served.
    - destruct (r0 !! "webSearch") as [v|] eqn:E; [|done].
      by destruct (immediate_keys _ _ _ _ H0 E). }
  assert (Hall : forall evs', served (run message evs' (begin' message))).
  { intros evs'. apply (run_invariant served); [apply step_served|done]. }
  split; [apply (Hall evs)|]. split; [apply (Hall evs)|].
  intros r Hr. apply returned_from_prefix in Hr as (n & -> & _). apply Hall.
Qed.

(** X16. A message in which the analyzer finds no intent costs nothing:
    [gatherKnowledge] makes no service call and no search, and returns an
    empty object at once, whatever arrives later. *)
Theorem no_intent_gathers_nothing message evs :
  primaryIntent (analyzeQuery message) = None ->
  issued (analyzeQuery message) = []
  /\ gather' message evs = {| results := ∅; waiting := []; phase := Returned |}
  /\ back' message evs = Some ∅.
Proof.
  intros Hnone. destruct (analyze_orderly message) as [(_ & _ & _ & H) _].
  destruct (idle_asks_nothing _ (H Hnone)) as [Hflags Hterms]. clear H.
  unfold flags in Hflags. rewrite !Forall_cons in Hflags.
  destruct Hflags as (Ht & Hd & Hw & Hn & Hcu & Hcr & Hco & Hdi & Hm & Hq & Hj & Htr & Hwi & Hws & _).
  assert (Hi : issued (analyzeQuery message) = []).
  { unfold issued, first_term. by rewrite Ht, Hw, Hcu, Hcr, Hn, Hco, Hdi, Hq, Hj, Htr, Hwi, Hterms. }
  assert (Hs : begin' message = {| results := ∅; waiting := []; phase := Returned |}).
  { unfold start, immediate. rewrite Hd, Hm, Hi. cbn [andb].
    unfold after_race. cbn [results]. by rewrite Hws, Hterms, andb_false_r. }
  assert (Hall : forall evs', run message evs' (begin' message) = begin' message).
  { induction evs' as [|ev evs' IH]; [done|]. simpl.
    replace (step message (begin' message) ev) with (begin' message); [done|].
    rewrite Hs. destruct ev as [i p| |p]; simpl; [|done..]. by rewrite Hi. }
  split; [done|]. split.
  - unfold gatherKnowledge. by rewrite Hall.
  - unfold returned. rewrite Hs. by destruct evs.
Qed.

End GatherFacts.

Section GatherExamples.

Import Js Promise QueryAnalyzer Server Requests.

Lemma synchronous_results_are_kept_witness :
  let message := "what is the date and the weather in Oslo" in
  let late := [Timeout; Settle 0 (Rejected (mkError "ETIMEDOUT"))] in
  let r0 : gmap string (Item string) := {[ "date" := FromService "2026-11-02" ]} in
  immediate "2026-11-02" no_engine no_format no_fixed (analyzeQuery message)
    = MathService.Normal r0
  /\ r0 !! "date" = Some (FromService "2026-11-02")
  /\ results (gatherKnowledge "2026-11-02" no_engine no_format no_fixed message late)
       !! "date" = Some (FromService "2026-11-02")
  /\ forall r, returned "2026-11-02" no_engine no_format no_fixed message late = Some r ->
       r !! "date" = Some (FromService "2026-11-02").
Proof.
  intros message late r0.
  assert (H1 : immediate "2026-11-02" no_engine no_format no_fixed (analyzeQuery message)
               = MathService.Normal r0) by (by vm_compute).
  assert (H2 : r0 !! "date" = Some (FromService "2026-11-02")) by reflexivity.
  destruct (synchronous_results_are_kept "2026-11-02" no_engine no_format no_fixed
              message late r0 "date" (FromService "2026-11-02") H1 H2) as (_ & H3 & H4 & _).
  split; [exact H1|]. split; [exact H2|]. split; [exact H3|exact H4].
Defined.

Lemma no_fallback_after_a_synchronous_result_witness :
  let message := "what day is it in the land of Oz" in
  let r0 : gmap string (Item string) := {[ "date" := FromService "2026-11-02" ]} in
  immediate "2026-11-02" no_engine no_format no_fixed (analyzeQuery message)
    = MathService.Normal r0
  /\ r0 <> ∅
  /\ (forall q, phase (gatherKnowledge "2026-11-02" no_engine no_format no_fixed message
                         [Timeout]) <> Searching q)
  /\ results (gatherKnowledge "2026-11-02" no_engine no_format no_fixed message [Timeout])
       !! "webSearch" = None.
Proof.
  intros message r0.
  assert (H1 : immediate "2026-11-02" no_engine no_format no_fixed (analyzeQuery message)
               = MathService.Normal r0) by (by vm_compute).
  assert (H2 : r0 <> ∅) by apply insert_non_empty.
  destruct (no_fallback_after_a_synchronous_result "2026-11-02" no_engine no_format no_fixed
              message [Timeout] r0 H1 H2) as (H3 & H4 & _).
  split; [exact H1|]. split; [exact H2|]. split; [exact H3|exact H4].
Defined.

Lemma no_intent_gathers_nothing_witness :
  primaryIntent (analyzeQuery "ok") = None
  /\ issued (analyzeQuery "ok") = []
  /\ gatherKnowledge "2026-11-02" no_engine no_format no_fixed "ok" [Timeout]
       = {| results := ∅; waiting := []; phase := Returned |}
  /\ returned "2026-11-02" no_engine no_format no_fixed "ok" [Timeout] = Some ∅.
Proof.
  assert (H : primaryIntent (analyzeQuery "ok") = None) by (by vm_compute).
  split; [exact H|].
  exact (no_intent_gathers_nothing "2026-11-02" no_engine no_format no_fixed "ok" [Timeout] H).
Defined.

End GatherExamples.

(* ================================================================= *)
(** ** The routes *)

Section RouteFacts.

Import Routes.

Context {Request : Type} (matches : Verb -> string -> Request -> bool).
Context (passes : Middleware -> Request -> bool).

(** Nothing registered after a catch-all is looked at. *)
Lemma dispatch_upto_use layers req :
  dispatch_in matches passes layers req = dispatch_in matches passes (upto_use layers) req.
Proof.
  induction layers as [|[m|v p h|h] layers IH]; [done| | |done]; simpl.
  - destruct (passes m req); [exact IH|done].
  - destruct (matches v p req); [done|exact IH].
Qed.

Lemma dispatch_in_handled layers req h :
  dispatch_in matches passes layers req = Some (Handled h) -> h ∈ handlers layers.
Proof.
  unfold handlers. induction layers as [|[m|v p h'|h'] layers IH]; [done| | |]; simpl.
  - destruct (passes m req); [exact IH|done].
  - destruct (matches v p req).
    + intros [= ->]. left.
    + intros H. right. by apply IH.
  - intros [= ->]. left.
Qed.


End RouteFacts.

Section RouteExamples.

Import Routes.


End RouteExamples.

(* ================================================================= *)
(** ** Reading a match backwards *)

Section MatchInversion.

Import JsString Regex QuickResponse.

(** A literal matches a text of its own length that is similar to it. *)
Lemma m_lit_inv ci w : forall cp prev s k res,
  m ci (lit w) cp prev s k = Some res ->
  exists p rest, s = (p ++ rest)%string /\ similar ci w p = true
                 /\ k cp (last_char prev p) rest = Some res.
Proof.
  induction w as [|a w IH]; intros cp prev s k res H.
  - exists EmptyString, s. by split_all.
  - destruct w as [|b w].
    + cbn [lit m cmatch imatch] in H. destruct s as [|c s]; [done|].
      destruct (same_char ci a c) eqn:E; [|done].
      exists (String c EmptyString), s. split; [done|]. split; [|done].
      simpl. by rewrite E.
    + change (lit (String a (String b w)))
        with (Seq (Chr (COne (IChar a))) (lit (String b w))) in H.
      cbn [m cmatch imatch] in H. destruct s as [|c s]; [done|].
      destruct (same_char ci a c) eqn:E; [|done].
      apply IH in H as (p & rest & -> & Hp & Hk).
      exists (String c p), rest. split; [done|]. split; [|done].
      change (same_char ci a c && similar ci (String b w) p = true). by rewrite E, Hp.
Qed.

(** An alternation of literals matches as one of them does. *)
Lemma m_alts_inv ci ws : forall cp prev s k res,
  ws <> [] ->
  m ci (alts ws) cp prev s k = Some res ->
  exists w, In w ws /\ m ci (lit w) cp prev s k = Some res.
Proof.
  unfold alts. induction ws as [|w ws IH]; intros cp prev s k res Hne H; [done|].
  destruct ws as [|w' ws].
  - exists w. split; [by left|done].
  - change (alt (List.map lit (w :: w' :: ws)))
      with (Alt (lit w) (alt (List.map lit (w' :: ws)))) in H.
    cbn [m] in H. destruct (m ci (lit w) cp prev s k) as [r|] eqn:E.
    + exists w. split; [by left|]. by rewrite E.
    + apply IH in H as (x & Hx & Hm); [|done]. exists x. split; [by right|done].
Qed.

Lemma m_alts_some ci ws w : forall cp prev rest k,
  In w ws ->
  is_Some (k cp (last_char prev w) rest) ->
  is_Some (m ci (alts ws) cp prev (w ++ rest) k).
Proof.
  unfold alts. induction ws as [|x ws IH]; intros cp prev rest k Hin Hk; [done|].
  destruct ws as [|x' ws].
  - destruct Hin as [->|[]]. cbn [List.map alt]. by rewrite m_lit.
  - change (alt (List.map lit (x :: x' :: ws)))
      with (Alt (lit x) (alt (List.map lit (x' :: ws)))).
    cbn [m]. destruct (m ci (lit x) cp prev (w ++ rest) k) as [r|] eqn:E; [by eexists|].
    destruct Hin as [->|Hin]; [|by apply IH].
    rewrite m_lit in E. rewrite E in Hk. by destruct Hk.
Qed.

(** A repetition takes a stretch of its class. *)
Lemma rep_inv p g k s : forall prev res,
  rep p g k prev s = Some res ->
  exists w rest, s = (w ++ rest)%string /\ all_chars p w = true
                 /\ k (last_char prev w) rest = Some res.
Proof.
  induction s as [|c s IH]; intros prev res H.
  - exists EmptyString, EmptyString. by split_all.
  - cbn [rep] in H. destruct (p c) eqn:Hc.
    + assert (Hgo : rep p g k (Some c) s = Some res \/ k prev (String c s) = Some res).
      { destruct g.
        - destruct (rep p true k (Some c) s); [left|right]; done.
        - destruct (k prev (String c s)); [right|left]; done. }
      destruct Hgo as [Hgo|Hgo].
      * apply IH in Hgo as (w & rest & -> & Hw & Hk).
        exists (String c w), rest. split; [done|]. split; [|done]. simpl. by rewrite Hc, Hw.
      * exists EmptyString, (String c s). by split_all.
    + exists EmptyString, (String c s). by split_all.
Qed.

(** A greedy repetition in front of a text of its class takes all of it. *)
Lemma star_whole ci cs cp prev w k res :
  all_chars (cmatch ci cs) w = true ->
  k cp (last_char prev w) EmptyString = Some res ->
  m ci (star cs) cp prev w k = Some res.
Proof.
  intros Hall Hk.
  pose proof (star_all ci cs cp prev w EmptyString k res Hall eq_refl Hk) as H.
  by rewrite append_empty in H.
Qed.

(** A pattern that starts with [^] matches at the start or not at all. *)
Lemma test_anchored r s :
  test (re_i (Seq Bol r)) s = bool_decide (is_Some (match_here true (Seq Bol r) None s)).
Proof.
  unfold test, exec. cbn [ignoreCase Regex.source re_i].
  destruct s as [|c s]; cbn [search].
  - destruct (match_here true (Seq Bol r) None EmptyString) as [[cp s']|] eqn:E; [|done].
    symmetry. apply bool_decide_eq_true. by eexists.
  - destruct (match_here true (Seq Bol r) None (String c s)) as [[cp s']|] eqn:E.
    + symmetry. apply bool_decide_eq_true. by eexists.
    + rewrite search_bol. symmetry. apply bool_decide_eq_false. by intros [x Hx].
Qed.

(** *** Letter case *)

(** A character without capital form is the small form of its capital. *)
Lemma lower_upper_fixed c :
  Ascii.eqb (lower_char c) c = true -> lower_char (upper_char c) = c.
Proof. by each_char c. Qed.

(** Two characters without capital form that match under [/i] are equal. *)
Lemma same_char_lowercase a c :
  same_char true a c = true -> Ascii.eqb (lower_char a) a = true ->
  Ascii.eqb (lower_char c) c = true -> a = c.
Proof.
  unfold same_char. intros H Ha Hc. apply Ascii.eqb_eq in H.
  rewrite <- (lower_upper_fixed a Ha), <- (lower_upper_fixed c Hc). by rewrite H.
Qed.

Lemma similar_lowercase w : forall p,
  similar true w p = true -> lowercase w = true -> lowercase p = true -> p = w.
Proof.
  induction w as [|a w IH]; intros [|c p] H Hw Hp; try done.
  change (same_char true a c && similar true w p = true) in H.
  apply andb_true_iff in H as [Hac H].
  unfold lowercase in *. cbn [all_chars] in Hw, Hp.
  apply andb_true_iff in Hw as [Ha Hw]. apply andb_true_iff in Hp as [Hc Hp].
  rewrite (same_char_lowercase a c Hac Ha Hc). f_equal. by apply IH.
Qed.

Lemma lower_char_idem c : Ascii.eqb (lower_char (lower_char c)) (lower_char c) = true.
Proof. by each_char c. Qed.

Lemma lowercase_lower s : lowercase (toLowerCase s) = true.
Proof.
  induction s as [|c s IH]; [done|].
  change (Ascii.eqb (lower_char (lower_char c)) (lower_char c)
          && lowercase (toLowerCase s) = true).
  by rewrite lower_char_idem, IH.
Qed.

Lemma all_chars_trimStart p s : all_chars p s = true -> all_chars p (trimStart s) = true.
Proof.
  induction s as [|c s IH]; [done|]. intros H. simpl.
  destruct (is_space c); [|done]. simpl in H. apply andb_true_iff in H as [_ H]. by apply IH.
Qed.

Lemma all_chars_trimEnd p s : all_chars p s = true -> all_chars p (trimEnd s) = true.
Proof.
  induction s as [|c s IH]; [done|]. intros H. simpl in H.
  apply andb_true_iff in H as [Hc H]. specialize (IH H). cbn [trimEnd].
  destruct (trimEnd s) as [|d t].
  - destruct (is_space c); [done|]. simpl. by rewrite Hc.
  - change (p c && all_chars p (String d t) = true). by rewrite Hc, IH.
Qed.

Lemma lowercase_trim s : lowercase s = true -> lowercase (trim s) = true.
Proof. intros H. by apply all_chars_trimEnd, all_chars_trimStart. Qed.

End MatchInversion.

(* ================================================================= *)
(** ** The quick replies *)

Section QuickFacts.

Import JsString Regex QuickResponse.

Lemma phrases_lowercase k : Forall (fun w => lowercase w = true) (phrases k).
Proof. destruct k; repeat constructor. Qed.

Lemma phrases_nonempty k : phrases k <> [].
Proof. by destruct k. Qed.

(** The pattern of a kind matches exactly what [says] describes. *)
Lemma pattern_says k lower :
  lowercase lower = true -> (test (pattern k) lower = true <-> says k lower).
Proof.
  intros Hlow. unfold pattern. cbn [seq]. rewrite test_anchored.
  rewrite bool_decide_eq_true. unfold match_here. rewrite m_seq.
  change (m true Bol [] None lower ?k) with (k [] None lower). cbv beta.
  rewrite m_seq. cbn [m]. split.
  - intros [res H].
    apply m_alts_inv in H as (w & Hw & H); [|apply phrases_nonempty].
    apply m_lit_inv in H as (p & rest & -> & Hsim & H).
    unfold star in H. cbn [m] in H.
    apply rep_inv in H as (tail & rest' & -> & Htail & H).
    destruct rest' as [|c r]; [|done].
    rewrite append_empty in *.
    unfold lowercase in Hlow.
    rewrite all_chars_append in Hlow. apply andb_true_iff in Hlow as [Hp _].
    assert (p = w) as ->.
    { apply similar_lowercase; [done| |done].
      pose proof (phrases_lowercase k) as Hall. rewrite Forall_forall in Hall.
      apply Hall. by apply list_elem_of_In. }
    by exists w, tail.
  - intros (w & tail & Hw & -> & Htail).
    apply m_alts_some; [done|]. cbv beta.
    eexists. apply star_whole; done.
Qed.

(** X18. [getQuickResponse] answers with a canned reply exactly when the
    message, lower-cased and trimmed, is one of the listed phrases followed
    by nothing but white space, exclamation marks and dots; the reply then
    comes from the list of the phrase's category (greetings before thanks
    before goodbye). Every other message gets [null]: one more word, a
    question mark or a digit is enough. Letter case and surrounding white
    space do not matter. *)
Theorem quick_response_exactly_for_phrases random_below message :
  (forall n, (0 < n)%nat -> (random_below n < n)%nat) ->
  let lower := trim (toLowerCase message) in
  match getQuickResponse random_below message with
  | Some (k, i) =>
      says k lower /\ i = random_below (size k) /\ (i < size k)%nat
      /\ (forall k', says k' lower -> k' = k)
  | None => forall k, ~ says k lower
  end.
Proof.
  intros Hrandom lower.
  assert (Hlow : lowercase lower = true) by apply lowercase_trim, lowercase_lower.
  assert (Hreply : forall k, reply k (random_below (size k)) = Some (k, random_below (size k))
                             /\ (random_below (size k) < size k)%nat).
  { intros k. unfold reply. assert (random_below (size k) < size k)%nat as Hlt
      by (apply Hrandom; destruct k; simpl; lia).
    split; [|done]. apply Nat.ltb_lt in Hlt. by rewrite Hlt. }
  assert (Hone : forall k k', says k lower -> says k' lower -> k' = k).
  { intros k k' (w & tail & Hw & Heq & Htail) (w' & tail' & Hw' & Heq' & Htail').
    rewrite Heq in Heq'. clear -Hw Hw' Heq'.
    destruct k, k'; try done; exfalso; simpl in Hw, Hw';
      repeat (destruct Hw as [<-|Hw]; [|]); try done;
      repeat (destruct Hw' as [<-|Hw']; [|]); try done; discriminate Heq'. }
  unfold getQuickResponse. fold lower.
  destruct (test (pattern greetings) lower) eqn:Eg.
  { destruct (Hreply greetings) as [-> Hlt]. apply (pattern_says greetings lower Hlow) in Eg.
    split; [done|]. split; [done|]. split; [done|]. intros k' Hk'. by apply Hone. }
  destruct (test (pattern thanks) lower) eqn:Et.
  { destruct (Hreply thanks) as [-> Hlt]. apply (pattern_says thanks lower Hlow) in Et.
    split; [done|]. split; [done|]. split; [done|]. intros k' Hk'. by apply Hone. }
  destruct (test (pattern goodbye) lower) eqn:Eb.
  { destruct (Hreply goodbye) as [-> Hlt]. apply (pattern_says goodbye lower Hlow) in Eb.
    split; [done|]. split; [done|]. split; [done|]. intros k' Hk'. by apply Hone. }
  intros [| |] Hk.
  - apply (pattern_says greetings lower Hlow) in Hk. congruence.
  - apply (pattern_says thanks lower Hlow) in Hk. congruence.
  - apply (pattern_says goodbye lower Hlow) in Hk. congruence.
Qed.

End QuickFacts.

Section QuickExamples.

Import JsString Regex QuickResponse.

Lemma quick_response_exactly_for_phrases_witness :
  let first := fun _ : nat => 0%nat in
  (forall n, (0 < n)%nat -> (first n < n)%nat)
  /\ getQuickResponse first "  Good Morning!! " = Some (greetings, 0%nat)
  /\ says greetings "good morning!!"
  /\ getQuickResponse first "good morning, what time is it?" = None
  /\ forall k, ~ says k "good morning, what time is it?".
Proof.
  intros first.
  assert (H : forall n, (0 < n)%nat -> (first n < n)%nat) by (intros n Hn; exact Hn).
  pose proof (quick_response_exactly_for_phrases first "  Good Morning!! " H) as T1.
  pose proof (quick_response_exactly_for_phrases first "good morning, what time is it?" H) as T2.
  cbv zeta in T1, T2.
  change (getQuickResponse first "  Good Morning!! ") with (Some (greetings, 0%nat)) in T1.
  change (getQuickResponse first "good morning, what time is it?")
    with (@None (Kind * nat)) in T2.
  destruct T1 as (T1 & _).
  split; [exact H|]. split; [reflexivity|]. split; [exact T1|]. split; [reflexivity|exact T2].
Defined.

End QuickExamples.

(* ================================================================= *)
(** ** The time of a location *)

Section TimeFacts.

Import JsString JsObject TimeService.

Context {R : Type}.
Context (ask_api : Zone -> string -> option R).
Context (calculateTimeFromOffset : string -> Offset -> Z -> R).
Context (zone_list : option (list (option string))).
Context (ask_match : string -> string -> option R).
Context (latency : @Request -> Z).

Abbreviation worldTime :=
  (getWorldTime ask_api calculateTimeFromOffset zone_list ask_match latency).

Implicit Types (st : State R) (location : string).

Lemma own_in {A} key (obj : list (string * A)) v : own key obj = Some v -> In (key, v) obj.
Proof.
  induction obj as [|[k w] obj IH]; [done|]. simpl.
  destruct (String.eqb key k) eqn:E; [|by right; apply IH].
  apply String.eqb_eq in E. intros [= ->]. left. by subst.
Qed.

(** On a cache miss with a zone found, the zone is asked first. *)
Lemma getWorldTime_asks location st z :
  uncached location st ->
  find_timezone (trim (toLowerCase location)) = Some z ->
  (exists more, asked (worldTime location st).2 = asked st ++ AskZone z :: more)
  /\ (forall r, ask_api z location = Some r -> (worldTime location st).1 = Some r).
Proof.
  unfold uncached, getWorldTime. intros Hmiss Hz.
  destruct (SmartCache.get _ _ _ _) as [cached c]. simpl in Hmiss. subst cached.
  rewrite Hz. destruct (ask_api z location) as [r|] eqn:Hr.
  - split; [by exists []|]. by intros r' [= <-].
  - split; [|done]. unfold from_offset, last_resort, searchTimezone.
    destruct (find_offset _); simpl; [by exists []|].
    destruct zone_list as [timezones|]; [|simpl; rewrite <- app_assoc; by eexists].
    destruct (find_zone _ timezones) as [[|ch tz]|]; [| |];
      try (simpl; rewrite <- app_assoc; by eexists).
    destruct (ask_match _ _); simpl; rewrite <- !app_assoc; by eexists.
Qed.

(** X19. A blank location is New York: when [location] is empty or white
    space only and nothing is cached for it, [getWorldTime] asks the API
    for the time of America/New_York (every key of the table contains the
    empty string, and the first key is "new york"), and returns what the
    API answers. *)
Theorem blank_location_is_new_york location st :
  trim (toLowerCase location) = EmptyString ->
  uncached location st ->
  (exists more, asked (worldTime location st).2
                = asked st ++ AskZone (Named "America/New_York") :: more)
  /\ (forall r, ask_api (Named "America/New_York") location = Some r ->
        (worldTime location st).1 = Some r).
Proof.
  intros Hblank Hmiss. apply getWorldTime_asks; [done|]. by rewrite Hblank.
Qed.

(** No member of [Object.prototype] has "la" in its name. *)
Lemma member_without_la lower :
  includes "la" lower = true -> existsb (String.eqb lower) prototype_members = false.
Proof.
  intros Hla. destruct (existsb _ _) eqn:E; [|done]. exfalso.
  apply existsb_exists in E as (m & Hm & Heq). apply String.eqb_eq in Heq. subst m.
  unfold prototype_members in Hm. simpl in Hm.
  repeat (destruct Hm as [<-|Hm]; [discriminate Hla|]). done.
Qed.

(** X20. A location whose name contains "la" and is not a key of the table
    is taken to be in New York or in Los Angeles: the loop over the table
    stops at the key "la", the fifth one, if not before. Islamabad, for
    one, is asked as America/Los_Angeles. *)
Theorem location_with_la_is_american location st :
  let lowerLocation := trim (toLowerCase location) in
  includes "la" lowerLocation = true ->
  own lowerLocation TIMEZONE_MAP = None ->
  uncached location st ->
  exists tz, (tz = "America/New_York" \/ tz = "America/Los_Angeles")
    /\ find_timezone lowerLocation = Some (Named tz)
    /\ (exists more, asked (worldTime location st).2 = asked st ++ AskZone (Named tz) :: more)
    /\ (forall r, ask_api (Named tz) location = Some r -> (worldTime location st).1 = Some r).
Proof.
  intros lower Hla Hown Hmiss.
  assert (Hz : exists tz, (tz = "America/New_York" \/ tz = "America/Los_Angeles")
                          /\ find_timezone lower = Some (Named tz)).
  { unfold find_timezone, get_property. rewrite Hown, (member_without_la lower Hla).
    unfold TIMEZONE_MAP. cbn [List.find].
    do 4 (destruct (partial_match lower _); [eexists; split; [|reflexivity]; auto|]).
    replace (partial_match lower ("la", "America/Los_Angeles")) with true.
    - eexists; split; [|reflexivity]; auto.
    - unfold partial_match. cbn [fst]. by rewrite Hla, orb_true_r. }
  destruct Hz as (tz & Htz & Hz). exists tz. split; [done|]. split; [done|].
  by apply getWorldTime_asks.
Qed.

(** Every location of the offset table has a zone. *)
Lemma offsets_have_zones lower h :
  own lower UTC_OFFSET_MAP = Some h -> exists z, find_timezone lower = Some z.
Proof.
  intros Hown. apply own_in in Hown.
  assert (H : forallb (fun e => match find_timezone e.1 with Some _ => true | None => false end)
                UTC_OFFSET_MAP = true) by (by vm_compute).
  rewrite forallb_forall in H. specialize (H _ Hown). simpl in H.
  destruct (find_timezone lower) as [z|]; [by exists z|done].
Qed.

(** X21. When the API gives no answer, a location of the offset table is
    answered from its fixed offset: [getWorldTime] returns what
    [calculateTimeFromOffset] computes for the location's hours and caches
    it for thirty seconds; the API has been asked once before (every
    location of the offset table has a zone) and nothing else is asked. A
    location that has no offset is left to [searchTimezone]: the list of
    zones is requested; when a zone of the list matches, that zone is
    requested next and what this request gives is the answer; when the
    list cannot be had or no zone matches, nothing more is asked and the
    answer is [null]. *)
Theorem offset_table_is_the_fallback location st :
  let lowerLocation := trim (toLowerCase location) in
  uncached location st ->
  (forall z, ask_api z location = None) ->
  let out := worldTime location st in
  match own lowerLocation UTC_OFFSET_MAP with
  | Some h =>
      exists z, find_timezone lowerLocation = Some z
        /\ asked out.2 = asked st ++ [AskZone z]
        /\ out.1 = Some (calculateTimeFromOffset location (Hours h)
                           (clock st + latency (AskZone z)))
        /\ SmartCache.cache (SmartCache.this (store out.2))
             !! ("time_" ++ toLowerCase location)%string
           = Some {| SmartCache.data := calculateTimeFromOffset location (Hours h)
                                          (clock st + latency (AskZone z));
                     SmartCache.timestamp := clock st + latency (AskZone z);
                     SmartCache.ttl := 30000 |}
  | None =>
      find_offset lowerLocation = None ->
      let first := match find_timezone lowerLocation with
                   | Some z => [AskZone z]
                   | None => []
                   end in
      match zone_list ≫= find_zone (toLowerCase location) with
      | Some (String c tz) =>
          asked out.2 = asked st ++ first ++ [AskZoneList; AskZone (Named (String c tz))]
          /\ out.1 = ask_match (String c tz) location
      | _ => asked out.2 = asked st ++ first ++ [AskZoneList] /\ out.1 = None
      end
  end.
Proof.
  intros lower Hmiss Hapi out. unfold out, getWorldTime. unfold uncached in Hmiss.
  destruct (SmartCache.get _ _ _ _) as [cached c]. simpl in Hmiss. subst cached.
  fold lower. destruct (own lower UTC_OFFSET_MAP) as [h|] eqn:Hown.
  - destruct (offsets_have_zones lower h Hown) as [z Hz]. exists z. rewrite Hz, Hapi.
    unfold from_offset, find_offset, get_property. rewrite Hown. simpl.
    split; [done|]. split; [done|]. split; [done|]. apply lookup_insert_eq.
  - intros Hoff. cbv zeta. unfold from_offset. rewrite Hoff.
    unfold last_resort, searchTimezone.
    destruct (find_timezone lower) as [z|]; rewrite ?Hapi;
      (destruct zone_list as [timezones|]; cbn [mbind option_bind];
       [destruct (find_zone _ timezones) as [[|ch tz]|];
        [| destruct (ask_match _ _) | ] |]);
      cbn [fst snd asked ask remember]; rewrite <- ?app_assoc; done.
Qed.

End TimeFacts.

Section TimeExamples.

Import JsString JsObject TimeService.

Lemma blank_location_is_new_york_witness :
  trim (toLowerCase "   ") = EmptyString
  /\ uncached "   " empty_state
  /\ exists more,
       asked (getWorldTime api_down by_offset two_zones by_match quick "   " empty_state).2
       = asked empty_state ++ AskZone (Named "America/New_York") :: more.
Proof.
  assert (H1 : trim (toLowerCase "   ") = EmptyString) by reflexivity.
  assert (H2 : uncached "   " empty_state) by reflexivity.
  split; [exact H1|]. split; [exact H2|].
  exact (proj1 (blank_location_is_new_york api_down by_offset two_zones by_match quick
                  "   " empty_state H1 H2)).
Defined.

Lemma location_with_la_is_american_witness :
  includes "la" (trim (toLowerCase "Islamabad")) = true
  /\ own (trim (toLowerCase "Islamabad")) TIMEZONE_MAP = None
  /\ uncached "Islamabad" empty_state
  /\ find_timezone (trim (toLowerCase "Islamabad")) = Some (Named "America/Los_Angeles").
Proof.
  assert (H1 : includes "la" (trim (toLowerCase "Islamabad")) = true) by reflexivity.
  assert (H2 : own (trim (toLowerCase "Islamabad")) TIMEZONE_MAP = None) by reflexivity.
  assert (H3 : uncached "Islamabad" empty_state) by reflexivity.
  destruct (location_with_la_is_american api_down by_offset two_zones by_match quick
              "Islamabad" empty_state H1 H2 H3) as (tz & _ & Hz & _).
  split; [exact H1|]. split; [exact H2|]. split; [exact H3|]. reflexivity.
Defined.

Lemma offset_table_is_the_fallback_witness :
  uncached "Mumbai" empty_state
  /\ (forall z, api_down z "Mumbai" = None)
  /\ (getWorldTime api_down by_offset two_zones by_match quick "Mumbai" empty_state).1
     = Some "computed"
  /\ uncached "Cairo" empty_state
  /\ (forall z, api_down z "Cairo" = None)
  /\ (getWorldTime api_down by_offset two_zones by_match quick "Cairo" empty_state).1
     = Some "time in Africa/Cairo"
  /\ asked (getWorldTime api_down by_offset two_zones by_match quick "Cairo"
              empty_state).2
     = [AskZone (Named "Africa/Cairo"); AskZoneList; AskZone (Named "Africa/Cairo")].
Proof.
  assert (H1 : uncached "Mumbai" empty_state) by reflexivity.
  assert (H2 : forall z, api_down z "Mumbai" = None) by reflexivity.
  pose proof (offset_table_is_the_fallback api_down by_offset two_zones by_match quick
                "Mumbai" empty_state H1 H2) as T.
  cbv zeta in T.
  change (own (trim (toLowerCase "Mumbai")) UTC_OFFSET_MAP) with (Some (11 # 2)%Q) in T.
  destruct T as (z & _ & _ & T & _).
  assert (H3 : uncached "Cairo" empty_state) by reflexivity.
  assert (H4 : forall z, api_down z "Cairo" = None) by reflexivity.
  pose proof (offset_table_is_the_fallback api_down by_offset two_zones by_match quick
                "Cairo" empty_state H3 H4) as U.
  cbv zeta in U.
  change (own (trim (toLowerCase "Cairo")) UTC_OFFSET_MAP) with (@None Q) in U.
  specialize (U eq_refl).
  change (two_zones ≫= find_zone (toLowerCase "Cairo"))
    with (Some "Africa/Cairo") in U.
  change (find_timezone (trim (toLowerCase "Cairo")))
    with (Some (Named "Africa/Cairo")) in U.
  destruct U as [U1 U2].
  split; [exact H1|]. split; [exact H2|]. split; [rewrite T; reflexivity|].
  split; [exact H3|]. split; [exact H4|]. split; [exact U2|exact U1].
Defined.

End TimeExamples.

(* ================================================================= *)
(** ** Passwords and short hashes *)

Section UtilityFacts.

Import Utility.

Context (draw : nat -> nat -> nat) (shuffle : list ascii -> list ascii).

Hypothesis draw_below : forall i n, (0 < n)%nat -> (draw i n < n)%nat.

Lemma letters_append (s t : string) : letters (s ++ t) = letters s ++ letters t.
Proof.
  induction s as [|c s IH]; [done|].
  rewrite append_cons. unfold letters in *. simpl. by rewrite IH.
Qed.

Lemma letters_length (s : string) : List.length (letters s) = String.length s.
Proof. induction s as [|c s IH]; [done|]. unfold letters in *. simpl. by rewrite IH. Qed.

Lemma get_letter (s : string) : forall i,
  (i < String.length s)%nat -> exists c, String.get i s = Some c /\ In c (letters s).
Proof.
  induction s as [|a s IH]; intros i Hi; simpl in Hi; [lia|].
  destruct i as [|i]; simpl.
  - exists a. split; [done|by left].
  - destruct (IH i ltac:(lia)) as (c & Hc & Hin). exists c. split; [done|by right].
Qed.

(** A drawn character is one of the alphabet. *)
Lemma at_index_drawn alphabet i :
  alphabet <> EmptyString ->
  exists c, at_index alphabet (draw i (String.length alphabet)) = String c EmptyString
            /\ In c (letters alphabet).
Proof.
  intros Hne. assert (0 < String.length alphabet)%nat as Hpos
    by (destruct alphabet; [done|simpl; lia]).
  destruct (get_letter alphabet _ (draw_below i _ Hpos)) as (c & Hc & Hin).
  exists c. unfold at_index. by rewrite Hc.
Qed.

Lemma charAt_drawn alphabet i :
  alphabet <> EmptyString ->
  exists c, charAt alphabet (draw i (String.length alphabet)) = String c EmptyString
            /\ In c (letters alphabet).
Proof.
  intros Hne. destruct (at_index_drawn alphabet i Hne) as (c & Hc & Hin).
  exists c. split; [|done]. unfold at_index, charAt in *.
  by destruct (String.get _ _).
Qed.

(** The loop adds [n] characters of the alphabet. *)
Lemma fill_letters alphabet n : forall i text,
  alphabet <> EmptyString ->
  exists more, letters (fill draw n i alphabet text) = letters text ++ more
    /\ List.length more = n /\ Forall (fun c => In c (letters alphabet)) more.
Proof.
  induction n as [|n IH]; intros i text Hne.
  - exists []. simpl. by rewrite app_nil_r.
  - simpl. destruct (charAt_drawn alphabet i Hne) as (c & -> & Hin).
    destruct (IH (S i) (text ++ String c EmptyString)%string Hne) as (more & -> & Hlen & Hall).
    exists (c :: more). rewrite letters_append, <- app_assoc. simpl.
    split; [done|]. split; [by rewrite Hlen|]. by constructor.
Qed.

Lemma made_of_more a b text : made_of a text -> (forall c, In c (letters a) -> In c (letters b)) ->
  made_of b text.
Proof. unfold made_of. intros H Hab. eapply Forall_impl; [exact H|]. exact Hab. Qed.

(** What the first part of [generatePassword] builds. *)
Lemma one_of_each_letters o :
  exists l u d s,
    letters (one_of_each draw o).1 = u ++ d ++ s ++ [l]
    /\ In l (letters lowercase)
    /\ (if with_uppercase o then exists c, u = [c] /\ In c (letters uppercase) else u = [])
    /\ (if with_numbers o then exists c, d = [c] /\ In c (letters numbers) else d = [])
    /\ (if with_symbols o then exists c, s = [c] /\ In c (letters symbols) else s = []).
Proof.
  unfold one_of_each.
  destruct (with_uppercase o), (with_numbers o), (with_symbols o);
    repeat match goal with
    | |- context [at_index ?a (draw ?i _)] =>
        let c := fresh "c" in let Hc := fresh "Hc" in let Hin := fresh "Hin" in
        destruct (at_index_drawn a i ltac:(done)) as (c & Hc & Hin); rewrite Hc
    end;
    cbn [fst]; rewrite ?letters_append, ?append_nil; cbn [letters list_ascii_of_string];
    [ exists c2, [c], [c0], [c1] | exists c1, [c], [c0], [] | exists c1, [c], [], [c0]
    | exists c0, [c], [], [] | exists c1, [], [c], [c0] | exists c0, [], [c], []
    | exists c0, [], [], [c] | exists c, [], [], [] ];
    (split; [by rewrite <- ?app_assoc|]); (split; [done|]); by eauto 10.
Qed.

Lemma letters_of_list l : letters (string_of_list_ascii l) = l.
Proof. apply list_ascii_of_string_of_list_ascii. Qed.

Lemma in_chars o c :
  In c (letters lowercase)
  \/ (with_uppercase o = true /\ In c (letters uppercase))
  \/ (with_numbers o = true /\ In c (letters numbers))
  \/ (with_symbols o = true /\ In c (letters symbols)) ->
  In c (letters (chars o)).
Proof.
  unfold chars. rewrite !letters_append, !in_app_iff.
  intros [H|[[-> H]|[[-> H]|[-> H]]]]; auto.
Qed.

(** X22. A generated password holds a small letter and one character of
    every category that is switched on (a capital, a digit, a symbol), and
    nothing but characters of these categories, provided only that the
    engine's sort with the random comparator rearranges the characters. It
    is [length] characters long, but never shorter than the number of
    categories: with every category on, a request for fewer than four
    characters gets four, while the [length] reported in the result is the
    number asked for. *)
Theorem generated_password_covers_its_categories length o :
  (forall l, Permutation l (shuffle l)) ->
  let r := generatePassword draw shuffle length o in
  Z.of_nat (String.length (password r)) = Z.max length (categories o)
  /\ has_one_of lowercase (password r)
  /\ (with_uppercase o = true -> has_one_of uppercase (password r))
  /\ (with_numbers o = true -> has_one_of numbers (password r))
  /\ (with_symbols o = true -> has_one_of symbols (password r))
  /\ made_of (chars o) (password r)
  /\ pw_length r = length.
Proof.
  intros Hperm r. unfold r, generatePassword.
  destruct (one_of_each_letters o) as (l & u & d & s & Hstart & Hl & Hu & Hd & Hs).
  destruct (one_of_each draw o) as [start i]. cbn [fst] in Hstart.
  set (rounds := Z.to_nat _).
  destruct (fill_letters (chars o) rounds i start) as (more & Hfill & Hlen & Hall).
  { unfold chars, lowercase. by rewrite append_cons. }
  cbn [password pw_length].
  set (sorted := shuffle _).
  assert (Hp : Permutation (u ++ d ++ s ++ [l] ++ more) sorted).
  { unfold sorted. fold (letters (fill draw rounds i (chars o) start)).
    rewrite Hfill, Hstart, <- !app_assoc. apply Hperm. }
  assert (Hin : forall c, In c (u ++ d ++ s ++ [l] ++ more) -> In c (letters (string_of_list_ascii sorted))).
  { intros c Hc. rewrite letters_of_list. by eapply Permutation_in. }
  assert (Hstartlen : Z.of_nat (String.length start) = categories o).
  { rewrite <- letters_length, Hstart, !length_app. unfold categories.
    destruct (with_uppercase o), (with_numbers o), (with_symbols o);
      repeat match goal with
      | H : exists _, _ |- _ => destruct H as (? & -> & _)
      | H : _ = [] |- _ => rewrite H; clear H
      end; simpl; lia. }
  split; [|split; [|split; [|split; [|split; [|split]]]]].
  - rewrite <- letters_length, letters_of_list, <- (Permutation_length Hp), !length_app, Hlen.
    assert (Z.of_nat (List.length u + (List.length d + (List.length s + 1))) = categories o) as Hk.
    { rewrite <- Hstartlen, <- letters_length, Hstart, !length_app. simpl. lia. }
    unfold rounds. rewrite Hstartlen. simpl List.length. lia.
  - exists l. split; [|done]. apply Hin. rewrite !in_app_iff. simpl. auto 10.
  - intros E. rewrite E in Hu. destruct Hu as (c & -> & Hc). exists c. split; [|done].
    apply Hin. rewrite !in_app_iff. simpl. auto 10.
  - intros E. rewrite E in Hd. destruct Hd as (c & -> & Hc). exists c. split; [|done].
    apply Hin. rewrite !in_app_iff. simpl. auto 10.
  - intros E. rewrite E in Hs. destruct Hs as (c & -> & Hc). exists c. split; [|done].
    apply Hin. rewrite !in_app_iff. simpl. auto 10.
  - unfold made_of. rewrite letters_of_list.
    eapply Permutation_Forall; [exact Hp|].
    rewrite !Forall_app. split_all.
    + destruct (with_uppercase o) eqn:E.
      * destruct Hu as (c & -> & Hc). constructor; [|constructor]. apply in_chars. rewrite E. auto.
      * subst u. constructor.
    + destruct (with_numbers o) eqn:E.
      * destruct Hd as (c & -> & Hc). constructor; [|constructor]. apply in_chars. rewrite E. auto.
      * subst d. constructor.
    + destruct (with_symbols o) eqn:E.
      * destruct Hs as (c & -> & Hc). constructor; [|constructor]. apply in_chars. rewrite E. auto.
      * subst s. constructor.
    + constructor; [|constructor]. apply in_chars. auto.
    + done.
  - done.
Qed.

(** X23. A short hash is made of letters and digits only and is exactly
    [length] characters long; a [length] of zero or less gives the empty
    text. *)
Theorem short_hash_is_alphanumeric length :
  let hash := generateShortHash draw length in
  Z.of_nat (String.length hash) = Z.max length 0
  /\ made_of hash_chars hash.
Proof.
  intros hash. unfold hash, generateShortHash.
  destruct (fill_letters hash_chars (Z.to_nat length) 0 EmptyString) as (more & Hfill & Hlen & Hall);
    [done|].
  simpl in Hfill. split.
  - rewrite <- letters_length, Hfill, Hlen. lia.
  - unfold made_of. by rewrite Hfill.
Qed.

End UtilityFacts.

Section UtilityExamples.

Import Utility.

Lemma generated_password_covers_its_categories_witness :
  (forall i n, (0 < n)%nat -> (first_one i n < n)%nat)
  /\ (forall l, Permutation l (reversing l))
  /\ password (generatePassword first_one reversing 2 (mkOptions true true true)) = "a!0A"
  /\ Z.of_nat (String.length
       (password (generatePassword first_one reversing 2 (mkOptions true true true)))) = 4
  /\ pw_length (generatePassword first_one reversing 2 (mkOptions true true true)) = 2.
Proof.
  assert (H1 : forall i n, (0 < n)%nat -> (first_one i n < n)%nat) by (intros i n H; exact H).
  assert (H2 : forall l, Permutation l (reversing l)) by (intros l; apply Permutation_rev).
  destruct (generated_password_covers_its_categories first_one reversing H1 2
              (mkOptions true true true) H2) as (H3 & _ & _ & _ & _ & _ & H4).
  split; [exact H1|]. split; [exact H2|]. split; [reflexivity|]. split; [exact H3|exact H4].
Defined.

Lemma short_hash_is_alphanumeric_witness :
  (forall i n, (0 < n)%nat -> (first_one i n < n)%nat)
  /\ generateShortHash first_one 8 = "AAAAAAAA"
  /\ Z.of_nat (String.length (generateShortHash first_one 8)) = 8.
Proof.
  assert (H1 : forall i n, (0 < n)%nat -> (first_one i n < n)%nat) by (intros i n H; exact H).
  destruct (short_hash_is_alphanumeric first_one H1 8) as [H2 _].
  split; [exact H1|]. split; [reflexivity|exact H2].
Defined.

End UtilityExamples.

(* ================================================================= *)
(** ** Unit conversion *)

Section UnitFacts.

Import JsString JsObject UnitConverter.

Context {Num : Type}.
Context (apply_formula : Formula -> Num -> Num) (times : Num -> Q -> Num).
Context (times_member : Num -> string -> Num).

Abbreviation convert := (convertUnits apply_formula times times_member).

Lemma temperature_symmetric a b :
  is_Some (temperature a b) <-> is_Some (temperature b a).
Proof.
  unfold temperature.
  destruct (String.eqb_spec a "celsius") as [->|]; [|
  destruct (String.eqb_spec a "c") as [->|]; [|
  destruct (String.eqb_spec a "fahrenheit") as [->|]; [|
  destruct (String.eqb_spec a "f") as [->|]; [|
  destruct (String.eqb_spec a "kelvin") as [->|]; [|
  destruct (String.eqb_spec a "k") as [->|]]]]]];
  (destruct (String.eqb_spec b "celsius") as [->|]; [|
   destruct (String.eqb_spec b "c") as [->|]; [|
   destruct (String.eqb_spec b "fahrenheit") as [->|]; [|
   destruct (String.eqb_spec b "f") as [->|]; [|
   destruct (String.eqb_spec b "kelvin") as [->|]; [|
   destruct (String.eqb_spec b "k") as [->|]]]]]]);
  cbn; split; intros H; first [done | by eexists | by destruct H].
Qed.

(** A key is cut at its first underscore. *)
Lemma split_key_of a b : plain a = true -> split_key (key_of a b) = (a, b).
Proof.
  unfold key_of. induction a as [|c a IH]; intros Hp.
  - by rewrite append_nil, append_cons, append_nil.
  - simpl in Hp. apply andb_true_iff in Hp as [Hc Hp].
    rewrite append_cons. simpl. apply negb_true_iff in Hc. by rewrite Hc, (IH Hp).
Qed.

Lemma plain_append a b : plain (a ++ b)%string = plain a && plain b.
Proof. apply all_chars_append. Qed.

(** Two texts with the same key and no underscore after the first unit are
    the same two units. *)
Lemma key_of_inj a : forall a' b b',
  plain a = true -> plain b = true -> key_of a' b' = key_of a b -> a' = a /\ b' = b.
Proof.
  unfold key_of. induction a as [|c a IH]; intros a' b b' Ha Hb Heq;
    destruct a' as [|c' a']; rewrite ?append_cons, ?append_nil in Heq.
  - by injection Heq as ->.
  - injection Heq as -> Heq. exfalso.
    rewrite <- Heq, plain_append in Hb. simpl in Hb. by rewrite andb_false_r in Hb.
  - injection Heq as <- _. simpl in Ha. by vm_compute in Ha.
  - injection Heq as -> Heq. simpl in Ha. apply andb_true_iff in Ha as [_ Ha].
    destruct (IH a' b b' Ha Hb) as [-> ->]; [|done].
    by rewrite ?append_cons, ?append_nil.
Qed.

(** The table, read as pairs of units: every pair is there in both
    directions, no unit has an underscore, no factor is zero. *)
Lemma table_facts :
  forallb (fun e =>
    let '(a, b) := split_key e.1 in
    String.eqb e.1 (key_of a b) && plain a && plain b
    && negb (Qeq_bool e.2 0)
    && match own (key_of b a) conversions with Some _ => true | None => false end)
    conversions = true.
Proof. by vm_compute. Qed.

Lemma own_key a b q :
  own (key_of a b) conversions = Some q ->
  Qeq_bool q 0 = false /\ exists q', own (key_of b a) conversions = Some q'.
Proof.
  intros Hown. apply own_in in Hown.
  pose proof table_facts as H. rewrite forallb_forall in H. specialize (H _ Hown).
  cbn [fst snd] in H. destruct (split_key (key_of a b)) as [a0 b0] eqn:Hs.
  rewrite !andb_true_iff in H. destruct H as [[[[Hk Ha] Hb] Hq] Hback].
  apply String.eqb_eq in Hk. destruct (key_of_inj a0 a b0 b Ha Hb Hk) as [-> ->].
  split; [by apply negb_true_iff|].
  destruct (own (key_of b0 a0) conversions) as [q'|]; [by exists q'|done].
Qed.

Lemma convert_some v a b :
  inherited a b = false ->
  is_Some (convert v a b) <->
  (is_Some (temperature (toLowerCase a) (toLowerCase b))
   \/ is_Some (own (key_of (toLowerCase a) (toLowerCase b)) conversions)).
Proof.
  unfold inherited, convertUnits, get_property. intros Hin.
  destruct (temperature _ _) as [f|].
  - split; [by left; eexists|by eexists].
  - destruct (own _ conversions) as [q|] eqn:Hown.
    + destruct (own_key _ _ _ Hown) as [-> _]. split; [by right; eexists|by eexists].
    + rewrite Hin. split; [by intros []|]. by intros [[]|[]].
Qed.

(** X24. What can be converted can be converted back: [convertUnits]
    returns a result for a pair of units exactly when it returns one for
    the reversed pair, whatever the values. (Set aside the keys that name a
    member of [Object.prototype], such as units [_] and [proto__]: there
    the lookup finds the inherited member and a result with a [NaN] in it
    is returned.) The units are compared in lower case. *)
Theorem convertUnits_is_reversible v v' a b :
  inherited a b = false -> inherited b a = false ->
  (is_Some (convert v a b) <-> is_Some (convert v' b a))
  /\ (forall r, convert v a b = Some r ->
        value r = v /\ fromUnit r = a /\ toUnit r = b
        /\ match how r with
           | formula f =>
               temperature (toLowerCase a) (toLowerCase b) = Some f
               /\ result r = apply_formula f v
           | factor q =>
               own (key_of (toLowerCase a) (toLowerCase b)) conversions = Some q
               /\ result r = times v q
           | factor_member _ => False
           end).
Proof.
  intros Hab Hba. split.
  - rewrite !convert_some by done.
    pose proof (temperature_symmetric (toLowerCase a) (toLowerCase b)) as Ht.
    assert (Hown : forall x y, is_Some (own (key_of x y) conversions) ->
                     is_Some (own (key_of y x) conversions)).
    { intros x y [q Hq]. by destruct (own_key _ _ _ Hq) as [_ [q' ->]]. }
    split; (intros [H|H]; [left; by apply Ht|right; by apply Hown]).
  - intros r. unfold convertUnits, get_property.
    destruct (temperature _ _) as [f|] eqn:Ht; [by intros [= <-]|].
    destruct (own _ conversions) as [q|] eqn:Hown.
    + destruct (Qeq_bool q 0); [done|]. by intros [= <-].
    + unfold inherited in Hab. by rewrite Hab.
Qed.

End UnitFacts.

Section UnitExamples.

Import JsString JsObject UnitConverter.

Lemma convertUnits_is_reversible_witness :
  inherited "KM" "Miles" = false /\ inherited "Miles" "KM" = false
  /\ is_Some (convertUnits exact_formula exact_times no_number 10%Q "KM" "Miles")
  /\ is_Some (convertUnits exact_formula exact_times no_number 3%Q "Miles" "KM").
Proof.
  assert (H1 : inherited "KM" "Miles" = false) by reflexivity.
  assert (H2 : inherited "Miles" "KM" = false) by reflexivity.
  destruct (convertUnits_is_reversible exact_formula exact_times no_number
              10%Q 3%Q "KM" "Miles" H1 H2) as [[H3 _] _].
  split; [exact H1|]. split; [exact H2|].
  assert (H4 : is_Some (convertUnits exact_formula exact_times no_number 10%Q "KM" "Miles"))
    by (eexists; reflexivity).
  split; [exact H4|exact (H3 H4)].
Defined.

End UnitExamples.
